(** * Instagram watcher: the cache, the retry executor, the classification
      pipeline and the followings statistics

    A shallow embedding of [src/utils/cache.ts], [src/event-detector.ts] and
    [src/pages/api/followings/stats.ts].

    Asynchronous functions are state transformers over one [World]: the
    clock, the process-wide cache, the database tables and a chronological
    trace of the observable steps (waits, calls to collaborators, cache and
    store accesses).  A function that may throw returns an [Outcome].
    JavaScript numbers are modelled as integers ([Z]); times are in
    milliseconds, as [Date.now()] gives them, and TTLs in seconds.  Values
    have the types the TypeScript declarations give them; the cache, whose
    type parameter is erased at run time, holds a union of them.  The
    collaborators (scraper, classification service, database) and
    [Math.random] and [JSON.parse] are parameters, gathered in [Env]; the
    cache store and the tables are part of the world. *)

From Stdlib Require Import ZArith Lia Ascii.
From stdpp Require Import gmap strings list.

Local Open Scope Z_scope.

(** ** Thrown values and outcomes *)

(** What a [catch] clause can receive: an instance of [Error], or any other
    value, of which only [String(value)] is ever used. *)
Inductive Thrown : Type :=
| JsError (message : string)
| JsOther (text : string).

(** [error instanceof Error ? error : new Error(String(error))] *)
Definition toError (e : Thrown) : Thrown :=
  match e with
  | JsError m => JsError m
  | JsOther t => JsError t
  end.

Definition message (e : Thrown) : string :=
  match e with
  | JsError m => m
  | JsOther t => t
  end.

Inductive Outcome (A : Type) : Type :=
| Return (a : A)
| Throw (e : Thrown).
Arguments Return {A} a.
Arguments Throw {A} e.

Definition is_throw {A} (o : Outcome A) : bool :=
  match o with
  | Throw _ => true
  | Return _ => false
  end.

(** ** Data model *)

(** The verdict type declared as the result of [analyzePostWithOpenAI]. *)
Record Analysis : Type := {
  isEvent : bool;
  eventType : option string;
  eventDetails : option string;
  confidenceScore : Z
}.

(** [InstagramPost] of [types/instagram-scraper.d.ts] (the fields the
    pipeline reads).  [timestamp] is in seconds. *)
Record InstagramPost : Type := {
  id : string;
  shortcode : option string;
  display_url : option string;
  image_url : option string;
  url : option string;
  caption : option string;
  timestamp : option Z
}.

Record ScraperResult : Type := {
  success : bool;
  posts : option (list InstagramPost)
}.

(** A row of [instagram_events].  [post_date] is the instant (ms) whose ISO
    rendering is stored; [event_details] is the JSON text of the payload. *)
Record EventPost : Type := {
  account : string;
  post_id : string;
  post_url : string;
  post_date : Z;
  ev_caption : option string;
  ev_image_url : option string;
  is_event : bool;
  event_type : option string;
  event_details : option string;
  confidence_score : Z
}.

Record FollowingsStats : Type := {
  totalFollowings : Z;
  dailyChange : Z;
  weeklyChange : Z;
  monthlyChange : Z
}.

(** A row of [watchlist_history]. *)
Record HistoryRow : Type := {
  h_account : string;
  followings_count : Z;
  created_at : Z
}.

(** The [followings] column of [watchlist]: an array, or anything else. *)
Inductive Followings : Type :=
| FollowingsArray (l : list string)
| FollowingsOther.

(** The values this code base keeps in the cache, as JavaScript sees them at
    run time: the generic parameter of [getCached<T>] is erased. *)
Inductive CacheVal : Type :=
| CUndefined
| CNull
| CNum (n : Z)
| CAnalysis (a : Analysis)
| CStrings (l : list string)
| CStats (s : FollowingsStats).

#[global] Instance Analysis_eq_dec : EqDecision Analysis.
Proof. solve_decision. Defined.
#[global] Instance FollowingsStats_eq_dec : EqDecision FollowingsStats.
Proof. solve_decision. Defined.
#[global] Instance CacheVal_eq_dec : EqDecision CacheVal.
Proof. solve_decision. Defined.

(** [value !== undefined] *)
Definition defined (v : CacheVal) : bool :=
  match v with
  | CUndefined => false
  | _ => true
  end.

(** A cache entry: the payload and the absolute time (ms) at which it
    expires. *)
Record CacheEntry : Type := {
  value : CacheVal;
  expiresAt : Z
}.

(** Observable steps, in the order they happen. *)
Inductive Event : Type :=
| EvDelay (ms : Z)                              (* await delay(ms) *)
| EvCall (op : string)                          (* a retried operation is invoked *)
| EvGetPosts (username : string)                (* scraper.getPosts *)
| EvOpenAI (post : string)                      (* openai.createChatCompletion *)
| EvSessionCheck (post : string) (seen : bool)  (* analyzedPostIds.has *)
| EvSelect (post : string) (found : bool)       (* lookup in instagram_events *)
| EvCacheGet (key : string) (hit : bool)        (* getCached, and what it saw *)
| EvCacheSet (key : string)                     (* setCached *)
| EvUpsert (post : string) (stored : bool).     (* upsert into instagram_events *)

#[global] Instance Event_eq_dec : EqDecision Event.
Proof. solve_decision. Defined.

Record World : Type := {
  clock : Z;
  cache : gmap string CacheEntry;
  instagram_events : gmap string EventPost;
  watchlist : gmap string Followings;
  watchlist_history : list HistoryRow;
  trace : list Event
}.

Definition M (A : Type) : Type := World -> Outcome A * World.

Definition log (e : Event) (w : World) : World :=
  {| clock := clock w; cache := cache w;
     instagram_events := instagram_events w; watchlist := watchlist w;
     watchlist_history := watchlist_history w;
     trace := trace w ++ [e] |}.

(** Time passing: the clock moves forward, nothing else changes. *)
Definition elapse (ms : Z) (w : World) : World :=
  {| clock := clock w + Z.max 0 ms; cache := cache w;
     instagram_events := instagram_events w; watchlist := watchlist w;
     watchlist_history := watchlist_history w;
     trace := trace w |}.

Definition set_cache (c : gmap string CacheEntry) (w : World) : World :=
  {| clock := clock w; cache := c;
     instagram_events := instagram_events w; watchlist := watchlist w;
     watchlist_history := watchlist_history w;
     trace := trace w |}.

Definition set_instagram_events (t : gmap string EventPost) (w : World) : World :=
  {| clock := clock w; cache := cache w;
     instagram_events := t; watchlist := watchlist w;
     watchlist_history := watchlist_history w;
     trace := trace w |}.

(** How often an event occurs in a trace. *)
Fixpoint occurrences (e : Event) (l : list Event) : nat :=
  match l with
  | [] => O
  | x :: r => if decide (x = e) then S (occurrences e r) else occurrences e r
  end.

(** A step that is recorded and answered from what can be seen of the world
    at that moment. *)
Definition invoke {A} (e : Event) (answer : World -> Outcome A) : M A :=
  fun w => (answer w, log e w).

(** ** event-detector.ts: delay and withRetry *)

Definition MAX_RETRIES : Z := 3.
Definition RETRY_DELAY : Z := 5000.

(** The longest wait [setTimeout] takes: a wait above it, or below 1, is
    set to 1. *)
Definition TIMEOUT_MAX : Z := 2147483647.

Definition setTimeout_wait (ms : Z) : Z :=
  if (ms <? 1) || (TIMEOUT_MAX <? ms) then 1 else ms.

(** [delay(ms)]: the wait asked for is recorded, and the clock advances by
    the wait [setTimeout] makes of it. *)
Definition delay (ms : Z) (w : World) : World :=
  log (EvDelay ms) (elapse (setTimeout_wait ms) w).

(** The loop of [withRetry]: [remaining] iterations are left, [attempt] is
    the loop counter, [lastError] the variable of the same name. *)
Fixpoint retry_loop {A} (fn : M A) (retries delayMs : Z) (remaining : nat)
    (attempt : Z) (lastError : option Thrown) (w : World) : Outcome A * World :=
  match remaining with
  | O =>
      (Throw (match lastError with
              | Some e => e
              | None => JsError "All retries failed"
              end), w)
  | S remaining' =>
      match fn w with
      | (Return v, w1) => (Return v, w1)
      | (Throw e, w1) =>
          let w2 :=
            if attempt <? retries
            then delay (delayMs * 2 ^ (attempt - 1)) w1
            else w1 in
          retry_loop fn retries delayMs remaining' (attempt + 1)
            (Some (toError e)) w2
      end
  end.

(** [for (let attempt = 1; attempt <= retries; attempt++)] runs
    [retries] times. *)
Definition withRetry {A} (fn : M A) (retries delayMs : Z) : M A :=
  retry_loop fn retries delayMs (Z.to_nat retries) 1 None.

(** A test double: the operation named [op] whose [i]-th invocation (from 0)
    has the outcome [script i]; invocations are counted in the trace. *)
Definition calls (op : string) (w : World) : nat :=
  occurrences (EvCall op) (trace w).

Definition scripted {A} (op : string) (script : nat -> Outcome A) : M A :=
  invoke (EvCall op) (fun w => script (calls op w)).

(** The steps of [k] attempts with a wait between consecutive attempts: the
    wait after attempt [i] is [delayMs * 2^(i-1)]. *)
Definition backoff_schedule (op : string) (delayMs : Z) (k : nat) : list Event :=
  flat_map (fun i : nat => [EvCall op; EvDelay (delayMs * 2 ^ (Z.of_nat i - 1))])
           (seq 1 (k - 1))
  ++ [EvCall op].

(** ** utils/cache.ts *)

(** The default of the [ttl] parameters, which is passed explicitly here. *)
Definition DEFAULT_TTL : Z := 60 * 115.

(** Modelled from the spec: the store behind [cache.ts], an instance of class
    NodeCache of the node-cache package, which is not among the sources.  An
    entry holds a value and [expiresAt]; a write gives the entry [ttl]
    seconds to live from the time of the write; a read never returns an
    entry whose [expiresAt] has passed: such an entry is treated as absent
    and reclaimed by the read.  Absent reads as [undefined].  Of what is
    stored, the spec's contract [get(key) -> value | absent] speaks of
    values only: [undefined], when it is written, is read back as [null],
    as the package does (version 5.1.2 in package.json), and so is not taken
    for an absent entry; the entry is kept here as it will be read.  Every
    TTL this code base writes with is a positive constant; a TTL of 0, which
    the package takes for no expiry, is given no meaning of its own here. *)
Definition unwrap (v : CacheVal) : CacheVal :=
  match v with
  | CUndefined => CNull
  | _ => v
  end.

Definition NodeCache_get (key : string) (w : World) : CacheVal * World :=
  match cache w !! key with
  | Some e =>
      if expiresAt e <? clock w
      then (CUndefined, set_cache (delete key (cache w)) w)
      else (value e, w)
  | None => (CUndefined, w)
  end.

Definition NodeCache_set (key : string) (v : CacheVal) (ttl : Z) (w : World)
    : bool * World :=
  (true,
   set_cache
     (<[key := {| value := unwrap v; expiresAt := clock w + ttl * 1000 |}]>
        (cache w)) w).

Definition getCached (key : string) (w : World) : CacheVal * World :=
  let (v, w1) := NodeCache_get key w in
  (v, log (EvCacheGet key (defined v)) w1).

Definition setCached (key : string) (v : CacheVal) (ttl : Z) (w : World)
    : bool * World :=
  let (ok, w1) := NodeCache_set key v ttl w in
  (ok, log (EvCacheSet key) w1).

Definition getCachedOrCompute (key : string) (fn : M CacheVal) (ttl : Z)
    : M CacheVal :=
  fun w =>
    let (cachedValue, w1) := getCached key w in
    if defined cachedValue then (Return cachedValue, w1)
    else
      match fn w1 with
      | (Return computedValue, w2) =>
          let (_, w3) := setCached key computedValue ttl w2 in
          (Return computedValue, w3)
      | (Throw e, w2) => (Throw e, w2)
      end.

(** ** event-detector.ts: the classification pipeline *)

Definition MIN_CONFIDENCE_THRESHOLD : Z := 90.
Definition OPENAI_ANALYSIS_CACHE_TTL : Z := 60 * 60 * 24 * 7.

(** [completion.data]: the choices, each with its optional message content. *)
Record Completion : Type := {
  choices : option (list (option string))
}.

(** The collaborators and built-ins the pipeline is given.  Each answers from
    the world it is called in, and so may depend on the time and on all that
    happened before; [latency] is the time a request takes. *)
Record Env : Type := {
  scraper_getPosts : string -> Z -> World -> Outcome ScraperResult;
  openai_createChatCompletion : InstagramPost -> World -> Outcome Completion;
  supabase_fails : World -> bool;     (* the request comes back with an error *)
  latency : World -> Z;
  Math_random : World -> Z;           (* Math.random() * 3000, in [mod 3000] *)
  JSON_parse : string -> option Analysis   (* None: JSON.parse throws *)
}.

(** An awaited request to a collaborator. *)
Definition request {A} (env : Env) (e : Event) (answer : World -> Outcome A)
    : M A :=
  fun w => (answer w, elapse (latency env w) (log e w)).

(** [s.includes(needle)] *)
Fixpoint includes (needle s : string) : bool :=
  if String.prefix needle s then true
  else match s with
       | EmptyString => false
       | String _ r => includes needle r
       end.

(** [responseText.match(/\{[\s\S]*\}/)]: from the first opening brace to the
    last closing brace after it. *)
Fixpoint upto_last_close (s : string) : option string :=
  match s with
  | EmptyString => None
  | String c r =>
      match upto_last_close r with
      | Some p => Some (String c p)
      | None => if Ascii.eqb c "}"%char then Some (String c EmptyString) else None
      end
  end.

Fixpoint match_json (s : string) : option string :=
  match s with
  | EmptyString => None
  | String c r =>
      if Ascii.eqb c "{"%char
      then match upto_last_close r with
           | Some p => Some (String c p)
           | None => None
           end
      else match_json r
  end.

(** [{ isEvent: false, confidenceScore: 0 }] *)
Definition fallback : Analysis :=
  {| isEvent := false; eventType := None; eventDetails := None;
     confidenceScore := 0 |}.

(** What the classification yields once the completion is there
    (lines 164-189). *)
Definition interpret (env : Env) (completion : Completion) : Analysis :=
  match choices completion with
  | None | Some [] => fallback
  | Some (c :: _) =>
      let responseText := default EmptyString c in
      match match_json responseText with
      | Some json =>
          match JSON_parse env json with
          | Some parsedResponse => parsedResponse
          | None => fallback
          end
      | None => fallback
      end
  end.

(** The wrapped call to the classification service. *)
Definition createChatCompletion (env : Env) (post : InstagramPost)
    : M Completion :=
  withRetry
    (request env (EvOpenAI (id post)) (openai_createChatCompletion env post))
    MAX_RETRIES RETRY_DELAY.

Definition is_Error (e : Thrown) : bool :=
  match e with
  | JsError _ => true
  | JsOther _ => false
  end.

(** The inner [try] of the producer (lines 151-198). *)
Definition classify (env : Env) (post : InstagramPost) : M CacheVal :=
  fun w =>
    match createChatCompletion env post w with
    | (Return completion, w1) => (Return (CAnalysis (interpret env completion)), w1)
    | (Throw apiError, w1) =>
        let w2 :=
          if is_Error apiError && includes "rate limit" (message apiError)
          then delay 15000 w1
          else w1 in
        (Throw apiError, w2)
    end.

(** The producer handed to [getCachedOrCompute] (lines 118-206). *)
Definition analysis_producer (env : Env) (post : InstagramPost) : M CacheVal :=
  fun w =>
    match classify env post w with
    | (Return v, w1) => (Return v, w1)
    | (Throw _, w1) => (Return (CAnalysis fallback), w1)
    end.

Definition analysis_key (post_id : string) : string :=
  "post_analysis:" +:+ post_id.

Definition analyzePostWithOpenAI (env : Env) (post : InstagramPost)
    : M CacheVal :=
  getCachedOrCompute (analysis_key (id post)) (analysis_producer env post)
    OPENAI_ANALYSIS_CACHE_TTL.

(** The upsert into [instagram_events], whose rows are unique on [post_id]. *)
Definition storeEventInSupabase (env : Env) (eventPost : EventPost) (w : World)
    : bool * World :=
  if supabase_fails env w
  then (false, elapse (latency env w) (log (EvUpsert (post_id eventPost) false) w))
  else (true,
        elapse (latency env w)
          (log (EvUpsert (post_id eventPost) true)
             (set_instagram_events
                (<[post_id eventPost := eventPost]> (instagram_events w)) w))).

(** [from('instagram_events').select('id').eq('post_id', id).single()]:
    whether a row came back. *)
Definition select_existing (env : Env) (pid : string) (w : World)
    : bool * World :=
  let existingPost :=
    if supabase_fails env w then false
    else match instagram_events w !! pid with
         | Some _ => true
         | None => false
         end in
  (existingPost, elapse (latency env w) (log (EvSelect pid existingPost) w)).

(** The local variables of [scrapeAndDetectEvents]. *)
Record RunState : Type := {
  events : list EventPost;
  totalProcessed : Z;
  totalEvents : Z;
  cacheHits : Z;
  cacheMisses : Z;
  analyzedPostIds : gset string
}.

Definition initial_run : RunState :=
  {| events := []; totalProcessed := 0; totalEvents := 0; cacheHits := 0;
     cacheMisses := 0; analyzedPostIds := ∅ |}.

Definition mark_analyzed (pid : string) (rs : RunState) : RunState :=
  {| events := events rs; totalProcessed := totalProcessed rs;
     totalEvents := totalEvents rs; cacheHits := cacheHits rs;
     cacheMisses := cacheMisses rs;
     analyzedPostIds := {[pid]} ∪ analyzedPostIds rs |}.

Definition count_hit (hit : bool) (rs : RunState) : RunState :=
  {| events := events rs; totalProcessed := totalProcessed rs;
     totalEvents := totalEvents rs;
     cacheHits := if hit then cacheHits rs + 1 else cacheHits rs;
     cacheMisses := if hit then cacheMisses rs else cacheMisses rs + 1;
     analyzedPostIds := analyzedPostIds rs |}.

Definition count_event (rs : RunState) : RunState :=
  {| events := events rs; totalProcessed := totalProcessed rs;
     totalEvents := totalEvents rs + 1; cacheHits := cacheHits rs;
     cacheMisses := cacheMisses rs; analyzedPostIds := analyzedPostIds rs |}.

Definition push_event (e : EventPost) (rs : RunState) : RunState :=
  {| events := events rs ++ [e]; totalProcessed := totalProcessed rs;
     totalEvents := totalEvents rs; cacheHits := cacheHits rs;
     cacheMisses := cacheMisses rs; analyzedPostIds := analyzedPostIds rs |}.

Definition count_processed (n : Z) (rs : RunState) : RunState :=
  {| events := events rs; totalProcessed := totalProcessed rs + n;
     totalEvents := totalEvents rs; cacheHits := cacheHits rs;
     cacheMisses := cacheMisses rs; analyzedPostIds := analyzedPostIds rs |}.

(** [s || alternative] on an optional string: absent and empty are falsy. *)
Definition or_string (s : option string) (alternative : option string)
    : option string :=
  match s with
  | Some EmptyString | None => alternative
  | Some _ => s
  end.

(** JavaScript truthiness of a cached value. *)
Definition truthy (v : CacheVal) : bool :=
  match v with
  | CUndefined | CNull => false
  | CNum n => negb (n =? 0)
  | _ => true
  end.

(** Reading [.isEvent], [.confidenceScore] and the rest off the value that
    [analyzePostWithOpenAI] resolved to: a property access on [undefined] or
    [null] throws; on a value that is no verdict the properties are
    [undefined]. *)
Definition read_analysis (v : CacheVal) : Outcome Analysis :=
  match v with
  | CAnalysis a => Return a
  | CUndefined | CNull =>
      Throw (JsError "Cannot read properties of undefined")
  | _ => Return fallback
  end.

(** The extreme time value of a [Date], in milliseconds either side of the
    epoch. *)
Definition Date_MAX : Z := 8640000000000000.

(** Lines 369-371: the instant that [postDate] renders,
    [post.timestamp ? new Date(post.timestamp * 1000) : new Date()], where
    [now] is what [new Date()] gives.  [toISOString] throws a [RangeError]
    on a date outside the range of [Date]. *)
Definition postDate (post : InstagramPost) (now : Z) : Outcome Z :=
  match timestamp post with
  | Some t =>
      if t =? 0 then Return now
      else if Z.abs (t * 1000) <=? Date_MAX then Return (t * 1000)
      else Throw (JsError "Invalid time value")
  | None => Return now
  end.

(** Lines 377-388: the event built for a post, given the instant of
    [postDate]. *)
Definition eventPost_of (username : string) (post : InstagramPost)
    (analysis : Analysis) (date : Z) : EventPost :=
  {| account := username;
     post_id := id post;
     post_url :=
       default
         ("https://www.instagram.com/p/"
            +:+ default "undefined" (shortcode post) +:+ "/")
         (or_string (url post) None);
     post_date := date;
     ev_caption := or_string (caption post) None;
     ev_image_url :=
       or_string (or_string (display_url post) (image_url post)) None;
     is_event := true;
     event_type := or_string (eventType analysis) (Some "other");
     event_details := or_string (eventDetails analysis) (Some "{}");
     confidence_score := confidenceScore analysis |}.

(** Lines 364-397: what is done with a verdict.  The counters are
    variables of the run: what was counted before a throw stays counted. *)
Definition handle_verdict (env : Env) (username : string) (post : InstagramPost)
    (analysis : Analysis) (rs : RunState) (w : World)
    : Outcome unit * RunState * World :=
  if isEvent analysis && (MIN_CONFIDENCE_THRESHOLD <=? confidenceScore analysis)
  then
    let rs1 := count_event rs in
    match postDate post (clock w) with
    | Throw e => (Throw e, rs1, w)
    | Return date =>
        let eventPost := eventPost_of username post analysis date in
        let (stored, w1) := storeEventInSupabase env eventPost w in
        (Return tt, if stored then push_event eventPost rs1 else rs1, w1)
    end
  else (Return tt, rs, w).

(** Lines 355-405: what follows the analysis of a post.  What is thrown
    while the verdict is read or handled is caught and logged (lines
    398-401), and the closing [delay(500)] follows. *)
Definition finish_post (env : Env) (username : string) (post : InstagramPost)
    (cachedAnalysis v : CacheVal) (rs : RunState) (w : World)
    : RunState * World :=
  let rs2 := count_hit (truthy cachedAnalysis) rs in
  match read_analysis v with
  | Return analysis =>
      let '(_, rs3, w4) := handle_verdict env username post analysis rs2 w in
      (rs3, delay 500 w4)
  | Throw _ => (rs2, delay 500 w)
  end.

(** One iteration of the loop over the posts of an account (lines 326-405).
    A [continue] leaves before the closing [delay(500)]; an exception is
    caught and logged, and the delay follows. *)
Definition process_post (env : Env) (username : string) (post : InstagramPost)
    (rs : RunState) (w : World) : RunState * World :=
  let seen := bool_decide (id post ∈ analyzedPostIds rs) in
  let w0 := log (EvSessionCheck (id post) seen) w in
  if seen then (rs, w0)
  else
    let rs1 := mark_analyzed (id post) rs in
    let (existingPost, w1) := select_existing env (id post) w0 in
    if existingPost then (count_hit true rs1, w1)
    else
      let (cachedAnalysis, w2) := getCached (analysis_key (id post)) w1 in
      match analyzePostWithOpenAI env post w2 with
      | (Return v, w3) => finish_post env username post cachedAnalysis v rs1 w3
      | (Throw _, w3) => (rs1, delay 500 w3)
      end.

Fixpoint process_posts (env : Env) (username : string)
    (ps : list InstagramPost) (rs : RunState) (w : World) : RunState * World :=
  match ps with
  | [] => (rs, w)
  | post :: rest =>
      let (rs1, w1) := process_post env username post rs w in
      process_posts env username rest rs1 w1
  end.

(** One iteration of the loop over the accounts (lines 295-410). *)
Definition process_account (env : Env) (postsPerAccount : Z) (username : string)
    (rs : RunState) (w : World) : RunState * World :=
  let delayTime := 2000 + Math_random env w mod 3000 in
  let w1 := delay delayTime w in
  match withRetry
          (request env (EvGetPosts username)
             (scraper_getPosts env username postsPerAccount))
          MAX_RETRIES RETRY_DELAY w1 with
  | (Throw _, w2) => (rs, w2)
  | (Return results, w2) =>
      match (if success results then posts results else None) with
      | None | Some [] => (rs, w2)
      | Some ps =>
          process_posts env username ps
            (count_processed (Z.of_nat (length ps)) rs) w2
      end
  end.

Fixpoint process_accounts (env : Env) (postsPerAccount : Z)
    (accounts : list string) (rs : RunState) (w : World) : RunState * World :=
  match accounts with
  | [] => (rs, w)
  | username :: rest =>
      let (rs1, w1) := process_account env postsPerAccount username rs w in
      process_accounts env postsPerAccount rest rs1 w1
  end.

Definition scrapeAndDetectEvents (env : Env) (accounts : list string)
    (postsPerAccount : Z) (w : World) : list EventPost * World :=
  let (rs, w1) := process_accounts env postsPerAccount accounts initial_run w in
  (events rs, w1).

(** The pipeline over the life of one process: each run starts [gap]
    milliseconds after the previous one ended. *)
Record Run : Type := {
  gap : Z;
  accounts : list string;
  postsPerAccount : Z
}.

Fixpoint pipeline_runs (env : Env) (runs : list Run) (w : World) : World :=
  match runs with
  | [] => w
  | r :: rest =>
      pipeline_runs env rest
        (snd (scrapeAndDetectEvents env (accounts r) (postsPerAccount r)
                (elapse (gap r) w)))
  end.

(** What is left of a run after a post: the other posts of the account, then
    the other accounts. *)
Definition rest_of_run (env : Env) (username : string)
    (ps : list InstagramPost) (postsPerAccount : Z) (accounts : list string)
    (rs : RunState) (w : World) : RunState * World :=
  let (rs1, w1) := process_posts env username ps rs w in
  process_accounts env postsPerAccount accounts rs1 w1.

(** How often the classification service was called for a post. *)
Definition classifications (post_id : string) (w : World) : nat :=
  occurrences (EvOpenAI post_id) (trace w).

(** The steps taken between two worlds. *)
Definition steps_between (w w' : World) : list Event :=
  drop (length (trace w)) (trace w').

(** [w'] continues the trace of [w]. *)
Definition extends (w w' : World) : Prop :=
  exists steps, trace w' = trace w ++ steps.

(** The outcomes of the wrapped call to the classification service from
    which no verdict is obtained: every attempt failed, the response has no
    choices, no JSON object is found in its text, or the object found does
    not parse. *)
Inductive Unusable (env : Env) : Outcome Completion -> Prop :=
| attempts_exhausted (e : Thrown) :
    Unusable env (Throw e)
| choices_missing (c : Completion) :
    choices c = None -> Unusable env (Return c)
| choices_empty (c : Completion) :
    choices c = Some [] -> Unusable env (Return c)
| json_not_found (c : Completion) (content : option string)
    (others : list (option string)) :
    choices c = Some (content :: others) ->
    match_json (default EmptyString content) = None ->
    Unusable env (Return c)
| json_not_parsed (c : Completion) (content : option string)
    (others : list (option string)) (json : string) :
    choices c = Some (content :: others) ->
    match_json (default EmptyString content) = Some json ->
    JSON_parse env json = None ->
    Unusable env (Return c).

(** [w'] is not earlier than [w]. *)
Definition later (w w' : World) : Prop := clock w <= clock w'.

(** From [w] to [w'] time did not run backwards and, if [w] holds the entry
    [e] as verdict of the post and [e] has not expired by [w'], then [w']
    still holds it and the classification service was not called for the
    post in between. *)
Definition undisturbed (pid : string) (e : CacheEntry) (w w' : World) : Prop :=
  later w w'
  /\ (cache w !! analysis_key pid = Some e ->
      clock w' <= expiresAt e ->
      cache w' !! analysis_key pid = Some e
      /\ classifications pid w' = classifications pid w).

(** ** pages/api/followings/stats.ts *)

Definition HISTORY_CACHE_TTL : Z := 60 * 60 * 4 - 60 * 5.

Definition msPerDay : Z := 86400000.

(** The [Date] built-in, read in UTC: the calendar date of a day number
    (days since 1970-01-01) and back. *)
Definition civil_from_days (z0 : Z) : Z * Z * Z :=
  let z := z0 + 719468 in
  let era := z / 146097 in
  let doe := z - era * 146097 in
  let yoe := (doe - doe / 1460 + doe / 36524 - doe / 146096) / 365 in
  let doy := doe - (365 * yoe + yoe / 4 - yoe / 100) in
  let mp := (5 * doy + 2) / 153 in
  let d := doy - (153 * mp + 2) / 5 + 1 in
  let m := if mp <? 10 then mp + 3 else mp - 9 in
  (yoe + era * 400 + (if m <=? 2 then 1 else 0), m, d).

Definition days_from_civil (y m d : Z) : Z :=
  let y' := if m <=? 2 then y - 1 else y in
  let era := y' / 400 in
  let yoe := y' - era * 400 in
  let doy := (153 * (if 2 <? m then m - 3 else m + 9) + 2) / 5 + d - 1 in
  let doe := yoe * 365 + yoe / 4 - yoe / 100 + doy in
  era * 146097 + doe - 719468.

Definition digit (n : Z) : ascii := ascii_of_nat (48 + Z.to_nat (n mod 10)).

Definition pad2 (n : Z) : string :=
  String (digit (n / 10)) (String (digit n) EmptyString).

Definition pad4 (n : Z) : string :=
  String (digit (n / 1000)) (String (digit (n / 100)) (pad2 n)).

(** [date.toISOString().split('T')[0]], for the years 0 to 9999. *)
Definition toISODate (ms : Z) : string :=
  let '(y, m, d) := civil_from_days (ms / msPerDay) in
  pad4 y +:+ "-" +:+ pad2 m +:+ "-" +:+ pad2 d.

(** [d.setDate(d.getDate() - 1)], [d.setDate(d.getDate() - 7)] and
    [d.setMonth(d.getMonth() - 1)] on [new Date()]. *)
Definition oneDayAgo (now : Z) : Z := now - msPerDay.
Definition oneWeekAgo (now : Z) : Z := now - 7 * msPerDay.
Definition oneMonthAgo (now : Z) : Z :=
  let '(y, m, d) := civil_from_days (now / msPerDay) in
  let '(y1, m1) := if m =? 1 then (y - 1, 12) else (y, m - 1) in
  (days_from_civil y1 m1 1 + d - 1) * msPerDay + now mod msPerDay.

(** The query of [getDifferenceFromDate]: the rows of the account created at
    or before [date], latest first, limited to one. *)
Definition at_or_before (acct : string) (date : Z) (r : HistoryRow) : bool :=
  String.eqb (h_account r) acct && (created_at r <=? date).

Fixpoint latest (rows : list HistoryRow) : option HistoryRow :=
  match rows with
  | [] => None
  | r :: rest =>
      match latest rest with
      | Some best => if created_at r <? created_at best then Some best else Some r
      | None => Some r
      end
  end.

Definition nearest_sample (rows : list HistoryRow) (acct : string) (date : Z)
    : option HistoryRow :=
  latest (List.filter (at_or_before acct date) rows).

Definition history_key (acct : string) (date : Z) : string :=
  "followings_history:" +:+ acct +:+ ":" +:+ toISODate date.

(** The producer of [getDifferenceFromDate] (lines 137-159). *)
Definition history_producer (env : Env) (acct : string) (date : Z)
    : M CacheVal :=
  fun w =>
    let w1 := elapse (latency env w) w in
    if supabase_fails env w then (Return CNull, w1)
    else
      match nearest_sample (watchlist_history w) acct date with
      | None => (Return CNull, w1)
      | Some r => (Return (CNum (followings_count r)), w1)
      end.

Definition getDifferenceFromDate (env : Env) (acct : string) (date : Z)
    : M CacheVal :=
  getCachedOrCompute (history_key acct date) (history_producer env acct date)
    HISTORY_CACHE_TTL.

(** [historical || current] for the declared type [number | null] of the
    historical result: [0] and [null] are falsy. *)
Definition or_current (historical : CacheVal) (current : Z) : Z :=
  match historical with
  | CNum n => if n =? 0 then current else n
  | _ => current
  end.

(** What the query of [getDifferenceFromDate] resolves to (lines 141-158). *)
Definition history_answer (env : Env) (acct : string) (date : Z) (w : World)
    : CacheVal :=
  if supabase_fails env w then CNull
  else
    match nearest_sample (watchlist_history w) acct date with
    | None => CNull
    | Some r => CNum (followings_count r)
    end.

(** A call of [getDifferenceFromDate] that was made and has not resolved:
    what the cache answered, and, for a miss, what the query that was sent
    will answer and after how long. *)
Record PendingLookup : Type := {
  p_key : string;
  p_cached : CacheVal;
  p_answer : CacheVal;
  p_latency : Z
}.

(** The call as far as it runs before it first waits: the cache is read
    and, on a miss, the query is sent. *)
Definition begin_lookup (env : Env) (acct : string) (date : Z) (w : World)
    : PendingLookup * World :=
  let (cachedValue, w1) := getCached (history_key acct date) w in
  ({| p_key := history_key acct date;
      p_cached := cachedValue;
      p_answer := history_answer env acct date w1;
      p_latency := latency env w1 |},
   w1).

(** The rest of the call: a hit has resolved already; on a miss the answer
    arrives and is stored under the key. *)
Definition end_lookup (p : PendingLookup) (w : World) : CacheVal * World :=
  if defined (p_cached p) then (p_cached p, w)
  else
    (p_answer p,
     snd (setCached (p_key p) (p_answer p) HISTORY_CACHE_TTL
            (elapse (p_latency p) w))).

(** [Promise.all] over the three lookups (lines 101-105): the three calls
    are made one after the other, each as far as its first wait, so that
    the three cache reads come before every answer and every write; the
    answers are taken in the order of the calls. *)
Definition historical_results (env : Env) (acct : string) (now : Z)
    : M (CacheVal * CacheVal * CacheVal) :=
  fun w =>
    let (day, w1) := begin_lookup env acct (oneDayAgo now) w in
    let (week, w2) := begin_lookup env acct (oneWeekAgo now) w1 in
    let (month, w3) := begin_lookup env acct (oneMonthAgo now) w2 in
    let (dayResult, w4) := end_lookup day w3 in
    let (weekResult, w5) := end_lookup week w4 in
    let (monthResult, w6) := end_lookup month w5 in
    (Return (dayResult, weekResult, monthResult), w6).

Definition currentFollowingsCount (f : Followings) : Z :=
  match f with
  | FollowingsArray l => Z.of_nat (length l)
  | FollowingsOther => 0
  end.

(** The row of the account is read with [.single()], which comes back with
    an error when there is no such row: both cases throw
    [ApiErrors.ServiceUnavailable('Database')].  [new Date()] is read after
    that request. *)
Definition computeFollowingsStats (env : Env) (acct : string)
    : M FollowingsStats :=
  fun w =>
    let w1 := elapse (latency env w) w in
    if supabase_fails env w
    then (Throw (JsError "Database service unavailable"), w1)
    else
      match watchlist w !! acct with
      | None => (Throw (JsError "Database service unavailable"), w1)
      | Some followings =>
          let current := currentFollowingsCount followings in
          match historical_results env acct (clock w1) w1 with
          | (Return (dayResult, weekResult, monthResult), w2) =>
              (Return
                 {| totalFollowings := current;
                    dailyChange := current - or_current dayResult current;
                    weeklyChange := current - or_current weekResult current;
                    monthlyChange := current - or_current monthResult current |},
               w2)
          | (Throw _, w2) =>
              (Return
                 {| totalFollowings := current; dailyChange := 0;
                    weeklyChange := 0; monthlyChange := 0 |},
               w2)
          end
      end.

(** ** Sample worlds, operations and collaborators *)

Definition world0 : World :=
  {| clock := 0; cache := ∅; instagram_events := ∅; watchlist := ∅;
     watchlist_history := []; trace := [] |}.

(** An operation that fails twice and then succeeds, and one that always
    fails. *)
Definition flaky (i : nat) : Outcome Z :=
  if (i <? 2)%nat then Throw (JsError "timeout") else Return 7.

Definition broken (i : nat) : Outcome Z :=
  match i with
  | O => Throw (JsOther "first failure")
  | S O => Throw (JsOther "second failure")
  | _ => Throw (JsOther "third failure")
  end.

(** A producer that succeeds with [undefined], and one that fails. *)
Definition producer_undefined : M CacheVal :=
  scripted "producer" (fun _ => Return CUndefined).

Definition producer_failing : M CacheVal :=
  scripted "producer" (fun _ => Throw (JsError "unavailable")).

(** A world whose cache still holds an entry that expired at time 5. *)
Definition world_stale : World :=
  {| clock := 10;
     cache := {["k" := {| value := CNum 1; expiresAt := 5 |}]};
     instagram_events := ∅; watchlist := ∅; watchlist_history := [];
     trace := [] |}.

(** A post, and collaborators that always answer: the scraper returns that
    post for every account, and the classification service a verdict that
    [JSON.parse] reads as "not an event, confidence 10". *)
Definition post_p1 : InstagramPost :=
  {| id := "p1"; shortcode := Some "Cx1"; display_url := None;
     image_url := None; url := None; caption := Some "Open day";
     timestamp := Some 1700000000 |}.

Definition not_an_event : Analysis :=
  {| isEvent := false; eventType := None; eventDetails := None;
     confidenceScore := 10 |}.

Definition env_steady : Env :=
  {| scraper_getPosts :=
       fun _ _ _ => Return {| success := true; posts := Some [post_p1] |};
     openai_createChatCompletion :=
       fun _ _ => Return {| choices := Some [Some "{ isEvent: false }"] |};
     supabase_fails := fun _ => false;
     latency := fun _ => 120;
     Math_random := fun _ => 1500;
     JSON_parse := fun _ => Some not_an_event |}.

Definition run_now : Run :=
  {| gap := 0; accounts := ["alice"]; postsPerAccount := 5 |}.

(** A run two hours after the previous one, and one more than seven days
    after it. *)
Definition run_two_hours_later : Run :=
  {| gap := 2 * 3600 * 1000; accounts := ["alice"]; postsPerAccount := 5 |}.

Definition run_next_week : Run :=
  {| gap := 7 * 24 * 3600 * 1000 + 1; accounts := ["alice"]; postsPerAccount := 5 |}.

(** A classification service that is down, and one whose answer holds no
    JSON object. *)
Definition env_down : Env :=
  {| scraper_getPosts :=
       fun _ _ _ => Return {| success := true; posts := Some [post_p1] |};
     openai_createChatCompletion :=
       fun _ _ => Throw (JsError "Request failed: rate limit reached");
     supabase_fails := fun _ => false;
     latency := fun _ => 120;
     Math_random := fun _ => 1500;
     JSON_parse := fun _ => None |}.

(** A verdict that passes the threshold and one that does not. *)
Definition verdict_95 : Analysis :=
  {| isEvent := true; eventType := Some "conference"; eventDetails := None;
     confidenceScore := 95 |}.

Definition verdict_80 : Analysis :=
  {| isEvent := true; eventType := Some "seminar"; eventDetails := None;
     confidenceScore := 80 |}.

(** An account with three followings and two samples taken on 2024-01-01:
    two followings at 09:00 UTC, none at 12:00 UTC.  [world_morning] is
    2024-01-02 at 10:00 UTC. *)
Definition sample_0900 : HistoryRow :=
  {| h_account := "alice"; followings_count := 2; created_at := 1704099600000 |}.

Definition sample_1200 : HistoryRow :=
  {| h_account := "alice"; followings_count := 0; created_at := 1704110400000 |}.

Definition world_morning : World :=
  {| clock := 1704189600000; cache := ∅; instagram_events := ∅;
     watchlist := {["alice" := FollowingsArray ["bob"; "carol"; "dave"]]};
     watchlist_history := [sample_0900; sample_1200];
     trace := [] |}.

(** Three hours after the statistics were computed in [world_morning]. *)
Definition world_afternoon : World :=
  elapse (3 * 3600 * 1000)
    (snd (computeFollowingsStats env_steady "alice" world_morning)).

(** An account that went from no followings, as sampled on 2024-01-01 at
    09:00 UTC, to three on 2024-01-02 at 10:00 UTC. *)
Definition sample_none_0900 : HistoryRow :=
  {| h_account := "alice"; followings_count := 0; created_at := 1704099600000 |}.

Definition world_grown : World :=
  {| clock := 1704189600000; cache := ∅; instagram_events := ∅;
     watchlist := {["alice" := FollowingsArray ["bob"; "carol"; "dave"]]};
     watchlist_history := [sample_none_0900];
     trace := [] |}.

(** A post dated beyond the range of [Date]: its timestamp, 10^13 seconds,
    is 10^16 milliseconds, above the 8.64 * 10^15 a [Date] can hold. *)
Definition post_far : InstagramPost :=
  {| id := "far"; shortcode := Some "Cx9"; display_url := None;
     image_url := None; url := None; caption := Some "Save the date";
     timestamp := Some 10000000000000 |}.

(** ** Further operations of utils/cache.ts *)

(** Modelled from the spec: [del] and [flushAll] of the store (NodeCache).
    [del] removes the entry held under the key, expired or not, and returns
    the number of entries removed; [flushAll] removes every entry. *)
Definition NodeCache_del (key : string) (w : World) : Z * World :=
  match cache w !! key with
  | Some _ => (1, set_cache (delete key (cache w)) w)
  | None => (0, w)
  end.

Definition NodeCache_flushAll (w : World) : World := set_cache ∅ w.

(** [cache.del(key) > 0] *)
Definition deleteCached (key : string) (w : World) : bool * World :=
  let (n, w1) := NodeCache_del key w in
  (0 <? n, w1).

Definition clearCache (w : World) : World := NodeCache_flushAll w.

(** ** Measures on traces *)

(** The time asked of [delay] over a sequence of steps. *)
Fixpoint total_wait (steps : list Event) : Z :=
  match steps with
  | [] => 0
  | EvDelay ms :: rest => ms + total_wait rest
  | _ :: rest => total_wait rest
  end.

(** ** What a stretch of execution may have done *)

(** [Steps allowed rows w w']: [w'] is reached from [w] by recording steps
    that satisfy [allowed], letting time pass, changing cache entries, and
    upserting rows of [instagram_events] whose key satisfies [rows]. *)
Inductive Steps (allowed : Event -> Prop) (rows : string -> Prop)
    : World -> World -> Prop :=
| steps_done (w : World) :
    Steps allowed rows w w
| steps_log (e : Event) (w w' : World) :
    allowed e -> Steps allowed rows (log e w) w' -> Steps allowed rows w w'
| steps_elapse (ms : Z) (w w' : World) :
    Steps allowed rows (elapse ms w) w' -> Steps allowed rows w w'
| steps_cache (c : gmap string CacheEntry) (w w' : World) :
    Steps allowed rows (set_cache c w) w' -> Steps allowed rows w w'
| steps_upsert (k : string) (row : EventPost) (w w' : World) :
    rows k ->
    Steps allowed rows
      (set_instagram_events (<[k := row]> (instagram_events w)) w) w' ->
    Steps allowed rows w w'.

(** The steps that processing the post [pid] may record: waits, and
    accesses under that post's id and cache key. *)
Definition post_event (pid : string) (e : Event) : Prop :=
  match e with
  | EvDelay _ => True
  | EvOpenAI p | EvSessionCheck p _ | EvSelect p _ | EvUpsert p _ => p = pid
  | EvCacheGet k _ | EvCacheSet k => k = analysis_key pid
  | EvCall _ | EvGetPosts _ => False
  end.

(** The steps that a run over [accts] may record: fetches for those
    accounts, and anything about posts. *)
Definition run_event (accts : list string) (e : Event) : Prop :=
  match e with
  | EvGetPosts u => u ∈ accts
  | EvCall _ => False
  | _ => True
  end.

(** A store that already holds the event of post [p1]. *)
Definition world_stored : World :=
  set_instagram_events
    {[ "p1" := eventPost_of "alice" post_p1 verdict_95 1700000000000 ]} world0.

(** A scraper that cannot reach the site. *)
Definition env_unreachable : Env :=
  {| scraper_getPosts := fun _ _ _ => Throw (JsOther "ETIMEDOUT");
     openai_createChatCompletion :=
       fun _ _ => Return {| choices := Some [Some "{ isEvent: false }"] |};
     supabase_fails := fun _ => false;
     latency := fun _ => 120;
     Math_random := fun _ => 1500;
     JSON_parse := fun _ => Some not_an_event |}.

(** ** event-detector.ts: the accounts to monitor *)

Definition FOLLOWINGS_CACHE_TTL : Z := 60 * 60 * 4 - 60 * 5.

Definition followings_key (acct : string) : string := "followings:" +:+ acct.

(** The producer of [getFollowingsFromSupabase] (lines 75-98).  The row of
    the account is read with [.single()], which comes back with an error
    when there is no such row; the error is thrown and caught inside the
    producer, which then returns the empty list.  An array is truthy even
    when empty, so [data.followings] comes back as it is when it is an
    array. *)
Definition followings_producer (env : Env) (acct : string) : M CacheVal :=
  fun w =>
    let w1 := elapse (latency env w) w in
    if supabase_fails env w then (Return (CStrings []), w1)
    else
      match watchlist w !! acct with
      | Some (FollowingsArray l) => (Return (CStrings l), w1)
      | Some FollowingsOther => (Return (CStrings []), w1)
      | None => (Return (CStrings []), w1)
      end.

Definition getFollowingsFromSupabase (env : Env) (acct : string)
    : M CacheVal :=
  getCachedOrCompute (followings_key acct) (followings_producer env acct)
    FOLLOWINGS_CACHE_TTL.

(** ** event-detector.ts: main *)

(** The value of [maxFollowings]: [Infinity] without a [--max=] argument,
    else what [parseInt] makes of it, an integer or [NaN]. *)
Inductive MaxFollowings : Type :=
| MaxInfinity
| MaxNaN
| MaxInt (m : Z).

(** [maxFollowings < n] on numbers: false when [maxFollowings] is [NaN]. *)
Definition max_below (maxFollowings : MaxFollowings) (n : Z) : bool :=
  match maxFollowings with
  | MaxInfinity | MaxNaN => false
  | MaxInt m => m <? n
  end.

(** [l.slice(0, m)] for an integer [m]: a negative end counts from the end
    of the array. *)
Definition slice_to (l : list string) (m : Z) : list string :=
  if m <? 0
  then take (Z.to_nat (Z.max (Z.of_nat (length l) + m) 0)) l
  else take (Z.to_nat m) l.

(** Lines 500-503. *)
Definition apply_limit (maxFollowings : MaxFollowings) (l : list string)
    : list string :=
  match maxFollowings with
  | MaxInt m => if m <? Z.of_nat (length l) then slice_to l m else l
  | MaxInfinity | MaxNaN => l
  end.

(** What [main] does once the clients are there (lines 479-516), given the
    main account read from the environment and [maxFollowings]: [None] when
    it returns early, the events of the run otherwise; a throw is the
    critical error that ends the process with status 1.  A cached value
    that is not a list has no [length], passes both tests and fails in
    [for (const username of accounts)]. *)
Definition main (env : Env) (mainAccount : string)
    (maxFollowings : MaxFollowings) : M (option (list EventPost)) :=
  fun w =>
    if String.eqb mainAccount ""
    then (Throw (JsError "Main Instagram account not specified in environment variables (INSTAGRAM_ACCOUNT or INSTAGRAM_USERNAME)"), w)
    else
      match getFollowingsFromSupabase env mainAccount w with
      | (Throw e, w1) => (Throw e, w1)
      | (Return v, w1) =>
          match v with
          | CUndefined | CNull => (Return None, w1)
          | CNum n =>
              if n =? 0 then (Return None, w1)
              else (Throw (JsError "accounts is not iterable"), w1)
          | CAnalysis _ | CStats _ =>
              (Throw (JsError "accounts is not iterable"), w1)
          | CStrings [] => (Return None, w1)
          | CStrings followings =>
              match apply_limit maxFollowings followings with
              | [] => (Return None, w1)
              | limited =>
                  let (events, w2) := scrapeAndDetectEvents env limited 5 w1 in
                  (Return (Some events), w2)
              end
          end
      end.

(** The requests made to the scraper. *)
Definition is_getPosts (e : Event) : bool :=
  match e with
  | EvGetPosts _ => true
  | _ => false
  end.

Definition scraper_requests (steps : list Event) : nat :=
  length (List.filter is_getPosts steps).

(** The watchlist of [me] holds three followings. *)
Definition world_following : World :=
  {| clock := 0; cache := ∅; instagram_events := ∅;
     watchlist := {[ "me" := FollowingsArray ["alice"; "bob"; "carol"] ]};
     watchlist_history := []; trace := [] |}.

(** Whether the character occurs in the string. *)
Fixpoint occurs (c : ascii) (s : string) : bool :=
  match s with
  | EmptyString => false
  | String x r => Ascii.eqb x c || occurs c r
  end.

(** ** Traces *)

Lemma occurrences_app (e : Event) (l1 l2 : list Event) :
  occurrences e (l1 ++ l2) = (occurrences e l1 + occurrences e l2)%nat.
Proof.
  induction l1 as [|x l1 IH]; simpl; [done|].
  destruct (decide (x = e)); simpl; lia.
Qed.

Lemma trace_log (e : Event) (w : World) : trace (log e w) = trace w ++ [e].
Proof. reflexivity. Qed.

Lemma trace_delay (ms : Z) (w : World) : trace (delay ms w) = trace w ++ [EvDelay ms].
Proof. reflexivity. Qed.

Lemma calls_log_call (op : string) (w : World) :
  calls op (log (EvCall op) w) = S (calls op w).
Proof.
  unfold calls. rewrite trace_log, occurrences_app. simpl.
  destruct (decide (EvCall op = EvCall op)); [lia | congruence].
Qed.

Lemma calls_log_other (op : string) (e : Event) (w : World) :
  e <> EvCall op -> calls op (log e w) = calls op w.
Proof.
  intros He. unfold calls. rewrite trace_log, occurrences_app. simpl.
  destruct (decide (e = EvCall op)); [done | lia].
Qed.

Lemma calls_delay (op : string) (ms : Z) (w : World) :
  calls op (delay ms w) = calls op w.
Proof.
  unfold calls. rewrite trace_delay, occurrences_app. simpl.
  destruct (decide (EvDelay ms = EvCall op)); [discriminate | lia].
Qed.

Lemma occurrences_backoff_rounds (op : string) (d : Z) (j s : nat) :
  occurrences (EvCall op)
    (flat_map (fun i : nat => [EvCall op; EvDelay (d * 2 ^ (Z.of_nat i - 1))])
       (seq s j)) = j.
Proof.
  revert s. induction j as [|j IH]; intros s; simpl; [done|].
  destruct (decide (EvCall op = EvCall op)); [|congruence].
  destruct (decide (EvDelay (d * 2 ^ (Z.of_nat s - 1)) = EvCall op)); [discriminate|].
  by rewrite IH.
Qed.

Lemma calls_backoff_schedule (op : string) (d : Z) (k : nat) :
  (1 <= k)%nat -> occurrences (EvCall op) (backoff_schedule op d k) = k.
Proof.
  intros Hk. unfold backoff_schedule.
  rewrite occurrences_app, occurrences_backoff_rounds. simpl.
  destruct (decide (EvCall op = EvCall op)); [lia | congruence].
Qed.

(** ** withRetry on a scripted operation *)

Section ScriptedRetry.
Context {A : Type}.
Variables (op : string) (script : nat -> Outcome A) (n : nat) (delayMs : Z).

(** [k - 1] failed attempts followed by a last one, from loop counter [s]
    with [r] iterations left. *)
Lemma retry_loop_scripted (j r s : nat) (lastError : option Thrown) (w : World) :
  (j < r)%nat -> (s + r = n + 1)%nat ->
  (forall i, (i < j)%nat -> is_throw (script (calls op w + i)%nat) = true) ->
  (S j = r \/ is_throw (script (calls op w + j)%nat) = false) ->
  let run := retry_loop (scripted op script) (Z.of_nat n) delayMs r
               (Z.of_nat s) lastError w in
  trace (snd run)
  = trace w
    ++ flat_map (fun i : nat => [EvCall op; EvDelay (delayMs * 2 ^ (Z.of_nat i - 1))])
         (seq s j)
    ++ [EvCall op]
  /\ fst run = match script (calls op w + j)%nat with
               | Return v => Return v
               | Throw e => Throw (toError e)
               end.
Proof.
  revert r s lastError w.
  induction j as [|j IH]; intros r s lastError w Hr Hs Hfail Hlast.
  - destruct r as [|r]; [lia|]. simpl.
    rewrite Nat.add_0_r in *.
    destruct (script (calls op w)) as [v|e] eqn:Hsc.
    + done.
    + destruct Hlast as [Hlast|Hlast]; [|discriminate].
      assert (r = 0%nat) as -> by lia.
      assert ((Z.of_nat s <? Z.of_nat n) = false) as -> by (apply Z.ltb_ge; lia).
      done.
  - destruct r as [|r]; [lia|]. simpl.
    pose proof (Hfail 0%nat ltac:(lia)) as H0. rewrite Nat.add_0_r in H0.
    destruct (script (calls op w)) as [v|e] eqn:Hsc; [discriminate|].
    assert ((Z.of_nat s <? Z.of_nat n) = true) as -> by (apply Z.ltb_lt; lia).
    set (w2 := delay _ (log (EvCall op) w)).
    assert (Hc : calls op w2 = S (calls op w)).
    { unfold w2. by rewrite calls_delay, calls_log_call. }
    replace (Z.of_nat s + 1) with (Z.of_nat (S s)) by lia.
    destruct (IH r (S s) (Some (toError e)) w2) as [Ht Hf].
    + lia.
    + lia.
    + intros i Hi. rewrite Hc.
      replace (S (calls op w) + i)%nat with (calls op w + S i)%nat by lia.
      apply Hfail. lia.
    + rewrite Hc.
      replace (S (calls op w) + j)%nat with (calls op w + S j)%nat by lia.
      destruct Hlast as [Hlast|Hlast]; [left; lia | by right].
    + split.
      * rewrite Ht. unfold w2. rewrite trace_delay, trace_log.
        rewrite <- !app_assoc. reflexivity.
      * rewrite Hf, Hc.
        by replace (S (calls op w) + j)%nat with (calls op w + S j)%nat by lia.
Qed.

Lemma withRetry_scripted (k : nat) (w : World) :
  (1 <= k <= n)%nat ->
  (forall i, (i < k - 1)%nat -> is_throw (script (calls op w + i)%nat) = true) ->
  (k = n \/ is_throw (script (calls op w + (k - 1))%nat) = false) ->
  let run := withRetry (scripted op script) (Z.of_nat n) delayMs w in
  trace (snd run) = trace w ++ backoff_schedule op delayMs k
  /\ fst run = match script (calls op w + (k - 1))%nat with
               | Return v => Return v
               | Throw e => Throw (toError e)
               end.
Proof.
  intros Hk Hfail Hlast. unfold withRetry, backoff_schedule.
  rewrite Nat2Z.id. change 1 with (Z.of_nat 1).
  apply retry_loop_scripted; [lia | lia | done |].
  destruct Hlast as [Hlast|Hlast]; [left; lia | by right].
Qed.
End ScriptedRetry.

(** C3.  For every operation and every [maxAttempts = n >= 1]: if the
    operation fails on its first [k - 1] calls and succeeds on call [k <= n],
    [withRetry] returns that value and the operation was invoked exactly [k]
    times; if it fails on all of its first [n] calls, [withRetry] makes
    exactly [n] invocations and fails with the error of the [n]-th attempt
    (made an [Error] if it was not one), not with a generic error. *)
Theorem withRetry_attempts {A : Type} (op : string) (script : nat -> Outcome A)
    (n k : nat) (delayMs : Z) (w : World) :
  (1 <= k <= n)%nat ->
  (forall i, (i < k - 1)%nat -> is_throw (script (calls op w + i)%nat) = true) ->
  let run := withRetry (scripted op script) (Z.of_nat n) delayMs w in
  (forall v, script (calls op w + (k - 1))%nat = Return v ->
     fst run = Return v /\ calls op (snd run) = (calls op w + k)%nat)
  /\ (forall e, k = n -> script (calls op w + (n - 1))%nat = Throw e ->
        fst run = Throw (toError e)
        /\ calls op (snd run) = (calls op w + n)%nat).
Proof.
  intros Hk Hfail run. split.
  - intros v Hv.
    destruct (withRetry_scripted op script n delayMs k w Hk Hfail) as [Ht Hf].
    { right. by rewrite Hv. }
    fold run in Ht, Hf. rewrite Hv in Hf. split; [done|].
    unfold calls at 1. rewrite Ht, occurrences_app, calls_backoff_schedule by lia.
    reflexivity.
  - intros e -> He.
    destruct (withRetry_scripted op script n delayMs n w Hk Hfail) as [Ht Hf].
    { by left. }
    fold run in Ht, Hf. rewrite He in Hf. split; [done|].
    unfold calls at 1. rewrite Ht, occurrences_app, calls_backoff_schedule by lia.
    reflexivity.
Qed.

(** A call that fails twice and then succeeds, and one that fails three
    times. *)
Lemma withRetry_attempts_witness :
  (fst (withRetry (scripted "op" flaky) 3 5000 world0) = Return 7
   /\ calls "op" (snd (withRetry (scripted "op" flaky) 3 5000 world0)) = 3%nat)
  /\ (fst (withRetry (scripted "op" broken) 3 5000 world0)
      = Throw (JsError "third failure")
      /\ calls "op" (snd (withRetry (scripted "op" broken) 3 5000 world0)) = 3%nat).
Proof.
  split.
  - destruct (withRetry_attempts "op" flaky 3 3 5000 world0) as [Hfirst _].
    + lia.
    + intros i Hi. assert (i = 0 \/ i = 1)%nat as [-> | ->] by lia; reflexivity.
    + apply (Hfirst 7). reflexivity.
  - destruct (withRetry_attempts "op" broken 3 3 5000 world0) as [_ Hlast].
    + lia.
    + intros i Hi. assert (i = 0 \/ i = 1)%nat as [-> | ->] by lia; reflexivity.
    + apply (Hlast (JsOther "third failure")); reflexivity.
Defined.

(** C8.  For every retried operation that makes [k] attempts (the first
    [k - 1] fail, and the [k]-th succeeds or is the last allowed): attempt 1
    runs with no wait before it, the wait between attempt [i] and attempt
    [i + 1] is [delayMs * 2^(i-1)] exactly, with no ceiling, and nothing
    follows the last attempt. *)
Theorem withRetry_backoff {A : Type} (op : string) (script : nat -> Outcome A)
    (n k : nat) (delayMs : Z) (w : World) :
  (1 <= k <= n)%nat ->
  (forall i, (i < k - 1)%nat -> is_throw (script (calls op w + i)%nat) = true) ->
  (k = n \/ is_throw (script (calls op w + (k - 1))%nat) = false) ->
  trace (snd (withRetry (scripted op script) (Z.of_nat n) delayMs w))
  = trace w ++ backoff_schedule op delayMs k.
Proof.
  intros Hk Hfail Hlast.
  by destruct (withRetry_scripted op script n delayMs k w Hk Hfail Hlast).
Qed.

(** Three failing attempts from a base delay of five seconds. *)
Lemma withRetry_backoff_witness :
  trace (snd (withRetry (scripted "op" broken) 3 5000 world0))
  = [EvCall "op"; EvDelay 5000; EvCall "op"; EvDelay 10000; EvCall "op"].
Proof.
  apply (withRetry_backoff "op" broken 3 3 5000 world0).
  - lia.
  - intros i Hi. assert (i = 0 \/ i = 1)%nat as [-> | ->] by lia; reflexivity.
  - by left.
Defined.

(** ** The cache *)

Lemma NodeCache_get_live (key : string) (e : CacheEntry) (w : World) :
  cache w !! key = Some e -> clock w <= expiresAt e ->
  NodeCache_get key w = (value e, w).
Proof.
  intros He Hlive. unfold NodeCache_get. rewrite He.
  assert ((expiresAt e <? clock w) = false) as -> by (apply Z.ltb_ge; lia).
  reflexivity.
Qed.

Lemma NodeCache_get_expired (key : string) (e : CacheEntry) (w : World) :
  cache w !! key = Some e -> expiresAt e < clock w ->
  NodeCache_get key w = (CUndefined, set_cache (delete key (cache w)) w).
Proof.
  intros He Hexp. unfold NodeCache_get. rewrite He.
  assert ((expiresAt e <? clock w) = true) as -> by (apply Z.ltb_lt; lia).
  reflexivity.
Qed.

Lemma NodeCache_get_absent (key : string) (w : World) :
  cache w !! key = None -> NodeCache_get key w = (CUndefined, w).
Proof. intros He. unfold NodeCache_get. by rewrite He. Qed.

Lemma getCached_live (key : string) (e : CacheEntry) (w : World) :
  cache w !! key = Some e -> clock w <= expiresAt e ->
  getCached key w = (value e, log (EvCacheGet key (defined (value e))) w).
Proof.
  intros He Hlive. unfold getCached. by rewrite (NodeCache_get_live key e w).
Qed.

(** A lookup leaves the clock and the tables alone, adds one step to the
    trace, and touches no entry but an expired one under its own key. *)
Lemma getCached_frame (key : string) (w : World) :
  let w1 := snd (getCached key w) in
  clock w1 = clock w
  /\ trace w1 = trace w ++ [EvCacheGet key (defined (fst (getCached key w)))]
  /\ instagram_events w1 = instagram_events w
  /\ (cache w1 = cache w
      \/ (exists e, cache w !! key = Some e /\ expiresAt e < clock w)
         /\ fst (getCached key w) = CUndefined
         /\ cache w1 = delete key (cache w)).
Proof.
  unfold getCached, NodeCache_get.
  destruct (cache w !! key) as [e|] eqn:He; simpl.
  - destruct (expiresAt e <? clock w) eqn:Hexp; simpl.
    + repeat split; try done. right. apply Z.ltb_lt in Hexp. eauto.
    + repeat split; try done. by left.
  - repeat split; try done. by left.
Qed.

Lemma getCachedOrCompute_hit (key : string) (fn : M CacheVal) (ttl : Z)
    (w : World) :
  defined (fst (getCached key w)) = true ->
  getCachedOrCompute key fn ttl w
  = (Return (fst (getCached key w)), snd (getCached key w)).
Proof.
  intros Hdef. unfold getCachedOrCompute.
  destruct (getCached key w) as [v w1]. simpl in *. by rewrite Hdef.
Qed.

Lemma getCachedOrCompute_miss (key : string) (fn : M CacheVal) (ttl : Z)
    (w : World) :
  fst (getCached key w) = CUndefined ->
  getCachedOrCompute key fn ttl w
  = match fn (snd (getCached key w)) with
    | (Return v, w2) => (Return v, snd (setCached key v ttl w2))
    | (Throw e, w2) => (Throw e, w2)
    end.
Proof.
  intros Hmiss. unfold getCachedOrCompute.
  destruct (getCached key w) as [v w1]. simpl in *. subst v. simpl.
  by destruct (fn w1) as [[v|e] w2].
Qed.

Lemma unwrap_defined (v : CacheVal) : defined (unwrap v) = true.
Proof. by destruct v. Qed.

Lemma unwrap_value (v : CacheVal) : defined v = true -> unwrap v = v.
Proof. by destruct v. Qed.

Lemma setCached_entry (key : string) (v : CacheVal) (ttl : Z) (w : World) :
  let w1 := snd (setCached key v ttl w) in
  cache w1 !! key
  = Some {| value := unwrap v; expiresAt := clock w + ttl * 1000 |}
  /\ clock w1 = clock w
  /\ trace w1 = trace w ++ [EvCacheSet key].
Proof. simpl. by rewrite lookup_insert_eq. Qed.

(** C4, as stated: [undefined], written for ten seconds, is read five
    seconds later as [null]. *)
Lemma getCached_undefined_read_as_null :
  let w1 := snd (setCached "k" CUndefined 10 world0) in
  let w2 := elapse 5000 w1 in
  clock w2 = clock w1 + 5000
  /\ fst (getCached "k" w2) = CNull
  /\ fst (getCached "k" w2) <> CUndefined.
Proof. vm_compute. done. Qed.

(** C4 (amended).  For every key [k], value [v] and TTL [t > 0]: a [get(k)]
    issued [d] milliseconds after [set(k, v, t)], with the entry as the
    write left it, returns [v] when [d < t * 1000], except that [undefined]
    is returned as [null], and returns [undefined] (absent) when
    [d > t * 1000], although the expired entry is still held. *)
Theorem getCached_within_ttl (k : string) (v : CacheVal) (t d : Z)
    (w w2 : World) :
  0 < t ->
  let w1 := snd (setCached k v t w) in
  cache w2 !! k = cache w1 !! k ->
  clock w2 = clock w1 + d ->
  (d < t * 1000 ->
   fst (getCached k w2) = if decide (v = CUndefined) then CNull else v)
  /\ (t * 1000 < d -> fst (getCached k w2) = CUndefined).
Proof.
  intros Ht w1 Hk Hclock.
  destruct (setCached_entry k v t w) as (He & Hc & _). fold w1 in He, Hc.
  rewrite He in Hk. split; intros Hd.
  - rewrite (getCached_live k _ w2 Hk); [|simpl; lia].
    simpl. by destruct v.
  - unfold getCached. rewrite (NodeCache_get_expired k _ w2 Hk); [done|].
    simpl. lia.
Qed.

(** A value written for ten seconds, read after five and after ten seconds
    and a millisecond. *)
Lemma getCached_within_ttl_witness :
  fst (getCached "k" (elapse 5000 (snd (setCached "k" (CNum 1) 10 world0))))
  = CNum 1
  /\ fst (getCached "k" (elapse 10001 (snd (setCached "k" (CNum 1) 10 world0))))
     = CUndefined.
Proof.
  split.
  - apply (getCached_within_ttl "k" (CNum 1) 10 5000 world0
             (elapse 5000 (snd (setCached "k" (CNum 1) 10 world0))));
      [lia | reflexivity | reflexivity | lia].
  - apply (getCached_within_ttl "k" (CNum 1) 10 10001 world0
             (elapse 10001 (snd (setCached "k" (CNum 1) 10 world0))));
      [lia | reflexivity | reflexivity | lia].
Defined.

(** C6, as stated: with a negative TTL the entry written by the first call
    has expired when the second call reads it, and the producer is run
    again. *)
Lemma getCachedOrCompute_negative_ttl_recomputed :
  let producer := scripted "producer" (fun _ => Return (CNum 3)) in
  let first := getCachedOrCompute "k" producer (-1) world0 in
  let second := getCachedOrCompute "k" producer (-1) (snd first) in
  fst first = Return (CNum 3)
  /\ fst second = Return (CNum 3)
  /\ calls "producer" (snd first) = 1%nat
  /\ calls "producer" (snd second) = 2%nat.
Proof. vm_compute. done. Qed.

(** Right after a value was stored with a TTL that is not negative,
    [getCachedOrCompute] finds it, whatever producer it is given. *)
Lemma getCachedOrCompute_after_set (key : string) (g : M CacheVal)
    (ttl ttl' : Z) (w : World) (v : CacheVal) :
  0 <= ttl ->
  let w1 := snd (setCached key v ttl w) in
  getCachedOrCompute key g ttl' w1
  = (Return (unwrap v), log (EvCacheGet key true) w1).
Proof.
  intros Httl w1.
  destruct (setCached_entry key v ttl w) as (He & Hc & _). fold w1 in He, Hc.
  assert (Hget : getCached key w1 = (unwrap v, log (EvCacheGet key true) w1)).
  { rewrite (getCached_live key _ w1 He); [|simpl; lia].
    simpl. by rewrite unwrap_defined. }
  rewrite getCachedOrCompute_hit; rewrite Hget; simpl; by rewrite ?unwrap_defined.
Qed.

(** C6 (amended).  For every key, every TTL that is not negative and every
    producer that succeeds on a miss: the first call runs the producer once,
    from the world the lookup left, and stores its result under the key,
    for a positive TTL with that time to live; a second call in immediate
    succession is a hit: it returns the stored value ([null] when the
    producer gave [undefined]) and takes no step but the lookup, whatever
    producer it is given, so the producer is not run again. *)
Theorem getCachedOrCompute_computes_once (key : string) (fn : M CacheVal)
    (ttl : Z) (w w' : World) (v : CacheVal) :
  0 <= ttl ->
  fst (getCached key w) = CUndefined ->
  fn (snd (getCached key w)) = (Return v, w') ->
  let w1 := snd (setCached key v ttl w') in
  getCachedOrCompute key fn ttl w = (Return v, w1)
  /\ (0 < ttl ->
      cache w1 !! key
      = Some {| value := if decide (v = CUndefined) then CNull else v;
                expiresAt := clock w' + ttl * 1000 |})
  /\ forall (g : M CacheVal) (ttl' : Z),
       getCachedOrCompute key g ttl' w1
       = (Return (if decide (v = CUndefined) then CNull else v),
          log (EvCacheGet key true) w1).
Proof.
  intros Httl Hmiss Hfn w1. split; [|split].
  - by rewrite getCachedOrCompute_miss, Hfn.
  - intros _. destruct (setCached_entry key v ttl w') as (He & _).
    fold w1 in He. rewrite He. by destruct v.
  - intros g ttl'. unfold w1.
    rewrite (getCachedOrCompute_after_set key g ttl ttl' w' v Httl).
    by destruct v.
Qed.

(** A producer that yields [undefined], on an empty cache: it is run by the
    first call and not by the second, which returns [null]. *)
Lemma getCachedOrCompute_computes_once_witness :
  let first := getCachedOrCompute "k" producer_undefined 60 world0 in
  let second := getCachedOrCompute "k" producer_undefined 60 (snd first) in
  fst first = Return CUndefined
  /\ fst second = Return CNull
  /\ calls "producer" (snd first) = 1%nat
  /\ calls "producer" (snd second) = 1%nat.
Proof.
  destruct (getCachedOrCompute_computes_once "k" producer_undefined 60 world0
              (log (EvCall "producer") (log (EvCacheGet "k" false) world0))
              CUndefined) as (Hfirst & _ & Hsecond);
    [lia | reflexivity | reflexivity |].
  cbv zeta. rewrite Hfirst. cbn [fst snd]. rewrite Hsecond.
  repeat split.
Defined.

Lemma calls_getCached (op key : string) (w : World) :
  calls op (snd (getCached key w)) = calls op w.
Proof.
  destruct (getCached_frame key w) as (_ & Htr & _).
  unfold calls. rewrite Htr, occurrences_app. simpl.
  destruct (decide (EvCacheGet key (defined (fst (getCached key w))) = EvCall op));
    [discriminate | lia].
Qed.

Lemma calls_setCached (op key : string) (v : CacheVal) (ttl : Z) (w : World) :
  calls op (snd (setCached key v ttl w)) = calls op w.
Proof.
  unfold calls. simpl. rewrite occurrences_app. simpl.
  destruct (decide (EvCacheSet key = EvCall op)); [discriminate | lia].
Qed.

(** With a counted producer: two calls in succession run it once. *)
Lemma getCachedOrCompute_scripted_once (key op : string)
    (script : nat -> Outcome CacheVal) (ttl : Z) (w : World) (v : CacheVal) :
  0 <= ttl ->
  fst (getCached key w) = CUndefined ->
  script (calls op w) = Return v ->
  let first := getCachedOrCompute key (scripted op script) ttl w in
  let second := getCachedOrCompute key (scripted op script) ttl (snd first) in
  fst first = Return v /\ fst second = Return (unwrap v)
  /\ calls op (snd first) = S (calls op w)
  /\ calls op (snd second) = S (calls op w).
Proof.
  intros Httl Hmiss Hs first second.
  assert (H1 : getCachedOrCompute key (scripted op script) ttl w
               = (Return v,
                  snd (setCached key v ttl
                         (log (EvCall op) (snd (getCached key w)))))).
  { rewrite getCachedOrCompute_miss by done.
    unfold scripted, invoke. by rewrite calls_getCached, Hs. }
  pose proof (getCachedOrCompute_after_set key (scripted op script) ttl ttl
                (log (EvCall op) (snd (getCached key w))) v Httl) as H2.
  cbv zeta in H2.
  assert (Hc1 : calls op (snd first) = S (calls op w)).
  { unfold first. rewrite H1. cbn [snd].
    by rewrite calls_setCached, calls_log_call, calls_getCached. }
  unfold second. unfold first in *. rewrite H1 in *. cbn [fst snd] in *.
  rewrite H2. cbn [fst snd]. repeat split; try done.
  rewrite calls_log_other; [done | discriminate].
Qed.

(** C7, as stated: the failing call reclaims the expired entry it found, so
    the key set does change. *)
Lemma getCachedOrCompute_failure_drops_stale_key :
  let run := getCachedOrCompute "k" producer_failing 60 world_stale in
  fst (getCached "k" world_stale) = CUndefined
  /\ fst run = Throw (JsError "unavailable")
  /\ dom (cache world_stale) = {["k"]}
  /\ dom (cache (snd run)) = (∅ : gset string).
Proof. vm_compute. done. Qed.

(** C7 (amended).  For every key and every producer that fails on a miss:
    [getCachedOrCompute] propagates the producer's error and the world it
    returns is the one the producer left: it performs no write.  When the
    producer leaves the cache alone, a lookup of the key still reports
    absent afterwards, every other key keeps its entry, no key is added, and
    the cache is unchanged, unless the lookup reclaimed an expired entry
    held under that key. *)
Theorem getCachedOrCompute_failure_writes_nothing (key : string)
    (fn : M CacheVal) (ttl : Z) (w w' : World) (e : Thrown) :
  fst (getCached key w) = CUndefined ->
  fn (snd (getCached key w)) = (Throw e, w') ->
  getCachedOrCompute key fn ttl w = (Throw e, w')
  /\ (cache w' = cache (snd (getCached key w)) ->
      fst (getCached key w') = CUndefined
      /\ (forall k, k <> key -> cache w' !! k = cache w !! k)
      /\ dom (cache w') ⊆ dom (cache w)
      /\ (cache w' = cache w
          \/ (exists old, cache w !! key = Some old /\ expiresAt old < clock w)
             /\ cache w' = delete key (cache w))).
Proof.
  intros Hmiss Hfn. split.
  - by rewrite getCachedOrCompute_miss, Hfn.
  - intros Hsame.
    assert (Hcases :
      (cache w' = cache w
       /\ (cache w !! key = None
           \/ exists old, cache w !! key = Some old /\ value old = CUndefined))
      \/ ((exists old, cache w !! key = Some old /\ expiresAt old < clock w)
          /\ cache w' = delete key (cache w))).
    { unfold getCached, NodeCache_get in Hmiss, Hsame.
      destruct (cache w !! key) as [old|] eqn:Hold.
      - destruct (expiresAt old <? clock w) eqn:Hexp; simpl in *.
        + right. apply Z.ltb_lt in Hexp. eauto.
        + left. eauto.
      - simpl in *. left. eauto. }
    assert (Habsent : fst (getCached key w') = CUndefined).
    { unfold getCached, NodeCache_get.
      destruct Hcases as [[Hc Hk]|[_ Hc]]; rewrite Hc.
      - destruct Hk as [Hk|(old & Hk & Hv)]; rewrite Hk; [done|].
        by destruct (expiresAt old <? clock w').
      - by rewrite lookup_delete_eq. }
    split; [done|]. destruct Hcases as [[Hc _]|[Hold Hc]]; rewrite Hc.
    + repeat split; try done. by left.
    + repeat split.
      * intros k Hk. by rewrite lookup_delete_ne.
      * rewrite dom_delete_L. intros k Hk.
        apply elem_of_difference in Hk. tauto.
      * by right.
Qed.

(** A failing producer, on an empty cache. *)
Lemma getCachedOrCompute_failure_writes_nothing_witness :
  getCachedOrCompute "k" producer_failing 60 world0
  = (Throw (JsError "unavailable"),
     log (EvCall "producer") (log (EvCacheGet "k" false) world0)).
Proof.
  apply (getCachedOrCompute_failure_writes_nothing "k" producer_failing 60
           world0 (log (EvCall "producer") (log (EvCacheGet "k" false) world0))
           (JsError "unavailable"));
    reflexivity.
Defined.

(** ** Relations between worlds that the pipeline preserves *)

Section Preserved.
Variable R : World -> World -> Prop.
Hypothesis R_refl : forall w, R w w.
Hypothesis R_trans : forall w1 w2 w3, R w1 w2 -> R w2 w3 -> R w1 w3.
Hypothesis R_delay : forall ms w, R w (delay ms w).

Lemma retry_loop_preserves {A} (fn : M A) (retries delayMs : Z) :
  (forall w, R w (snd (fn w))) ->
  forall (remaining : nat) (attempt : Z) (lastError : option Thrown) (w : World),
    R w (snd (retry_loop fn retries delayMs remaining attempt lastError w)).
Proof.
  intros Hfn remaining.
  induction remaining as [|r IH]; intros attempt lastError w; simpl.
  - apply R_refl.
  - pose proof (Hfn w) as Hw. destruct (fn w) as [[v|e] w1]; simpl in *.
    + done.
    + eapply R_trans; [exact Hw|]. eapply R_trans; [|apply IH].
      destruct (attempt <? retries); [apply R_delay | apply R_refl].
Qed.

Lemma withRetry_preserves {A} (fn : M A) (retries delayMs : Z) :
  (forall w, R w (snd (fn w))) ->
  forall w, R w (snd (withRetry fn retries delayMs w)).
Proof. intros Hfn w. by apply retry_loop_preserves. Qed.
End Preserved.

Lemma later_refl (w : World) : later w w.
Proof. unfold later. lia. Qed.

Lemma later_trans (w1 w2 w3 : World) : later w1 w2 -> later w2 w3 -> later w1 w3.
Proof. unfold later. lia. Qed.

Lemma later_log (e : Event) (w : World) : later w (log e w).
Proof. unfold later. simpl. lia. Qed.

Lemma later_elapse (ms : Z) (w : World) : later w (elapse ms w).
Proof. unfold later. simpl. lia. Qed.

Lemma later_delay (ms : Z) (w : World) : later w (delay ms w).
Proof. unfold later. simpl. lia. Qed.

Lemma later_request {A} (env : Env) (e : Event) (answer : World -> Outcome A)
    (w : World) :
  later w (snd (request env e answer w)).
Proof. unfold later. simpl. lia. Qed.

Lemma later_classify (env : Env) (post : InstagramPost) (w : World) :
  later w (snd (classify env post w)).
Proof.
  unfold classify.
  pose proof (withRetry_preserves later later_refl later_trans later_delay
                (request env (EvOpenAI (id post))
                   (openai_createChatCompletion env post))
                MAX_RETRIES RETRY_DELAY (later_request env _ _) w) as Hr.
  fold (createChatCompletion env post) in Hr.
  destruct (createChatCompletion env post w) as [[c|e] w1]; simpl in *; [done|].
  destruct (is_Error e && includes "rate limit" (message e)); [|done].
  eapply later_trans; [exact Hr | apply later_delay].
Qed.

Lemma later_analysis_producer (env : Env) (post : InstagramPost) (w : World) :
  later w (snd (analysis_producer env post w)).
Proof.
  unfold analysis_producer. pose proof (later_classify env post w) as Hc.
  by destruct (classify env post w) as [[v|e] w1].
Qed.

(** ** A cached verdict is left alone *)

Lemma analysis_key_inj (a b : string) : analysis_key a = analysis_key b -> a = b.
Proof. unfold analysis_key. intros H. injection H as H. exact H. Qed.

Lemma classifications_log_other (pid : string) (e : Event) (w : World) :
  e <> EvOpenAI pid -> classifications pid (log e w) = classifications pid w.
Proof.
  intros He. unfold classifications. rewrite trace_log, occurrences_app. simpl.
  destruct (decide (e = EvOpenAI pid)); [done | lia].
Qed.

Lemma classifications_step (pid : string) (ev : Event) (w w' : World) :
  trace w' = trace w ++ [ev] -> ev <> EvOpenAI pid ->
  classifications pid w' = classifications pid w.
Proof.
  intros Ht Hev. unfold classifications. rewrite Ht, occurrences_app. simpl.
  destruct (decide (ev = EvOpenAI pid)); [done | lia].
Qed.

Section Undisturbed.
Variables (pid : string) (e : CacheEntry).
Hypothesis e_defined : defined (value e) = true.

Lemma undisturbed_refl (w : World) : undisturbed pid e w w.
Proof. split; [apply later_refl | done]. Qed.

Lemma undisturbed_trans (w1 w2 w3 : World) :
  undisturbed pid e w1 w2 -> undisturbed pid e w2 w3 -> undisturbed pid e w1 w3.
Proof.
  intros [L12 K12] [L23 K23]. split; [by eapply later_trans|].
  intros He Hc. unfold later in *.
  destruct (K12 He) as [He2 Hn2]; [lia|].
  destruct (K23 He2 Hc) as [He3 Hn3]. split; [done | congruence].
Qed.

Lemma undisturbed_log (ev : Event) (w : World) :
  ev <> EvOpenAI pid -> undisturbed pid e w (log ev w).
Proof.
  intros Hev. split; [apply later_log|]. intros He _.
  split; [done | by apply classifications_log_other].
Qed.

Lemma undisturbed_elapse (ms : Z) (w : World) : undisturbed pid e w (elapse ms w).
Proof. split; [apply later_elapse | done]. Qed.

Lemma undisturbed_delay (ms : Z) (w : World) : undisturbed pid e w (delay ms w).
Proof.
  unfold delay. eapply undisturbed_trans;
    [apply undisturbed_elapse | by apply undisturbed_log].
Qed.

Lemma undisturbed_request {A} (env : Env) (ev : Event)
    (answer : World -> Outcome A) (w : World) :
  ev <> EvOpenAI pid -> undisturbed pid e w (snd (request env ev answer w)).
Proof.
  intros Hev. simpl. eapply undisturbed_trans;
    [by apply undisturbed_log | apply undisturbed_elapse].
Qed.

Lemma undisturbed_getCached (key : string) (w : World) :
  undisturbed pid e w (snd (getCached key w)).
Proof.
  destruct (getCached_frame key w) as (Hc & Ht & _ & Hcache).
  split; [unfold later; lia|]. intros He Hlive. split.
  - destruct Hcache as [->|((old & Hold & Hexp) & _ & ->)]; [done|].
    destruct (decide (key = analysis_key pid)) as [->|Hne].
    + rewrite He in Hold. injection Hold as <-. lia.
    + by rewrite lookup_delete_ne.
  - by apply (classifications_step pid _ w _ Ht).
Qed.

Lemma undisturbed_setCached (key : string) (v : CacheVal) (ttl : Z) (w : World) :
  key <> analysis_key pid -> undisturbed pid e w (snd (setCached key v ttl w)).
Proof.
  intros Hne. split; [unfold later; simpl; lia|]. intros He _. split.
  - simpl. by rewrite lookup_insert_ne.
  - by apply (classifications_step pid (EvCacheSet key)).
Qed.

(** A live verdict is found by the lookup. *)
Lemma getCached_verdict (w : World) :
  cache w !! analysis_key pid = Some e -> clock w <= expiresAt e ->
  defined (fst (getCached (analysis_key pid) w)) = true.
Proof. intros He Hlive. by rewrite (getCached_live _ e w He Hlive). Qed.

Lemma undisturbed_getCachedOrCompute (key : string) (fn : M CacheVal)
    (ttl : Z) :
  (forall w, later w (snd (fn w))) ->
  (key <> analysis_key pid -> forall w, undisturbed pid e w (snd (fn w))) ->
  forall w, undisturbed pid e w (snd (getCachedOrCompute key fn ttl w)).
Proof.
  intros Hlater Hfn w.
  destruct (defined (fst (getCached key w))) eqn:Hdef.
  { rewrite getCachedOrCompute_hit by done. apply undisturbed_getCached. }
  assert (Hmiss : fst (getCached key w) = CUndefined).
  { by destruct (fst (getCached key w)). }
  rewrite getCachedOrCompute_miss by done.
  pose proof (undisturbed_getCached key w) as [Lg Kg].
  set (w1 := snd (getCached key w)) in *.
  pose proof (Hlater w1) as Lf.
  destruct (decide (key = analysis_key pid)) as [->|Hne].
  - (* the verdict's own key: a miss means there is no live verdict *)
    split.
    + destruct (fn w1) as [[v|err] w2]; cbn [fst snd] in *;
        [|by eapply later_trans].
      eapply later_trans; [exact Lg|]. eapply later_trans; [exact Lf|].
      unfold later. simpl. lia.
    + intros He Hc. exfalso.
      assert (Hnow : clock w <= expiresAt e).
      { assert (later w1 (snd (match fn w1 with
                                | (Return v, w2) => (Return v, snd (setCached (analysis_key pid) v ttl w2))
                                | (Throw err, w2) => (Throw err, w2)
                                end))) as Lr.
        { destruct (fn w1) as [[v|err] w2]; cbn [fst snd] in *; [|done].
          eapply later_trans; [exact Lf|]. unfold later. simpl. lia. }
        unfold later in *. lia. }
      pose proof (getCached_verdict w He Hnow) as Hhit. congruence.
  - pose proof (Hfn Hne w1) as Uf.
    eapply undisturbed_trans; [split; [exact Lg | exact Kg]|].
    destruct (fn w1) as [[v|err] w2]; simpl in *; [|done].
    eapply undisturbed_trans; [exact Uf|].
    by apply (undisturbed_setCached key v ttl w2).
Qed.
End Undisturbed.

Section UndisturbedPipeline.
Variables (env : Env) (pid : string) (e : CacheEntry).
Hypothesis e_defined : defined (value e) = true.

Local Abbreviation U := (undisturbed pid e).

Lemma undisturbed_classify (post : InstagramPost) (w : World) :
  id post <> pid -> U w (snd (classify env post w)).
Proof.
  intros Hne. unfold classify.
  assert (Hr : U w (snd (createChatCompletion env post w))).
  { apply (withRetry_preserves U (undisturbed_refl pid e)
             (undisturbed_trans pid e) (undisturbed_delay pid e)).
    intros w0. apply undisturbed_request. congruence. }
  destruct (createChatCompletion env post w) as [[c|err] w1]; simpl in *; [done|].
  destruct (is_Error err && includes "rate limit" (message err)); [|done].
  eapply undisturbed_trans; [exact Hr | apply undisturbed_delay].
Qed.

Lemma undisturbed_analysis_producer (post : InstagramPost) (w : World) :
  id post <> pid -> U w (snd (analysis_producer env post w)).
Proof.
  intros Hne. unfold analysis_producer.
  pose proof (undisturbed_classify post w Hne) as Hc.
  by destruct (classify env post w) as [[v|err] w1].
Qed.

Lemma undisturbed_analyzePostWithOpenAI (post : InstagramPost) (w : World) :
  U w (snd (analyzePostWithOpenAI env post w)).
Proof.
  unfold analyzePostWithOpenAI.
  apply undisturbed_getCachedOrCompute; [done | |].
  - intros w0. apply later_analysis_producer.
  - intros Hne w0. apply undisturbed_analysis_producer.
    intros Heq. apply Hne. by rewrite Heq.
Qed.

Lemma undisturbed_storeEventInSupabase (eventPost : EventPost) (w : World) :
  U w (snd (storeEventInSupabase env eventPost w)).
Proof.
  unfold storeEventInSupabase. destruct (supabase_fails env w); simpl.
  - eapply undisturbed_trans; [|apply undisturbed_elapse].
    by apply (undisturbed_log pid e (EvUpsert (post_id eventPost) false)).
  - eapply undisturbed_trans; [|apply undisturbed_elapse].
    eapply undisturbed_trans;
      [|by apply (undisturbed_log pid e (EvUpsert (post_id eventPost) true))].
    split; [unfold later; simpl; lia | done].
Qed.

Lemma undisturbed_select_existing (p : string) (w : World) :
  U w (snd (select_existing env p w)).
Proof.
  unfold select_existing. simpl.
  eapply undisturbed_trans; [|apply undisturbed_elapse].
  by apply undisturbed_log.
Qed.

Lemma undisturbed_handle_verdict (username : string) (post : InstagramPost)
    (analysis : Analysis) (rs : RunState) (w : World) :
  U w (snd (handle_verdict env username post analysis rs w)).
Proof.
  unfold handle_verdict.
  destruct (isEvent analysis && (MIN_CONFIDENCE_THRESHOLD <=? confidenceScore analysis));
    [|apply undisturbed_refl].
  destruct (postDate post (clock w)) as [date|err]; [|apply undisturbed_refl].
  pose proof (undisturbed_storeEventInSupabase
                (eventPost_of username post analysis date) w) as Hs.
  destruct (storeEventInSupabase env _ w) as [[|] w1]; done.
Qed.

Lemma undisturbed_finish_post (username : string) (post : InstagramPost)
    (cachedAnalysis v : CacheVal) (rs : RunState) (w : World) :
  U w (snd (finish_post env username post cachedAnalysis v rs w)).
Proof.
  unfold finish_post. destruct (read_analysis v) as [analysis|err].
  - pose proof (undisturbed_handle_verdict username post analysis
                  (count_hit (truthy cachedAnalysis) rs) w) as Hh.
    destruct (handle_verdict env username post analysis _ w) as [[o rs3] w4].
    simpl in *. eapply undisturbed_trans; [exact Hh | apply undisturbed_delay].
  - apply undisturbed_delay.
Qed.

Lemma undisturbed_process_post (username : string) (post : InstagramPost)
    (rs : RunState) (w : World) :
  U w (snd (process_post env username post rs w)).
Proof.
  unfold process_post.
  set (w0 := log (EvSessionCheck (id post) _) w).
  assert (H0 : U w w0) by (apply undisturbed_log; discriminate).
  destruct (bool_decide (id post ∈ analyzedPostIds rs)); [done|].
  pose proof (undisturbed_select_existing (id post) w0) as H1.
  destruct (select_existing env (id post) w0) as [existingPost w1].
  simpl in H1. assert (H01 : U w w1) by by eapply undisturbed_trans.
  destruct existingPost; [done|].
  pose proof (undisturbed_getCached pid e (analysis_key (id post)) w1) as H2.
  destruct (getCached (analysis_key (id post)) w1) as [cachedAnalysis w2].
  simpl in H2. assert (H02 : U w w2) by by eapply undisturbed_trans.
  pose proof (undisturbed_analyzePostWithOpenAI post w2) as H3.
  destruct (analyzePostWithOpenAI env post w2) as [[v|err] w3]; simpl in H3.
  - eapply undisturbed_trans; [exact H02|].
    eapply undisturbed_trans; [exact H3|]. apply undisturbed_finish_post.
  - simpl. eapply undisturbed_trans; [exact H02|].
    eapply undisturbed_trans; [exact H3 | apply undisturbed_delay].
Qed.

Lemma undisturbed_process_posts (username : string) (ps : list InstagramPost)
    (rs : RunState) (w : World) :
  U w (snd (process_posts env username ps rs w)).
Proof.
  revert rs w. induction ps as [|post ps IH]; intros rs w; simpl.
  - apply undisturbed_refl.
  - pose proof (undisturbed_process_post username post rs w) as Hp.
    destruct (process_post env username post rs w) as [rs1 w1].
    eapply undisturbed_trans; [exact Hp | apply IH].
Qed.

Lemma undisturbed_process_account (ppa : Z) (username : string)
    (rs : RunState) (w : World) :
  U w (snd (process_account env ppa username rs w)).
Proof.
  unfold process_account.
  set (w1 := delay _ w).
  assert (H1 : U w w1) by apply undisturbed_delay.
  assert (H2 : U w1 (snd (withRetry
              (request env (EvGetPosts username) (scraper_getPosts env username ppa))
              MAX_RETRIES RETRY_DELAY w1))).
  { apply (withRetry_preserves U (undisturbed_refl pid e)
             (undisturbed_trans pid e) (undisturbed_delay pid e)).
    intros w0. by apply undisturbed_request. }
  destruct (withRetry _ MAX_RETRIES RETRY_DELAY w1) as [[results|err] w2];
    simpl in H2; [|by eapply undisturbed_trans].
  assert (H12 : U w w2) by by eapply undisturbed_trans.
  destruct (if success results then posts results else None) as [[|p ps]|];
    [done | | done].
  eapply undisturbed_trans; [exact H12 | apply undisturbed_process_posts].
Qed.

Lemma undisturbed_process_accounts (ppa : Z) (accts : list string)
    (rs : RunState) (w : World) :
  U w (snd (process_accounts env ppa accts rs w)).
Proof.
  revert rs w. induction accts as [|a accts IH]; intros rs w; simpl.
  - apply undisturbed_refl.
  - pose proof (undisturbed_process_account ppa a rs w) as Hp.
    destruct (process_account env ppa a rs w) as [rs1 w1].
    eapply undisturbed_trans; [exact Hp | apply IH].
Qed.

Lemma undisturbed_scrapeAndDetectEvents (accts : list string) (ppa : Z)
    (w : World) :
  U w (snd (scrapeAndDetectEvents env accts ppa w)).
Proof.
  unfold scrapeAndDetectEvents.
  pose proof (undisturbed_process_accounts ppa accts initial_run w) as Hp.
  by destruct (process_accounts env ppa accts initial_run w).
Qed.

Lemma undisturbed_pipeline_runs (runs : list Run) (w : World) :
  U w (pipeline_runs env runs w).
Proof.
  revert w. induction runs as [|r runs IH]; intros w; simpl.
  - apply undisturbed_refl.
  - eapply undisturbed_trans; [apply (undisturbed_elapse pid e (gap r))|].
    eapply undisturbed_trans; [apply undisturbed_scrapeAndDetectEvents | apply IH].
Qed.

Lemma undisturbed_rest_of_run (username : string) (ps : list InstagramPost)
    (ppa : Z) (accts : list string) (rs : RunState) (w : World) :
  U w (snd (rest_of_run env username ps ppa accts rs w)).
Proof.
  unfold rest_of_run.
  pose proof (undisturbed_process_posts username ps rs w) as Hp.
  destruct (process_posts env username ps rs w) as [rs1 w1].
  eapply undisturbed_trans; [exact Hp | apply undisturbed_process_accounts].
Qed.
End UndisturbedPipeline.

(** ** Analysing a post *)

Lemma analysis_producer_returns (env : Env) (post : InstagramPost) (w : World) :
  exists a w', analysis_producer env post w = (Return (CAnalysis a), w').
Proof.
  unfold analysis_producer, classify.
  destruct (createChatCompletion env post w) as [[c|err] w1]; eauto.
Qed.

(** After the analysis of a post the cache holds its verdict, live; when the
    analysis was not answered from the cache, the verdict expires
    [OPENAI_ANALYSIS_CACHE_TTL] seconds later. *)
Lemma analyzePostWithOpenAI_caches (env : Env) (post : InstagramPost)
    (w : World) :
  let r := analyzePostWithOpenAI env post w in
  exists e,
    fst r = Return (value e)
    /\ cache (snd r) !! analysis_key (id post) = Some e
    /\ defined (value e) = true
    /\ clock (snd r) <= expiresAt e
    /\ (fst (getCached (analysis_key (id post)) w) = CUndefined ->
        expiresAt e = clock (snd r) + OPENAI_ANALYSIS_CACHE_TTL * 1000).
Proof.
  unfold analyzePostWithOpenAI. set (key := analysis_key (id post)).
  destruct (defined (fst (getCached key w))) eqn:Hdef.
  - rewrite getCachedOrCompute_hit by done. simpl.
    unfold getCached, NodeCache_get in *.
    destruct (cache w !! key) as [e0|] eqn:He; [|done].
    destruct (expiresAt e0 <? clock w) eqn:Hexp; [done|]. simpl in *.
    apply Z.ltb_ge in Hexp. exists e0. repeat split; try done.
    intros Hv. rewrite Hv in Hdef. done.
  - assert (Hmiss : fst (getCached key w) = CUndefined).
    { by destruct (fst (getCached key w)). }
    rewrite getCachedOrCompute_miss by done.
    destruct (analysis_producer_returns env post (snd (getCached key w)))
      as (a & w2 & ->).
    exists {| value := CAnalysis a;
              expiresAt := clock w2 + OPENAI_ANALYSIS_CACHE_TTL * 1000 |}.
    simpl. rewrite lookup_insert_eq. repeat split; try done.
    unfold OPENAI_ANALYSIS_CACHE_TTL. lia.
Qed.

(** C1, as stated: the verdict of a post is computed again once its cache
    entry has expired. *)
Lemma classified_again_after_expiry :
  classifications "p1" (pipeline_runs env_steady [run_now] world0) = 1%nat
  /\ classifications "p1"
       (pipeline_runs env_steady [run_now; run_next_week] world0) = 2%nat.
Proof. vm_compute. done. Qed.

(** C1 (amended).  Once a post has been classified (its analysis was not
    answered from the cache and resolved at world [w]), no later step calls
    the classification service for its id, neither in what is left of that
    run (the rest of the iteration, the other posts, the other accounts) nor
    in any later run of the process, as long as the clock has not passed the
    expiry of the cached verdict, [OPENAI_ANALYSIS_CACHE_TTL] seconds (seven
    days) after [w]. *)
Theorem classified_once_while_cached (env : Env) (post : InstagramPost)
    (username : string) (cachedAnalysis v : CacheVal) (rs : RunState)
    (ps : list InstagramPost) (ppa : Z) (accts : list string)
    (runs : list Run) (w0 w : World) :
  fst (getCached (analysis_key (id post)) w0) = CUndefined ->
  analyzePostWithOpenAI env post w0 = (Return v, w) ->
  let after_post := finish_post env username post cachedAnalysis v rs w in
  let after_run :=
    rest_of_run env username ps ppa accts (fst after_post) (snd after_post) in
  let final := pipeline_runs env runs (snd after_run) in
  clock final <= clock w + OPENAI_ANALYSIS_CACHE_TTL * 1000 ->
  classifications (id post) final = classifications (id post) w.
Proof.
  intros Hmiss Hrun after_post after_run final Hclock.
  destruct (analyzePostWithOpenAI_caches env post w0)
    as (e & _ & He & Hdef & _ & Hexp).
  rewrite Hrun in He, Hexp. simpl in He, Hexp. specialize (Hexp Hmiss).
  assert (U : undisturbed (id post) e w final).
  { eapply undisturbed_trans;
      [apply (undisturbed_finish_post env (id post) e username post
                cachedAnalysis v rs w)|].
    eapply undisturbed_trans;
      [apply (undisturbed_rest_of_run env (id post) e Hdef username ps ppa accts
                (fst after_post) (snd after_post))|].
    apply (undisturbed_pipeline_runs env (id post) e Hdef). }
  destruct U as [_ K]. apply K; [done | lia].
Qed.

(** A post classified at time 0, then the rest of the run and two runs at
    intervals of two hours. *)
Lemma classified_once_while_cached_witness :
  let w := snd (analyzePostWithOpenAI env_steady post_p1 world0) in
  classifications "p1"
    (pipeline_runs env_steady [run_two_hours_later; run_two_hours_later]
       (snd (rest_of_run env_steady "alice" [post_p1] 5 ["alice"]
               (fst (finish_post env_steady "alice" post_p1 CUndefined
                       (CAnalysis not_an_event) initial_run w))
               (snd (finish_post env_steady "alice" post_p1 CUndefined
                       (CAnalysis not_an_event) initial_run w)))))
  = classifications "p1" w.
Proof.
  apply (classified_once_while_cached env_steady post_p1 "alice" CUndefined
           (CAnalysis not_an_event) initial_run [post_p1] 5 ["alice"]
           [run_two_hours_later; run_two_hours_later] world0
           (snd (analyzePostWithOpenAI env_steady post_p1 world0)));
    [reflexivity | reflexivity | vm_compute; discriminate].
Defined.

(** ** Traces only grow *)

Lemma extends_refl (w : World) : extends w w.
Proof. exists []. by rewrite app_nil_r. Qed.

Lemma extends_trans (w1 w2 w3 : World) :
  extends w1 w2 -> extends w2 w3 -> extends w1 w3.
Proof.
  intros [l1 H1] [l2 H2]. exists (l1 ++ l2). by rewrite H2, H1, app_assoc.
Qed.

Lemma extends_step (w w' : World) (l : list Event) :
  trace w' = trace w ++ l -> extends w w'.
Proof. intros H. by exists l. Qed.

Lemma extends_delay (ms : Z) (w : World) : extends w (delay ms w).
Proof. by apply (extends_step _ _ [EvDelay ms]). Qed.

Lemma extends_request {A} (env : Env) (e : Event) (answer : World -> Outcome A)
    (w : World) :
  extends w (snd (request env e answer w)).
Proof. by apply (extends_step _ _ [e]). Qed.

Lemma steps_between_app (w w' : World) (l : list Event) :
  trace w' = trace w ++ l -> steps_between w w' = l.
Proof. intros H. unfold steps_between. rewrite H. apply drop_app_length. Qed.

Lemma extends_analysis_producer (env : Env) (post : InstagramPost) (w : World) :
  extends w (snd (analysis_producer env post w)).
Proof.
  unfold analysis_producer, classify.
  pose proof (withRetry_preserves extends extends_refl extends_trans extends_delay
                (request env (EvOpenAI (id post))
                   (openai_createChatCompletion env post))
                MAX_RETRIES RETRY_DELAY (extends_request env _ _) w) as Hr.
  fold (createChatCompletion env post) in Hr.
  destruct (createChatCompletion env post w) as [[c|e] w1]; simpl in *; [done|].
  destruct (is_Error e && includes "rate limit" (message e)); [|done].
  eapply extends_trans; [exact Hr | apply extends_delay].
Qed.

(** With an attempt left, the first step of the loop is the operation. *)
Lemma retry_loop_first_step {A} (fn : M A) (ev : Event) (retries delayMs : Z)
    (r : nat) (attempt : Z) (lastError : option Thrown) (w : World) :
  (forall w0, trace (snd (fn w0)) = trace w0 ++ [ev]) ->
  exists steps,
    trace (snd (retry_loop fn retries delayMs (S r) attempt lastError w))
    = trace w ++ ev :: steps.
Proof.
  intros Hfn. simpl. pose proof (Hfn w) as H1.
  assert (Hext : forall w0, extends w0 (snd (fn w0))).
  { intros w0. exists [ev]. apply Hfn. }
  destruct (fn w) as [[v|err] w1]; simpl in H1.
  - by exists [].
  - match goal with
    | |- context [retry_loop fn retries delayMs r ?a ?l ?w2] =>
        destruct (retry_loop_preserves extends extends_refl extends_trans
                    extends_delay fn retries delayMs Hext r a l w2) as [l2 Hl2];
        assert (Hw2 : extends w1 w2)
          by (destruct (attempt <? retries);
              [apply extends_delay | apply extends_refl])
    end.
    destruct Hw2 as [l1 Hl1]. exists (l1 ++ l2).
    rewrite Hl2, Hl1, H1. by rewrite <- !app_assoc.
Qed.

(** The producer starts with a call to the classification service. *)
Lemma analysis_producer_calls (env : Env) (post : InstagramPost) (w : World) :
  exists steps,
    trace (snd (analysis_producer env post w))
    = trace w ++ EvOpenAI (id post) :: steps.
Proof.
  assert (Hc : exists steps,
             trace (snd (createChatCompletion env post w))
             = trace w ++ EvOpenAI (id post) :: steps).
  { unfold createChatCompletion, withRetry.
    change (Z.to_nat MAX_RETRIES) with 3%nat.
    by apply retry_loop_first_step. }
  destruct Hc as [l Hl]. unfold analysis_producer, classify.
  destruct (createChatCompletion env post w) as [[c|err] w1]; simpl in *;
    [by exists l|].
  destruct (is_Error err && includes "rate limit" (message err)); [|by exists l].
  exists (l ++ [EvDelay 15000]). simpl. rewrite Hl. by rewrite <- app_assoc.
Qed.

(** ** No verdict from the service: the fallback is cached (C9) *)

Lemma interpret_unusable (env : Env) (c : Completion) :
  Unusable env (Return c) -> interpret env c = fallback.
Proof.
  intros H. inversion H as [| ? Hc | ? Hc | ? ? ? Hc Hm | ? ? ? ? Hc Hm Hp];
    subst; unfold interpret; rewrite Hc; try done.
  - by rewrite Hm.
  - by rewrite Hm, Hp.
Qed.

Lemma analysis_producer_unusable (env : Env) (post : InstagramPost) (w : World) :
  Unusable env (fst (createChatCompletion env post w)) ->
  fst (analysis_producer env post w) = Return (CAnalysis fallback).
Proof.
  intros H. unfold analysis_producer, classify.
  destruct (createChatCompletion env post w) as [[c|e] w1]; simpl in *; [|done].
  by rewrite (interpret_unusable env c H).
Qed.

(** When every call to the service fails, so does the wrapped call. *)
Lemma retry_loop_all_fail {A} (fn : M A) (retries delayMs : Z) :
  (forall w, is_throw (fst (fn w)) = true) ->
  forall (remaining : nat) (attempt : Z) (lastError : option Thrown) (w : World),
    is_throw (fst (retry_loop fn retries delayMs remaining attempt lastError w))
    = true.
Proof.
  intros Hfn remaining.
  induction remaining as [|r IH]; intros attempt lastError w; simpl; [done|].
  pose proof (Hfn w) as Hw. destruct (fn w) as [[v|e] w1]; simpl in *; [done|].
  apply IH.
Qed.

Lemma createChatCompletion_all_fail (env : Env) (post : InstagramPost) (w : World) :
  (forall w', is_throw (openai_createChatCompletion env post w') = true) ->
  Unusable env (fst (createChatCompletion env post w)).
Proof.
  intros Hfail.
  pose proof (retry_loop_all_fail
                (request env (EvOpenAI (id post))
                   (openai_createChatCompletion env post))
                MAX_RETRIES RETRY_DELAY Hfail (Z.to_nat MAX_RETRIES) 1 None w) as H.
  fold (withRetry (request env (EvOpenAI (id post))
                     (openai_createChatCompletion env post))
          MAX_RETRIES RETRY_DELAY w) in H.
  fold (createChatCompletion env post w) in H.
  destruct (fst (createChatCompletion env post w)); [done | constructor].
Qed.

(** C9.  When the analysis of a post is not answered from the cache and the
    wrapped call to the classification service yields no verdict (every
    attempt fails, or the response has no choices, or its text holds no
    JSON object that parses), [analyzePostWithOpenAI] does not throw: it
    returns the fallback verdict, which is stored under
    [post_analysis:{post.id}] with a TTL of seven days; and as long as that
    entry is there and has not expired, analysing the post again returns
    the fallback with no step but the cache lookup. *)
Theorem analyzePostWithOpenAI_caches_fallback (env : Env) (post : InstagramPost)
    (w : World) :
  let key := "post_analysis:" +:+ id post in
  fst (getCached key w) = CUndefined ->
  Unusable env (fst (createChatCompletion env post (snd (getCached key w))))
  \/ (forall w', is_throw (openai_createChatCompletion env post w') = true) ->
  exists w2,
    analyzePostWithOpenAI env post w = (Return (CAnalysis fallback), w2)
    /\ cache w2 !! key
       = Some {| value := CAnalysis fallback;
                 expiresAt := clock w2 + 7 * 24 * 60 * 60 * 1000 |}
    /\ forall w3,
         cache w3 !! key = cache w2 !! key ->
         clock w3 <= clock w2 + 7 * 24 * 60 * 60 * 1000 ->
         fst (analyzePostWithOpenAI env post w3) = Return (CAnalysis fallback)
         /\ steps_between w3 (snd (analyzePostWithOpenAI env post w3))
            = [EvCacheGet key true].
Proof.
  intros key.
  assert (Hkey : key = analysis_key (id post)) by reflexivity.
  clearbody key. subst key. set (key := analysis_key (id post)).
  intros Hmiss Hun.
  assert (Hu : Unusable env
                 (fst (createChatCompletion env post (snd (getCached key w))))).
  { destruct Hun as [H|H]; [done | by apply createChatCompletion_all_fail]. }
  pose proof (analysis_producer_unusable env post _ Hu) as Hp.
  unfold analyzePostWithOpenAI. fold key.
  rewrite getCachedOrCompute_miss by done.
  destruct (analysis_producer env post (snd (getCached key w))) as [r w1].
  simpl in Hp. subst r.
  exists (snd (setCached key (CAnalysis fallback) OPENAI_ANALYSIS_CACHE_TTL w1)).
  destruct (setCached_entry key (CAnalysis fallback) OPENAI_ANALYSIS_CACHE_TTL w1)
    as (He & Hc & _).
  split; [done|]. split.
  - rewrite He, Hc. reflexivity.
  - intros w3 Hk Hlive. rewrite He in Hk.
    assert (Hget : getCached key w3
                   = (CAnalysis fallback, log (EvCacheGet key true) w3)).
    { apply (getCached_live key _ w3 Hk). simpl. rewrite Hc in Hlive.
      unfold OPENAI_ANALYSIS_CACHE_TTL. lia. }
    rewrite getCachedOrCompute_hit; rewrite Hget; [|done]. simpl.
    split; [done|]. by apply steps_between_app.
Qed.

(** A classification service that is down. *)
Lemma analyzePostWithOpenAI_caches_fallback_witness :
  exists w2,
    analyzePostWithOpenAI env_down post_p1 world0
    = (Return (CAnalysis fallback), w2)
    /\ cache w2 !! "post_analysis:p1"
       = Some {| value := CAnalysis fallback;
                 expiresAt := clock w2 + 7 * 24 * 60 * 60 * 1000 |}.
Proof.
  destruct (analyzePostWithOpenAI_caches_fallback env_down post_p1 world0)
    as (w2 & Hrun & Hentry & _).
  - reflexivity.
  - right. intros w'. reflexivity.
  - exists w2. split; [exact Hrun | exact Hentry].
Defined.

(** ** What is done with a verdict (C5) *)

Lemma storeEventInSupabase_spec (env : Env) (eventPost : EventPost) (w : World) :
  let r := storeEventInSupabase env eventPost w in
  fst r = negb (supabase_fails env w)
  /\ trace (snd r) = trace w ++ [EvUpsert (post_id eventPost) (fst r)]
  /\ cache (snd r) = cache w
  /\ instagram_events (snd r)
     = if supabase_fails env w then instagram_events w
       else <[post_id eventPost := eventPost]> (instagram_events w).
Proof. unfold storeEventInSupabase. by destruct (supabase_fails env w). Qed.

Lemma accepted_iff (analysis : Analysis) :
  isEvent analysis && (MIN_CONFIDENCE_THRESHOLD <=? confidenceScore analysis) = true
  <-> isEvent analysis = true /\ 90 <= confidenceScore analysis.
Proof.
  rewrite andb_true_iff, Z.leb_le. unfold MIN_CONFIDENCE_THRESHOLD. tauto.
Qed.

Lemma accepted_or_not (analysis : Analysis) :
  (isEvent analysis = true /\ 90 <= confidenceScore analysis)
  \/ ~ (isEvent analysis = true /\ 90 <= confidenceScore analysis).
Proof.
  destruct (isEvent analysis); [|right; intros [H _]; discriminate].
  destruct (Z_le_gt_dec 90 (confidenceScore analysis)); [by left|].
  right. intros [_ H]. lia.
Qed.

(** The date of a post can be rendered when there is no timestamp (or 0:
    the current time is taken) or the timestamp, in milliseconds, is within
    the range of [Date]. *)
Lemma postDate_returns (post : InstagramPost) (now : Z) :
  match timestamp post with
  | Some t => t = 0 \/ - Date_MAX <= t * 1000 <= Date_MAX
  | None => True
  end ->
  exists date, postDate post now = Return date.
Proof.
  unfold postDate. destruct (timestamp post) as [t|]; [|by eauto].
  intros Hdated. destruct (t =? 0) eqn:H0; [by eauto|].
  apply Z.eqb_neq in H0. destruct Hdated as [|Hrange]; [done|].
  assert ((Z.abs (t * 1000) <=? Date_MAX) = true) as ->
    by (apply Z.leb_le; lia).
  eauto.
Qed.

Lemma postDate_throws (post : InstagramPost) (now : Z) :
  ~ match timestamp post with
    | Some t => t = 0 \/ - Date_MAX <= t * 1000 <= Date_MAX
    | None => True
    end ->
  postDate post now = Throw (JsError "Invalid time value").
Proof.
  unfold postDate. destruct (timestamp post) as [t|]; [|by intros []].
  intros Hno. destruct (t =? 0) eqn:H0.
  { apply Z.eqb_eq in H0. destruct Hno. by left. }
  assert ((Z.abs (t * 1000) <=? Date_MAX) = false) as ->; [|done].
  apply Z.leb_gt. destruct (Z_le_gt_dec (Z.abs (t * 1000)) Date_MAX); [|lia].
  destruct Hno. right. lia.
Qed.

Lemma dated_or_not (post : InstagramPost) :
  let dated :=
    match timestamp post with
    | Some t => t = 0 \/ - Date_MAX <= t * 1000 <= Date_MAX
    | None => True
    end in
  dated \/ ~ dated.
Proof.
  simpl. destruct (timestamp post) as [t|]; [|by left].
  destruct (decide (t = 0)); [by left; left|].
  destruct (Z_le_gt_dec (- Date_MAX) (t * 1000));
    [|right; intros [|]; [done | lia]].
  destruct (Z_le_gt_dec (t * 1000) Date_MAX);
    [left; right; lia | right; intros [|]; [done | lia]].
Qed.

(** C5, as stated: a verdict that passes the threshold, on a post dated
    beyond the range of [Date].  Rendering the date throws before the
    upsert, the iteration catches it, and nothing is stored or returned. *)
Lemma accepted_event_with_invalid_date_is_dropped :
  let r :=
    handle_verdict env_steady "alice" post_far verdict_95 initial_run world0 in
  let after :=
    finish_post env_steady "alice" post_far CUndefined (CAnalysis verdict_95)
      initial_run world0 in
  (isEvent verdict_95 = true /\ 90 <= confidenceScore verdict_95)
  /\ r = (Throw (JsError "Invalid time value"), count_event initial_run, world0)
  /\ steps_between world0 (snd after) = [EvDelay 500]
  /\ instagram_events (snd after) !! "far" = None
  /\ events (fst after) = [].
Proof. vm_compute. repeat split; discriminate. Qed.

(** C5 (amended).  For every verdict: the upsert into [instagram_events] is
    issued if and only if [isEvent] is true, [confidenceScore >= 90]
    ([MIN_CONFIDENCE_THRESHOLD]) and the date of the post can be rendered
    (no timestamp, or one that in milliseconds is within the range of
    [Date]); when it is issued and the store accepts it, the row is stored
    under the post's id.  For an accepted verdict on a post dated outside
    that range the event is counted and [toISOString] throws: nothing is
    stored.  For a verdict that is not accepted nothing changes and nothing
    is thrown, in particular for [isEvent] true and confidence 80.  A second
    upsert for the same [post_id] replaces the row and adds no key. *)
Theorem handle_verdict_persists (env : Env) (username : string)
    (post : InstagramPost) (analysis : Analysis) (rs : RunState) (w : World) :
  let r := handle_verdict env username post analysis rs w in
  let accepted := isEvent analysis = true /\ 90 <= confidenceScore analysis in
  let dated :=
    match timestamp post with
    | Some t => t = 0 \/ - Date_MAX <= t * 1000 <= Date_MAX
    | None => True
    end in
  ((exists stored, EvUpsert (id post) stored ∈ steps_between w (snd r))
   <-> accepted /\ dated)
  /\ (accepted -> dated ->
      exists date,
        postDate post (clock w) = Return date
        /\ fst r = (Return tt,
                    if supabase_fails env w then count_event rs
                    else push_event (eventPost_of username post analysis date)
                           (count_event rs))
        /\ steps_between w (snd r)
           = [EvUpsert (id post) (negb (supabase_fails env w))]
        /\ (supabase_fails env w = false ->
            instagram_events (snd r)
            = <[id post := eventPost_of username post analysis date]>
                (instagram_events w)))
  /\ (accepted -> ~ dated ->
      r = (Throw (JsError "Invalid time value"), count_event rs, w))
  /\ (~ accepted -> r = (Return tt, rs, w))
  /\ (isEvent analysis = true -> confidenceScore analysis = 80 ->
      r = (Return tt, rs, w))
  /\ (forall (first second : EventPost) (w0 : World),
        post_id first = post_id second ->
        let w1 := snd (storeEventInSupabase env first w0) in
        let w2 := snd (storeEventInSupabase env second w1) in
        supabase_fails env w1 = false ->
        instagram_events w2 !! post_id second = Some second
        /\ (supabase_fails env w0 = false ->
            dom (instagram_events w2) = dom (instagram_events w1))).
Proof.
  intros r accepted dated.
  assert (Hrej : ~ accepted -> r = (Return tt, rs, w)).
  { intros Hn. unfold r, handle_verdict.
    destruct (isEvent analysis && (MIN_CONFIDENCE_THRESHOLD <=? confidenceScore analysis))
      eqn:Hacc; [|done].
    apply accepted_iff in Hacc. by destruct Hn. }
  assert (Hthrow : accepted -> ~ dated ->
    r = (Throw (JsError "Invalid time value"), count_event rs, w)).
  { intros Ha Hn. apply accepted_iff in Ha. unfold r, handle_verdict.
    by rewrite Ha, (postDate_throws post (clock w) Hn). }
  assert (Hacc : accepted -> dated ->
    exists date,
      postDate post (clock w) = Return date
      /\ fst r = (Return tt,
                  if supabase_fails env w then count_event rs
                  else push_event (eventPost_of username post analysis date)
                         (count_event rs))
      /\ steps_between w (snd r)
         = [EvUpsert (id post) (negb (supabase_fails env w))]
      /\ (supabase_fails env w = false ->
          instagram_events (snd r)
          = <[id post := eventPost_of username post analysis date]>
              (instagram_events w))).
  { intros Ha Hd. apply accepted_iff in Ha.
    destruct (postDate_returns post (clock w) Hd) as [date Hdate].
    exists date. split; [done|].
    unfold r, handle_verdict. rewrite Ha, Hdate.
    destruct (storeEventInSupabase_spec env
                (eventPost_of username post analysis date) w)
      as (Hok & Ht & _ & Htab).
    destruct (storeEventInSupabase env _ w) as [stored w1]. simpl in *.
    assert (Hw1 : steps_between w w1
                  = [EvUpsert (id post) (negb (supabase_fails env w))]).
    { apply steps_between_app. by rewrite Ht, Hok. }
    subst stored.
    destruct (supabase_fails env w); simpl; (split; [done|]);
      (split; [done|]); by intros Hup. }
  split; [|split; [done|split; [done|split; [done|split]]]].
  - split.
    + intros [stored Hin].
      assert (Hnone : forall o rs0, r = (o, rs0, w) -> False).
      { intros o rs0 Hr. rewrite Hr in Hin. simpl in Hin.
        unfold steps_between in Hin. rewrite drop_all in Hin.
        by apply elem_of_nil in Hin. }
      destruct (accepted_or_not analysis) as [Ha|Hn];
        [|exfalso; by eapply Hnone, Hrej].
      destruct (dated_or_not post) as [Hd|Hn]; [done|].
      exfalso. by eapply Hnone, Hthrow.
    + intros [Ha Hd]. destruct (Hacc Ha Hd) as (date & _ & _ & Hs & _).
      rewrite Hs. eexists. apply list_elem_of_singleton. reflexivity.
  - intros He H80. apply Hrej. intros [_ H90]. lia.
  - intros first second w0 Hid w1 w2 Hup2.
    destruct (storeEventInSupabase_spec env second w1) as (_ & _ & _ & H2).
    fold w2 in H2. rewrite Hup2 in H2. split.
    + rewrite H2. apply lookup_insert_eq.
    + intros Hup1.
      destruct (storeEventInSupabase_spec env first w0) as (_ & _ & _ & H1).
      fold w1 in H1. rewrite Hup1 in H1.
      rewrite H2, H1, <- Hid, !dom_insert_L.
      apply set_eq. intros k. rewrite !elem_of_union. tauto.
Qed.

(** The scenario of the specification: confidence 95 is stored, confidence
    80 is not. *)
Example verdict_95_is_stored :
  instagram_events
    (snd (handle_verdict env_steady "alice" post_p1 verdict_95 initial_run world0))
  !! "p1"
  = Some (eventPost_of "alice" post_p1 verdict_95 1700000000000).
Proof. vm_compute. reflexivity. Qed.

Example verdict_80_is_dropped :
  handle_verdict env_steady "alice" post_p1 verdict_80 initial_run world0
  = (Return tt, initial_run, world0).
Proof. reflexivity. Qed.

(** ** The order of the deduplication layers (C2) *)

Lemma getCached_again (key : string) (w : World) :
  fst (getCached key (snd (getCached key w))) = fst (getCached key w).
Proof.
  unfold getCached, NodeCache_get.
  destruct (cache w !! key) as [e|] eqn:He; simpl.
  - destruct (expiresAt e <? clock w) eqn:Hexp; simpl.
    + by rewrite lookup_delete_eq.
    + by rewrite He, Hexp.
  - by rewrite He.
Qed.

Lemma getCached_trace (key : string) (w : World) :
  trace (snd (getCached key w))
  = trace w ++ [EvCacheGet key (defined (fst (getCached key w)))].
Proof. by destruct (getCached_frame key w) as (_ & Ht & _). Qed.

Lemma getCached_defined (key : string) (w : World) :
  defined (fst (getCached key w)) = true ->
  exists e, cache w !! key = Some e /\ defined (value e) = true
            /\ clock w <= expiresAt e.
Proof.
  unfold getCached, NodeCache_get.
  destruct (cache w !! key) as [e|]; [|done].
  destruct (expiresAt e <? clock w) eqn:Hexp; [done|]. simpl.
  apply Z.ltb_ge in Hexp. eauto.
Qed.

Lemma finish_post_steps (env : Env) (username : string) (post : InstagramPost)
    (cachedAnalysis v : CacheVal) (rs : RunState) (w : World) :
  exists steps,
    trace (snd (finish_post env username post cachedAnalysis v rs w))
    = trace w ++ steps
    /\ forall p, EvOpenAI p ∉ steps.
Proof.
  unfold finish_post. destruct (read_analysis v) as [analysis|err].
  - unfold handle_verdict.
    destruct (isEvent analysis && (MIN_CONFIDENCE_THRESHOLD <=? confidenceScore analysis)).
    + destruct (postDate post (clock w)) as [date|err].
      * destruct (storeEventInSupabase_spec env
                    (eventPost_of username post analysis date) w)
          as (_ & Ht & _).
        destruct (storeEventInSupabase env _ w) as [stored w1]. simpl in Ht.
        exists [EvUpsert (id post) stored; EvDelay 500]. split.
        -- destruct stored; simpl; rewrite Ht; by rewrite <- app_assoc.
        -- intros p Hin. apply elem_of_cons in Hin as [Hin|Hin]; [discriminate|].
           apply list_elem_of_singleton in Hin. discriminate.
      * exists [EvDelay 500]. split; [done|].
        intros p Hin. apply list_elem_of_singleton in Hin. discriminate.
    + exists [EvDelay 500]. split; [done|].
      intros p Hin. apply list_elem_of_singleton in Hin. discriminate.
  - exists [EvDelay 500]. split; [done|].
    intros p Hin. apply list_elem_of_singleton in Hin. discriminate.
Qed.

Lemma select_existing_spec (env : Env) (pid : string) (w : World) :
  let r := select_existing env pid w in
  trace (snd r) = trace w ++ [EvSelect pid (fst r)]
  /\ cache (snd r) = cache w
  /\ (fst r = true -> is_Some (instagram_events w !! pid)).
Proof.
  unfold select_existing. simpl. repeat split.
  destruct (supabase_fails env w); [done|].
  by destruct (instagram_events w !! pid).
Qed.

(** C2.  The steps taken for a post begin with the three layers in this
    order, each positive answer ending the consultation: (1) the ids seen in
    this run; if the id is among them nothing follows; (2) the lookup in
    [instagram_events]; if a row is found nothing follows; (3) the cache
    lookup of the verdict (done twice: for the counters and by
    [getCachedOrCompute]); if it hits, no call to the classification service
    follows.  The service is called only, and then at once, when all three
    report the post as unseen. *)
Theorem dedup_layers_in_order (env : Env) (username : string)
    (post : InstagramPost) (rs : RunState) (w : World) :
  let pid := id post in
  let key := "post_analysis:" +:+ pid in
  let steps := steps_between w (snd (process_post env username post rs w)) in
  ((pid ∈ analyzedPostIds rs) /\ steps = [EvSessionCheck pid true])
  \/ ((pid ∉ analyzedPostIds rs)
      /\ is_Some (instagram_events w !! pid)
      /\ steps = [EvSessionCheck pid false; EvSelect pid true])
  \/ ((pid ∉ analyzedPostIds rs)
      /\ (exists e, cache w !! key = Some e /\ defined (value e) = true)
      /\ exists rest,
           steps = [EvSessionCheck pid false; EvSelect pid false;
                    EvCacheGet key true; EvCacheGet key true] ++ rest
           /\ forall p, EvOpenAI p ∉ rest)
  \/ ((pid ∉ analyzedPostIds rs)
      /\ exists rest,
           steps = [EvSessionCheck pid false; EvSelect pid false;
                    EvCacheGet key false; EvCacheGet key false;
                    EvOpenAI pid] ++ rest).
Proof.
  intros pid key.
  assert (Hkey : key = analysis_key pid) by reflexivity.
  clearbody key. subst key. set (key := analysis_key pid).
  unfold process_post. fold pid. fold key.
  destruct (bool_decide (pid ∈ analyzedPostIds rs)) eqn:Hseen.
  { left. apply bool_decide_eq_true in Hseen. split; [done|].
    by apply steps_between_app. }
  apply bool_decide_eq_false in Hseen. right.
  set (w0 := log (EvSessionCheck pid false) w).
  destruct (select_existing_spec env pid w0) as (Ht1 & Hc1 & Hrow).
  destruct (select_existing env pid w0) as [found w1]. simpl in Ht1, Hc1, Hrow.
  rewrite <- app_assoc in Ht1. simpl in Ht1.
  destruct found.
  { left. split; [done|]. split; [by apply Hrow | by apply steps_between_app]. }
  right.
  pose proof (getCached_trace key w1) as Ht2.
  pose proof (getCached_again key w1) as Hagain.
  pose proof (getCached_defined key w1) as Hlive.
  destruct (getCached key w1) as [cachedAnalysis w2]. simpl in Ht2, Hagain, Hlive.
  unfold analyzePostWithOpenAI. fold pid. fold key.
  destruct (defined cachedAnalysis) eqn:Hdef.
  - (* the cache holds a verdict *)
    left. split; [done|]. split.
    { destruct (Hlive eq_refl) as (e & He & Hd & _). rewrite Hc1 in He. eauto. }
    rewrite getCachedOrCompute_hit by (by rewrite Hagain).
    pose proof (getCached_trace key w2) as Ht3. rewrite Hagain, Hdef in Ht3.
    destruct (finish_post_steps env username post cachedAnalysis
                (fst (getCached key w2)) (mark_analyzed pid rs)
                (snd (getCached key w2))) as (rest & Ht4 & Hno).
    exists rest. split; [|done]. apply steps_between_app.
    rewrite Ht4, Ht3, Ht2, Ht1. by rewrite <- !app_assoc.
  - (* nothing is known of the post *)
    right. split; [done|].
    assert (Hmiss : fst (getCached key w2) = CUndefined).
    { rewrite Hagain. by destruct cachedAnalysis. }
    rewrite getCachedOrCompute_miss by done.
    pose proof (getCached_trace key w2) as Ht3.
    rewrite Hmiss in Ht3. simpl in Ht3.
    destruct (analysis_producer_calls env post (snd (getCached key w2)))
      as [l1 Hl1]. fold pid in Hl1.
    destruct (analysis_producer env post (snd (getCached key w2))) as [[v|err] w3];
      simpl in Hl1.
    + destruct (finish_post_steps env username post cachedAnalysis v
                  (mark_analyzed pid rs)
                  (snd (setCached key v OPENAI_ANALYSIS_CACHE_TTL w3)))
        as (l2 & Hl2 & _).
      exists (l1 ++ [EvCacheSet key] ++ l2). apply steps_between_app.
      rewrite Hl2. simpl. rewrite Hl1, Ht3, Ht2, Ht1.
      by rewrite <- !app_assoc.
    + exists (l1 ++ [EvDelay 500]). apply steps_between_app.
      simpl. rewrite Hl1, Ht3, Ht2, Ht1. by rewrite <- !app_assoc.
Qed.

(** ** The followings statistics (C10) *)

Lemma history_producer_returns (env : Env) (acct : string) (date : Z) (w : World) :
  history_producer env acct date w
  = (Return (if supabase_fails env w then CNull
             else match nearest_sample (watchlist_history w) acct date with
                  | Some r => CNum (followings_count r)
                  | None => CNull
                  end),
     elapse (latency env w) w).
Proof.
  unfold history_producer. destruct (supabase_fails env w); [done|].
  by destruct (nearest_sample (watchlist_history w) acct date).
Qed.

Lemma getCached_history (key : string) (w : World) :
  watchlist_history (snd (getCached key w)) = watchlist_history w.
Proof.
  unfold getCached, NodeCache_get. destruct (cache w !! key) as [e|]; [|done].
  by destruct (expiresAt e <? clock w).
Qed.

(** A lookup that the cache does not answer yields the count of the nearest
    sample, or [null]. *)
Lemma getDifferenceFromDate_miss (env : Env) (acct : string) (date : Z)
    (w : World) :
  fst (getCached (history_key acct date) w) = CUndefined ->
  fst (getDifferenceFromDate env acct date w)
  = Return (if supabase_fails env (snd (getCached (history_key acct date) w))
            then CNull
            else match nearest_sample (watchlist_history w) acct date with
                 | Some r => CNum (followings_count r)
                 | None => CNull
                 end).
Proof.
  intros Hmiss. unfold getDifferenceFromDate.
  rewrite getCachedOrCompute_miss by done.
  by rewrite history_producer_returns, getCached_history.
Qed.

(** A lookup that the cache answers yields the cached value. *)
Lemma getDifferenceFromDate_hit (env : Env) (acct : string) (date : Z)
    (w : World) :
  defined (fst (getCached (history_key acct date) w)) = true ->
  fst (getDifferenceFromDate env acct date w)
  = Return (fst (getCached (history_key acct date) w)).
Proof.
  intros Hhit. unfold getDifferenceFromDate.
  by rewrite getCachedOrCompute_hit.
Qed.

Lemma getDifferenceFromDate_history (env : Env) (acct : string) (date : Z)
    (w : World) :
  watchlist_history (snd (getDifferenceFromDate env acct date w))
  = watchlist_history w.
Proof.
  unfold getDifferenceFromDate, getCachedOrCompute.
  pose proof (getCached_history (history_key acct date) w) as Hh.
  destruct (getCached (history_key acct date) w) as [v w1]. simpl in Hh.
  destruct (defined v); [done|].
  by rewrite history_producer_returns.
Qed.

Lemma or_current_zero (historical : CacheVal) (current : Z) :
  historical = CNum 0 \/ historical = CNull ->
  current - or_current historical current = 0.
Proof. intros [-> | ->]; simpl; lia. Qed.

(** C10, as stated: three hours after a first computation, the nearest
    sample at or before the daily boundary has count 0, and yet the daily
    change reported is the one computed from the cached count. *)
Lemma stale_history_hides_zero_sample :
  nearest_sample (watchlist_history world_afternoon) "alice"
    (oneDayAgo (clock (elapse (latency env_steady world_afternoon) world_afternoon)))
  = Some sample_1200
  /\ followings_count sample_1200 = 0
  /\ fst (computeFollowingsStats env_steady "alice" world_afternoon)
     = Return {| totalFollowings := 3; dailyChange := 1;
                 weeklyChange := 0; monthlyChange := 0 |}.
Proof. vm_compute. done. Qed.

(** What [computeFollowingsStats] returns, from the three cache reads that
    [Promise.all] makes first and from what the queries sent on the misses
    answer. *)
Lemma computeFollowingsStats_changes (env : Env) (acct : string)
    (w w' : World) (stats : FollowingsStats) :
  computeFollowingsStats env acct w = (Return stats, w') ->
  let w_day := elapse (latency env w) w in
  let now := clock w_day in
  let day := getCached (history_key acct (oneDayAgo now)) w_day in
  let week := getCached (history_key acct (oneWeekAgo now)) (snd day) in
  let month := getCached (history_key acct (oneMonthAgo now)) (snd week) in
  let historical (date : Z) (lookup : CacheVal * World) : CacheVal :=
    if defined (fst lookup) then fst lookup
    else history_answer env acct date (snd lookup) in
  let current := totalFollowings stats in
  dailyChange stats
  = current - or_current (historical (oneDayAgo now) day) current
  /\ weeklyChange stats
     = current - or_current (historical (oneWeekAgo now) week) current
  /\ monthlyChange stats
     = current - or_current (historical (oneMonthAgo now) month) current.
Proof.
  intros Hrun w_day now day week month historical current.
  unfold computeFollowingsStats in Hrun.
  destruct (supabase_fails env w); [discriminate|].
  destruct (watchlist w !! acct) as [followings|]; [|discriminate].
  fold w_day in Hrun. fold now in Hrun.
  unfold historical_results, begin_lookup, end_lookup in Hrun.
  unfold historical, current. subst day week month.
  destruct (getCached (history_key acct (oneDayAgo now)) w_day) as [c1 w1].
  cbn [fst snd p_key p_cached p_answer p_latency] in *.
  destruct (getCached (history_key acct (oneWeekAgo now)) w1) as [c2 w2].
  cbn [fst snd p_key p_cached p_answer p_latency] in *.
  destruct (getCached (history_key acct (oneMonthAgo now)) w2) as [c3 w3].
  cbn [fst snd p_key p_cached p_answer p_latency] in *.
  destruct (defined c1), (defined c2), (defined c3);
    cbn [fst snd p_key p_cached p_answer p_latency] in Hrun;
    injection Hrun as <- _; done.
Qed.

(** With the row of the account read, the historical lookups cannot make
    [computeFollowingsStats] fail. *)
Lemma computeFollowingsStats_returns (env : Env) (acct : string)
    (followings : Followings) (w : World) :
  supabase_fails env w = false ->
  watchlist w !! acct = Some followings ->
  exists stats w',
    computeFollowingsStats env acct w = (Return stats, w')
    /\ totalFollowings stats = currentFollowingsCount followings.
Proof.
  intros Hdb Hrow. unfold computeFollowingsStats. rewrite Hdb, Hrow.
  unfold historical_results.
  destruct (begin_lookup env acct _ _) as [day w1].
  destruct (begin_lookup env acct _ w1) as [week w2].
  destruct (begin_lookup env acct _ w2) as [month w3].
  destruct (end_lookup day w3) as [dayResult w4].
  destruct (end_lookup week w4) as [weekResult w5].
  destruct (end_lookup month w5) as [monthResult w6].
  eauto.
Qed.

(** C10 (amended).  Each change is [current - (historical || current)],
    so whenever the historical result of a window is [0] or [null] the
    reported change for that window is [0].  The historical result is what
    the cache answers under the key of the window, when it answers; when it
    does not, it is the count of the nearest sample at or before the
    boundary, [null] if there is none: it is then [0] or [null] whenever
    that sample has [followings_count] 0 or there is none, and an account
    that grew from 0 to N reports 0. *)
Theorem zero_sample_reads_as_missing (env : Env) (acct : string)
    (w w' : World) (stats : FollowingsStats) :
  computeFollowingsStats env acct w = (Return stats, w') ->
  let w_day := elapse (latency env w) w in
  let now := clock w_day in
  let day := getCached (history_key acct (oneDayAgo now)) w_day in
  let week := getCached (history_key acct (oneWeekAgo now)) (snd day) in
  let month := getCached (history_key acct (oneMonthAgo now)) (snd week) in
  let historical (date : Z) (lookup : CacheVal * World) : CacheVal :=
    if defined (fst lookup) then fst lookup
    else history_answer env acct date (snd lookup) in
  let zero_or_null (r : CacheVal) := r = CNum 0 \/ r = CNull in
  let unanswered (date : Z) (lookup : CacheVal * World) :=
    fst lookup = CUndefined
    /\ match nearest_sample (watchlist_history w) acct date with
       | Some sample => followings_count sample = 0
       | None => True
       end in
  (zero_or_null (historical (oneDayAgo now) day) -> dailyChange stats = 0)
  /\ (zero_or_null (historical (oneWeekAgo now) week) -> weeklyChange stats = 0)
  /\ (zero_or_null (historical (oneMonthAgo now) month) ->
      monthlyChange stats = 0)
  /\ (unanswered (oneDayAgo now) day ->
      zero_or_null (historical (oneDayAgo now) day))
  /\ (unanswered (oneWeekAgo now) week ->
      zero_or_null (historical (oneWeekAgo now) week))
  /\ (unanswered (oneMonthAgo now) month ->
      zero_or_null (historical (oneMonthAgo now) month)).
Proof.
  intros Hrun w_day now day week month historical zero_or_null unanswered.
  destruct (computeFollowingsStats_changes env acct w w' stats Hrun)
    as (Hd & Hk & Hm).
  fold w_day now day week month historical in Hd, Hk, Hm.
  assert (Hun : forall date lookup,
             watchlist_history (snd lookup) = watchlist_history w ->
             unanswered date lookup ->
             zero_or_null (historical date lookup)).
  { intros date lookup Hh [Hmiss Hsample]. unfold zero_or_null, historical.
    rewrite Hmiss. simpl. unfold history_answer. rewrite Hh.
    destruct (supabase_fails env _); [by right|].
    destruct (nearest_sample (watchlist_history w) acct date) as [r|];
      [left; by rewrite Hsample | by right]. }
  split; [|split; [|split; [|split; [|split]]]].
  - intros Hz. rewrite Hd. by apply or_current_zero.
  - intros Hz. rewrite Hk. by apply or_current_zero.
  - intros Hz. rewrite Hm. by apply or_current_zero.
  - apply Hun. unfold day. by rewrite getCached_history.
  - apply Hun. unfold week, day. by rewrite !getCached_history.
  - apply Hun. unfold month, week, day. by rewrite !getCached_history.
Qed.

(** An account whose only sample, taken a day and an hour ago, counted no
    followings: it follows three accounts now, and the daily change is 0. *)
Lemma zero_sample_reads_as_missing_witness :
  nearest_sample (watchlist_history world_grown) "alice"
    (oneDayAgo (clock (elapse (latency env_steady world_grown) world_grown)))
  = Some sample_none_0900
  /\ followings_count sample_none_0900 = 0
  /\ exists stats w',
       computeFollowingsStats env_steady "alice" world_grown = (Return stats, w')
       /\ totalFollowings stats = 3
       /\ dailyChange stats = 0.
Proof.
  split; [vm_compute; reflexivity|]. split; [reflexivity|].
  set (r := computeFollowingsStats env_steady "alice" world_grown).
  assert (Hr : r = (Return {| totalFollowings := 3; dailyChange := 0;
                              weeklyChange := 0; monthlyChange := 0 |},
                    snd r)) by (vm_compute; reflexivity).
  eexists. exists (snd r). split; [exact Hr|]. split; [reflexivity|].
  destruct (zero_sample_reads_as_missing env_steady "alice" world_grown
              (snd r) _ Hr) as (Hday & _ & _ & Hzero & _).
  apply Hday, Hzero. split; vm_compute; reflexivity.
Defined.

(** * Further properties *)

(** ** withRetry: edge cases and bounds *)

(** X1.  When [retries] is zero or negative the loop body never runs: the
    operation is not invoked, nothing is waited for, and [withRetry] throws
    the generic [Error('All retries failed')], whatever the operation. *)
Theorem withRetry_no_attempt {A : Type} (fn : M A) (retries delayMs : Z)
    (w : World) :
  retries <= 0 ->
  withRetry fn retries delayMs w = (Throw (JsError "All retries failed"), w).
Proof.
  intros Hr. unfold withRetry.
  assert (Z.to_nat retries = 0%nat) as -> by lia. reflexivity.
Qed.

(** A zero and a negative number of attempts for a call that would succeed. *)
Lemma withRetry_no_attempt_witness :
  withRetry (scripted "op" (fun _ => Return 1)) 0 5000 world0
  = (Throw (JsError "All retries failed"), world0)
  /\ withRetry (scripted "op" (fun _ => Return 1)) (-2) 5000 world0
     = (Throw (JsError "All retries failed"), world0).
Proof.
  split.
  - apply (withRetry_no_attempt (scripted "op" (fun _ => Return 1)) 0 5000 world0).
    lia.
  - apply (withRetry_no_attempt (scripted "op" (fun _ => Return 1)) (-2) 5000
             world0).
    lia.
Defined.

Lemma retry_loop_calls_bound {A : Type} (op : string) (script : nat -> Outcome A)
    (retries delayMs : Z) (remaining : nat) (attempt : Z)
    (lastError : option Thrown) (w : World) :
  (calls op (snd (retry_loop (scripted op script) retries delayMs remaining
                    attempt lastError w))
   <= calls op w + remaining)%nat.
Proof.
  revert attempt lastError w.
  induction remaining as [|r IH]; intros attempt lastError w; simpl; [lia|].
  destruct (script (calls op w)) as [v|e]; simpl.
  - rewrite calls_log_call. lia.
  - match goal with
    | |- context [retry_loop _ _ _ r ?a ?l ?w2] =>
        pose proof (IH a l w2) as Hb;
        assert (Hc : calls op w2 = S (calls op w))
          by (destruct (attempt <? retries);
              rewrite ?calls_delay, calls_log_call; reflexivity)
    end.
    lia.
Qed.

(** X2.  Whatever the operation does, [withRetry] never invokes it more than
    [retries] times. *)
Theorem withRetry_at_most_retries {A : Type} (op : string)
    (script : nat -> Outcome A) (retries delayMs : Z) (w : World) :
  (calls op (snd (withRetry (scripted op script) retries delayMs w))
   <= calls op w + Z.to_nat retries)%nat.
Proof. unfold withRetry. apply retry_loop_calls_bound. Qed.

Lemma total_wait_app (l1 l2 : list Event) :
  total_wait (l1 ++ l2) = total_wait l1 + total_wait l2.
Proof.
  induction l1 as [|x l1 IH]; simpl; [lia|].
  destruct x; simpl; lia.
Qed.

Lemma total_wait_backoff_rounds (op : string) (d : Z) (j s : nat) :
  (1 <= s)%nat ->
  total_wait
    (flat_map (fun i : nat => [EvCall op; EvDelay (d * 2 ^ (Z.of_nat i - 1))])
       (seq s j))
  = d * (2 ^ (Z.of_nat (s + j) - 1) - 2 ^ (Z.of_nat s - 1)).
Proof.
  revert s. induction j as [|j IH]; intros s Hs; simpl.
  - rewrite Nat.add_0_r. lia.
  - rewrite IH by lia.
    replace (Z.of_nat (S s + j) - 1) with (Z.of_nat (s + S j) - 1) by lia.
    replace (Z.of_nat (S s) - 1) with (Z.succ (Z.of_nat s - 1)) by lia.
    rewrite Z.pow_succ_r by lia. lia.
Qed.

(** X3.  The waits of a retried operation add up to
    [delayMs * (2^(k-1) - 1)] when [k] attempts are made: with the defaults
    (three attempts from five seconds) an operation that keeps failing is
    given up after fifteen seconds of waiting. *)
Theorem withRetry_total_wait {A : Type} (op : string) (script : nat -> Outcome A)
    (n k : nat) (delayMs : Z) (w : World) :
  (1 <= k <= n)%nat ->
  (forall i, (i < k - 1)%nat -> is_throw (script (calls op w + i)%nat) = true) ->
  (k = n \/ is_throw (script (calls op w + (k - 1))%nat) = false) ->
  total_wait
    (steps_between w (snd (withRetry (scripted op script) (Z.of_nat n) delayMs w)))
  = delayMs * (2 ^ (Z.of_nat k - 1) - 1).
Proof.
  intros Hk Hfail Hlast.
  destruct (withRetry_scripted op script n delayMs k w Hk Hfail Hlast) as [Ht _].
  rewrite (steps_between_app _ _ _ Ht). unfold backoff_schedule.
  rewrite total_wait_app, total_wait_backoff_rounds by lia.
  change (total_wait [EvCall op]) with 0.
  replace (Z.of_nat (1 + (k - 1)) - 1) with (Z.of_nat k - 1) by lia.
  change (Z.of_nat 1 - 1) with 0. rewrite Z.pow_0_r. lia.
Qed.

(** Three failing attempts with the default delay: 15000 ms. *)
Lemma withRetry_total_wait_witness :
  total_wait
    (steps_between world0
       (snd (withRetry (scripted "op" broken) (Z.of_nat 3) RETRY_DELAY world0)))
  = RETRY_DELAY * (2 ^ (Z.of_nat 3 - 1) - 1).
Proof.
  apply (withRetry_total_wait "op" broken 3 3 RETRY_DELAY world0).
  - lia.
  - intros i Hi. assert (i = 0 \/ i = 1)%nat as [-> | ->] by lia; reflexivity.
  - by left.
Defined.

(** ** The cache: deletion, clearing, and reads that do not refresh *)

(** X4.  [deleteCached] answers [true] exactly when an entry was held under
    the key (be it expired and not yet reclaimed); afterwards a lookup of
    the key reports absent, a second deletion answers [false], and every
    other key keeps its entry. *)
Theorem deleteCached_removes (key : string) (w : World) :
  let r := deleteCached key w in
  (fst r = true <-> is_Some (cache w !! key))
  /\ fst (getCached key (snd r)) = CUndefined
  /\ fst (deleteCached key (snd r)) = false
  /\ forall k, k <> key -> cache (snd r) !! k = cache w !! k.
Proof.
  unfold deleteCached, NodeCache_del.
  destruct (cache w !! key) as [e|] eqn:He; simpl.
  - split; [split; [eauto | done]|].
    split; [|split].
    + unfold getCached, NodeCache_get. simpl. by rewrite lookup_delete_eq.
    + by rewrite lookup_delete_eq.
    + intros k Hk. by rewrite lookup_delete_ne.
  - split; [split; [done | by intros [? ?]]|].
    split; [|split].
    + unfold getCached, NodeCache_get. by rewrite He.
    + by rewrite He.
    + done.
Qed.

(** X5.  After [clearCache] every key reads as absent, so the next
    [getCachedOrCompute] runs its producer, whatever was cached before. *)
Theorem clearCache_forgets (key : string) (fn : M CacheVal) (ttl : Z)
    (w : World) :
  let w1 := clearCache w in
  fst (getCached key w1) = CUndefined
  /\ getCachedOrCompute key fn ttl w1
     = match fn (log (EvCacheGet key false) w1) with
       | (Return v, w2) => (Return v, snd (setCached key v ttl w2))
       | (Throw e, w2) => (Throw e, w2)
       end.
Proof.
  intros w1.
  assert (Hget : getCached key w1 = (CUndefined, log (EvCacheGet key false) w1)).
  { unfold getCached, NodeCache_get. simpl. by rewrite lookup_empty. }
  split; [by rewrite Hget|].
  rewrite getCachedOrCompute_miss by by rewrite Hget.
  by rewrite Hget.
Qed.

(** X6.  A read does not refresh an entry: while the entry is live,
    [getCachedOrCompute] returns its value whatever producer and TTL it is
    given, and leaves the cache, with the entry's expiry, as it was; once
    the expiry has passed the same call is a miss. *)
Theorem getCachedOrCompute_keeps_expiry (key : string) (fn : M CacheVal)
    (ttl : Z) (e : CacheEntry) (w : World) :
  cache w !! key = Some e ->
  defined (value e) = true ->
  (clock w <= expiresAt e ->
   getCachedOrCompute key fn ttl w
   = (Return (value e), log (EvCacheGet key true) w))
  /\ (expiresAt e < clock w -> fst (getCached key w) = CUndefined).
Proof.
  intros He Hdef. split; intros Hclock.
  - pose proof (getCached_live key e w He Hclock) as Hget.
    rewrite getCachedOrCompute_hit; rewrite Hget; simpl; by rewrite ?Hdef.
  - unfold getCached. by rewrite (NodeCache_get_expired key e w He Hclock).
Qed.

(** An entry written for a minute, read half a minute later with another
    producer and TTL. *)
Lemma getCachedOrCompute_keeps_expiry_witness :
  let w := elapse 30000 (snd (setCached "k" (CNum 1) 60 world0)) in
  getCachedOrCompute "k" producer_failing 5 w
  = (Return (CNum 1), log (EvCacheGet "k" true) w).
Proof.
  apply (getCachedOrCompute_keeps_expiry "k" producer_failing 5
           {| value := CNum 1; expiresAt := 60000 |}
           (elapse 30000 (snd (setCached "k" (CNum 1) 60 world0))));
    [reflexivity | reflexivity | vm_compute; discriminate].
Defined.

(** ** What a stretch of execution may have done *)

Section StepsFacts.
Variables (allowed : Event -> Prop) (rows : string -> Prop).

Lemma Steps_trans (w1 w2 w3 : World) :
  Steps allowed rows w1 w2 -> Steps allowed rows w2 w3 ->
  Steps allowed rows w1 w3.
Proof.
  intros H12 H23. induction H12 as [w|e w w' He _ IH|ms w w' _ IH|c w w' _ IH
                                     |k row w w' Hk _ IH].
  - done.
  - eapply steps_log; [done | by apply IH].
  - eapply steps_elapse. by apply IH.
  - eapply steps_cache. by apply IH.
  - eapply steps_upsert; [done | by apply IH].
Qed.

Lemma Steps_log (e : Event) (w : World) :
  allowed e -> Steps allowed rows w (log e w).
Proof. intros He. eapply steps_log; [done | apply steps_done]. Qed.

Lemma Steps_elapse (ms : Z) (w : World) : Steps allowed rows w (elapse ms w).
Proof. eapply steps_elapse, steps_done. Qed.

Lemma Steps_delay (ms : Z) (w : World) :
  allowed (EvDelay ms) -> Steps allowed rows w (delay ms w).
Proof.
  intros He. unfold delay. eapply steps_elapse. by apply Steps_log.
Qed.

Lemma Steps_request {A} (env : Env) (e : Event) (answer : World -> Outcome A)
    (w : World) :
  allowed e -> Steps allowed rows w (snd (request env e answer w)).
Proof.
  intros He. simpl. eapply steps_log; [done | apply Steps_elapse].
Qed.

Lemma Steps_log_elapse (e : Event) (ms : Z) (w : World) :
  allowed e -> Steps allowed rows w (elapse ms (log e w)).
Proof. intros He. eapply steps_log; [done | apply Steps_elapse]. Qed.

Lemma Steps_getCached (key : string) (w : World) :
  (forall hit, allowed (EvCacheGet key hit)) ->
  Steps allowed rows w (snd (getCached key w)).
Proof.
  intros He. unfold getCached, NodeCache_get.
  destruct (cache w !! key) as [e|]; [|by apply Steps_log].
  destruct (expiresAt e <? clock w); simpl; [|by apply Steps_log].
  eapply steps_cache. by apply Steps_log.
Qed.

Lemma Steps_setCached (key : string) (v : CacheVal) (ttl : Z) (w : World) :
  allowed (EvCacheSet key) -> Steps allowed rows w (snd (setCached key v ttl w)).
Proof. intros He. simpl. eapply steps_cache. by apply Steps_log. Qed.

Lemma Steps_getCachedOrCompute (key : string) (fn : M CacheVal) (ttl : Z) :
  (forall hit, allowed (EvCacheGet key hit)) ->
  allowed (EvCacheSet key) ->
  (forall w, Steps allowed rows w (snd (fn w))) ->
  forall w, Steps allowed rows w (snd (getCachedOrCompute key fn ttl w)).
Proof.
  intros Hget Hset Hfn w. unfold getCachedOrCompute.
  pose proof (Steps_getCached key w Hget) as H1.
  destruct (getCached key w) as [v w1]. simpl in H1.
  destruct (defined v); [done|].
  pose proof (Hfn w1) as H2. destruct (fn w1) as [[r|err] w2]; simpl in H2.
  - eapply Steps_trans; [exact H1|]. eapply Steps_trans; [exact H2|].
    by apply (Steps_setCached key r ttl w2).
  - by eapply Steps_trans.
Qed.

Lemma Steps_withRetry {A} (fn : M A) (retries delayMs : Z) :
  (forall ms, allowed (EvDelay ms)) ->
  (forall w, Steps allowed rows w (snd (fn w))) ->
  forall w, Steps allowed rows w (snd (withRetry fn retries delayMs w)).
Proof.
  intros Hd Hfn.
  apply (withRetry_preserves (Steps allowed rows)
           (steps_done allowed rows) Steps_trans); [|done].
  intros ms w. by apply Steps_delay.
Qed.

(** What [Steps] guarantees. *)
Lemma Steps_sound (w w' : World) :
  Steps allowed rows w w' ->
  (exists steps, trace w' = trace w ++ steps /\ Forall allowed steps)
  /\ clock w <= clock w'
  /\ watchlist w' = watchlist w
  /\ watchlist_history w' = watchlist_history w
  /\ (forall k, is_Some (instagram_events w !! k) ->
                is_Some (instagram_events w' !! k))
  /\ (forall k, ~ rows k -> instagram_events w' !! k = instagram_events w !! k).
Proof.
  induction 1 as [w|e w w' He _ IH|ms w w' _ IH|c w w' _ IH|k row w w' Hk _ IH].
  - split; [exists []; split; [by rewrite app_nil_r | constructor]|].
    repeat split; try done.
  - destruct IH as ((l & Hl & Hall) & Hc & Hw & Hh & Hs & Hr).
    repeat split; try done.
    exists (e :: l). simpl in Hl. rewrite Hl, <- app_assoc. split; [done|].
    by constructor.
  - destruct IH as (Ht & Hc & Hw & Hh & Hs & Hr).
    repeat split; try done. simpl in Hc. lia.
  - destruct IH as (Ht & Hc & Hw & Hh & Hs & Hr). by repeat split.
  - destruct IH as (Ht & Hc & Hw & Hh & Hs & Hr).
    repeat split; try done.
    + intros k0 Hk0. apply Hs. simpl.
      destruct (decide (k = k0)) as [->|Hne];
        [rewrite lookup_insert_eq; eauto | by rewrite lookup_insert_ne].
    + intros k0 Hk0. rewrite (Hr k0 Hk0). simpl.
      rewrite lookup_insert_ne; [done|]. intros ->. by apply Hk0.
Qed.
End StepsFacts.

Lemma Steps_mono (allowed allowed' : Event -> Prop) (rows rows' : string -> Prop)
    (w w' : World) :
  (forall e, allowed e -> allowed' e) ->
  (forall k, rows k -> rows' k) ->
  Steps allowed rows w w' -> Steps allowed' rows' w w'.
Proof.
  intros Ha Hr. induction 1 as [w|e w w' He _ IH|ms w w' _ IH|c w w' _ IH
                                |k row w w' Hk _ IH].
  - apply steps_done.
  - eapply steps_log; [by apply Ha | done].
  - by eapply steps_elapse.
  - by eapply steps_cache.
  - eapply steps_upsert; [by apply Hr | done].
Qed.

(** Steps that are not calls for [pid] leave its count of classifications. *)
Lemma Steps_classifications (allowed : Event -> Prop) (rows : string -> Prop)
    (pid : string) (w w' : World) :
  ~ allowed (EvOpenAI pid) ->
  Steps allowed rows w w' ->
  classifications pid w' = classifications pid w.
Proof.
  intros Hno HS. destruct (Steps_sound _ _ _ _ HS) as ((l & Hl & Hall) & _).
  unfold classifications. rewrite Hl, occurrences_app. clear Hl.
  assert (occurrences (EvOpenAI pid) l = 0%nat) as ->; [|lia].
  induction Hall as [|x l Hx _ IH]; simpl; [done|].
  destruct (decide (x = EvOpenAI pid)) as [->|]; [done | exact IH].
Qed.

Section StepsOfAPost.
Variables (env : Env) (post : InstagramPost) (rows : string -> Prop).

Local Abbreviation S := (Steps (post_event (id post)) rows).

Lemma Steps_analysis_producer (w : World) :
  S w (snd (analysis_producer env post w)).
Proof.
  unfold analysis_producer, classify.
  assert (Hr : S w (snd (createChatCompletion env post w))).
  { apply Steps_withRetry; [done|]. intros w0. by apply Steps_request. }
  destruct (createChatCompletion env post w) as [[c|err] w1]; simpl in *; [done|].
  destruct (is_Error err && includes "rate limit" (message err)); [|done].
  eapply Steps_trans; [exact Hr | by apply Steps_delay].
Qed.

Lemma Steps_analyzePostWithOpenAI (w : World) :
  S w (snd (analyzePostWithOpenAI env post w)).
Proof.
  unfold analyzePostWithOpenAI.
  apply Steps_getCachedOrCompute; [done | done |].
  apply Steps_analysis_producer.
Qed.

Lemma Steps_select_existing (w : World) :
  S w (snd (select_existing env (id post) w)).
Proof. unfold select_existing. simpl. by apply Steps_log_elapse. Qed.

Lemma Steps_handle_verdict (username : string) (analysis : Analysis)
    (rs : RunState) (w : World) :
  rows (id post) ->
  S w (snd (handle_verdict env username post analysis rs w)).
Proof.
  intros Hrow. unfold handle_verdict.
  destruct (isEvent analysis && (MIN_CONFIDENCE_THRESHOLD <=? confidenceScore analysis));
    [|apply steps_done].
  destruct (postDate post (clock w)) as [date|err]; [|apply steps_done].
  unfold storeEventInSupabase. destruct (supabase_fails env w); simpl.
  - by apply Steps_log_elapse.
  - eapply steps_upsert; [exact Hrow|]. by apply Steps_log_elapse.
Qed.

Lemma Steps_finish_post (username : string) (cachedAnalysis v : CacheVal)
    (rs : RunState) (w : World) :
  rows (id post) ->
  S w (snd (finish_post env username post cachedAnalysis v rs w)).
Proof.
  intros Hrow. unfold finish_post. destruct (read_analysis v) as [analysis|err].
  - pose proof (Steps_handle_verdict username analysis
                  (count_hit (truthy cachedAnalysis) rs) w Hrow) as Hh.
    destruct (handle_verdict env username post analysis _ w) as [[o rs3] w4].
    simpl in *. eapply Steps_trans; [exact Hh | by apply Steps_delay].
  - by apply Steps_delay.
Qed.

Lemma Steps_process_post (username : string) (rs : RunState) (w : World) :
  rows (id post) ->
  S w (snd (process_post env username post rs w)).
Proof.
  intros Hrow. unfold process_post.
  set (w0 := log (EvSessionCheck (id post) _) w).
  assert (H0 : S w w0) by by apply Steps_log.
  destruct (bool_decide (id post ∈ analyzedPostIds rs)); [done|].
  pose proof (Steps_select_existing w0) as H1.
  destruct (select_existing env (id post) w0) as [existingPost w1].
  simpl in H1. assert (H01 : S w w1) by by eapply Steps_trans.
  destruct existingPost; [done|].
  assert (H2 : S w1 (snd (getCached (analysis_key (id post)) w1)))
    by by apply Steps_getCached.
  destruct (getCached (analysis_key (id post)) w1) as [cachedAnalysis w2].
  simpl in H2. assert (H02 : S w w2) by by eapply Steps_trans.
  pose proof (Steps_analyzePostWithOpenAI w2) as H3.
  destruct (analyzePostWithOpenAI env post w2) as [[v|err] w3]; simpl in H3.
  - eapply Steps_trans; [exact H02|].
    eapply Steps_trans; [exact H3 | by apply Steps_finish_post].
  - simpl. eapply Steps_trans; [exact H02|].
    eapply Steps_trans; [exact H3 | by apply Steps_delay].
Qed.
End StepsOfAPost.

Section StepsOfARun.
Variables (env : Env) (accts : list string).

Local Abbreviation S := (Steps (run_event accts) (fun _ => True)).

Lemma post_event_run_event (pid : string) (e : Event) :
  post_event pid e -> run_event accts e.
Proof. by destruct e. Qed.

Lemma Steps_process_posts (username : string) (ps : list InstagramPost)
    (rs : RunState) (w : World) :
  S w (snd (process_posts env username ps rs w)).
Proof.
  revert rs w. induction ps as [|post ps IH]; intros rs w; simpl.
  - apply steps_done.
  - pose proof (Steps_process_post env post (fun _ => True) username rs w I) as Hp.
    destruct (process_post env username post rs w) as [rs1 w1]. simpl in Hp.
    eapply Steps_trans; [|apply IH].
    eapply Steps_mono; [apply post_event_run_event | | exact Hp]. done.
Qed.

Lemma Steps_process_account (ppa : Z) (username : string) (rs : RunState)
    (w : World) :
  username ∈ accts -> S w (snd (process_account env ppa username rs w)).
Proof.
  intros Hin. unfold process_account.
  set (w1 := delay _ w).
  assert (H1 : S w w1) by by apply Steps_delay.
  assert (H2 : S w1 (snd (withRetry
              (request env (EvGetPosts username)
                 (scraper_getPosts env username ppa))
              MAX_RETRIES RETRY_DELAY w1))).
  { apply Steps_withRetry; [done|]. intros w0. by apply Steps_request. }
  destruct (withRetry _ MAX_RETRIES RETRY_DELAY w1) as [[results|err] w2];
    simpl in H2; [|by eapply Steps_trans].
  assert (H12 : S w w2) by by eapply Steps_trans.
  destruct (if success results then posts results else None) as [[|p ps]|];
    [done | | done].
  eapply Steps_trans; [exact H12 | apply Steps_process_posts].
Qed.

Lemma Steps_process_accounts (ppa : Z) (usernames : list string)
    (rs : RunState) (w : World) :
  usernames ⊆ accts -> S w (snd (process_accounts env ppa usernames rs w)).
Proof.
  revert rs w. induction usernames as [|u us IH]; intros rs w Hsub; simpl.
  - apply steps_done.
  - assert (Hu : u ∈ accts) by (apply Hsub; apply elem_of_cons; by left).
    pose proof (Steps_process_account ppa u rs w Hu) as Hp.
    destruct (process_account env ppa u rs w) as [rs1 w1]. simpl in Hp.
    eapply Steps_trans; [exact Hp|]. apply IH.
    intros x Hx. apply Hsub. apply elem_of_cons. by right.
Qed.

Lemma Steps_scrapeAndDetectEvents (ppa : Z) (w : World) :
  S w (snd (scrapeAndDetectEvents env accts ppa w)).
Proof.
  unfold scrapeAndDetectEvents.
  pose proof (Steps_process_accounts ppa accts initial_run w) as Hp.
  destruct (process_accounts env ppa accts initial_run w) as [rs w1].
  by apply Hp.
Qed.
End StepsOfARun.

(** ** What the pipeline never does *)

(** X7.  Processing a post records nothing but waits and accesses under that
    post's id and cache key: no other post is looked up, classified or
    stored; rows of [instagram_events] under other ids are left as they
    were, no row is removed, the watchlist tables are not written, and the
    clock does not go back. *)
Theorem process_post_is_local (env : Env) (username : string)
    (post : InstagramPost) (rs : RunState) (w : World) :
  let w' := snd (process_post env username post rs w) in
  (exists steps,
     trace w' = trace w ++ steps /\ Forall (post_event (id post)) steps)
  /\ (forall k, k <> id post ->
        instagram_events w' !! k = instagram_events w !! k)
  /\ (forall k, is_Some (instagram_events w !! k) ->
                is_Some (instagram_events w' !! k))
  /\ watchlist w' = watchlist w
  /\ watchlist_history w' = watchlist_history w
  /\ clock w <= clock w'.
Proof.
  intros w'.
  destruct (Steps_sound _ _ _ _
              (Steps_process_post env post (fun k => k = id post) username rs w
                 eq_refl))
    as (Ht & Hc & Hw & Hh & Hs & Hr).
  repeat split; try done.
Qed.

(** X8.  A run fetches posts for the accounts it is given and for no other;
    it removes no row of [instagram_events], does not write the watchlist
    tables, and with no account to process it does nothing at all. *)
Theorem scrapeAndDetectEvents_only_given_accounts (env : Env)
    (accts : list string) (ppa : Z) (w : World) :
  let w' := snd (scrapeAndDetectEvents env accts ppa w) in
  (forall u, EvGetPosts u ∈ steps_between w w' -> u ∈ accts)
  /\ (forall k, is_Some (instagram_events w !! k) ->
                is_Some (instagram_events w' !! k))
  /\ watchlist w' = watchlist w
  /\ watchlist_history w' = watchlist_history w
  /\ scrapeAndDetectEvents env [] ppa w = ([], w).
Proof.
  intros w'.
  destruct (Steps_sound _ _ _ _ (Steps_scrapeAndDetectEvents env accts ppa w))
    as ((l & Hl & Hall) & _ & Hw & Hh & Hs & _).
  repeat split; try done.
  intros u Hu. fold w' in Hl. rewrite (steps_between_app _ _ _ Hl) in Hu.
  rewrite Forall_forall in Hall. by apply (Hall (EvGetPosts u)).
Qed.

(** ** Within one run a post is classified once *)

Lemma classifications_delay (pid : string) (ms : Z) (w : World) :
  classifications pid (delay ms w) = classifications pid w.
Proof. by apply (classifications_step pid (EvDelay ms)). Qed.

Lemma classifications_getCached (pid key : string) (w : World) :
  classifications pid (snd (getCached key w)) = classifications pid w.
Proof. by apply (classifications_step pid _ w _ (getCached_trace key w)). Qed.

Lemma classifications_setCached (pid key : string) (v : CacheVal) (ttl : Z)
    (w : World) :
  classifications pid (snd (setCached key v ttl w)) = classifications pid w.
Proof. by apply (classifications_step pid (EvCacheSet key)). Qed.

Lemma classifications_no_call (pid : string) (w w' : World) (steps : list Event) :
  trace w' = trace w ++ steps ->
  (forall p, EvOpenAI p ∉ steps) ->
  classifications pid w' = classifications pid w.
Proof.
  intros Ht Hno. unfold classifications. rewrite Ht, occurrences_app.
  assert (occurrences (EvOpenAI pid) steps = 0%nat) as ->; [|lia].
  clear Ht. induction steps as [|x l IH]; simpl; [done|].
  destruct (decide (x = EvOpenAI pid)) as [->|].
  - exfalso. apply (Hno pid). apply elem_of_cons. by left.
  - apply IH. intros p Hp. apply (Hno p). apply elem_of_cons. by right.
Qed.

Lemma retry_loop_request_bound {A} (env : Env) (ev : Event)
    (answer : World -> Outcome A) (pid : string) (retries delayMs : Z)
    (remaining : nat) (attempt : Z) (lastError : option Thrown) (w : World) :
  (classifications pid
     (snd (retry_loop (request env ev answer) retries delayMs remaining
             attempt lastError w))
   <= classifications pid w + remaining)%nat.
Proof.
  revert attempt lastError w.
  induction remaining as [|r IH]; intros attempt lastError w; simpl; [lia|].
  assert (Hstep : (classifications pid (elapse (latency env w) (log ev w))
                   <= S (classifications pid w))%nat).
  { unfold classifications. simpl. rewrite occurrences_app. simpl.
    destruct (decide (ev = EvOpenAI pid)); lia. }
  destruct (answer w) as [v|e]; simpl; [lia|].
  match goal with
  | |- context [retry_loop _ _ _ r ?a ?l ?w2] =>
      pose proof (IH a l w2) as Hb;
      assert (Hc : classifications pid w2
                   = classifications pid (elapse (latency env w) (log ev w)))
        by (destruct (attempt <? retries);
            rewrite ?classifications_delay; reflexivity)
  end.
  lia.
Qed.

Lemma analysis_producer_bound (env : Env) (post : InstagramPost) (pid : string)
    (w : World) :
  (classifications pid (snd (analysis_producer env post w))
   <= classifications pid w + 3)%nat.
Proof.
  unfold analysis_producer, classify.
  assert (Hb : (classifications pid (snd (createChatCompletion env post w))
                <= classifications pid w + 3)%nat)
    by apply (retry_loop_request_bound env (EvOpenAI (id post))
                (openai_createChatCompletion env post) pid MAX_RETRIES
                RETRY_DELAY 3 1 None w).
  destruct (createChatCompletion env post w) as [[c|err] w1]; simpl in *; [lia|].
  destruct (is_Error err && includes "rate limit" (message err)); simpl;
    rewrite ?classifications_delay; lia.
Qed.

Lemma analyzePostWithOpenAI_bound (env : Env) (post : InstagramPost)
    (pid : string) (w : World) :
  (classifications pid (snd (analyzePostWithOpenAI env post w))
   <= classifications pid w + 3)%nat.
Proof.
  unfold analyzePostWithOpenAI, getCachedOrCompute.
  pose proof (classifications_getCached pid (analysis_key (id post)) w) as Hg.
  destruct (getCached (analysis_key (id post)) w) as [v w1]. simpl in Hg.
  destruct (defined v); simpl; [lia|].
  pose proof (analysis_producer_bound env post pid w1) as Hp.
  destruct (analysis_producer env post w1) as [[r|err] w2]; simpl in *; [|lia].
  match goal with
  | |- (classifications pid ?w3 <= _)%nat =>
      assert (Hs : classifications pid w3 = classifications pid w2)
        by by apply (classifications_step pid
                       (EvCacheSet (analysis_key (id post))))
  end.
  lia.
Qed.

Lemma finish_post_classifications (env : Env) (username : string)
    (post : InstagramPost) (cachedAnalysis v : CacheVal) (rs : RunState)
    (pid : string) (w : World) :
  classifications pid (snd (finish_post env username post cachedAnalysis v rs w))
  = classifications pid w.
Proof.
  destruct (finish_post_steps env username post cachedAnalysis v rs w)
    as (l & Hl & Hno).
  by apply (classifications_no_call pid _ _ l).
Qed.

Lemma finish_post_analyzed (env : Env) (username : string)
    (post : InstagramPost) (cachedAnalysis v : CacheVal) (rs : RunState)
    (w : World) :
  analyzedPostIds (fst (finish_post env username post cachedAnalysis v rs w))
  = analyzedPostIds rs.
Proof.
  unfold finish_post. destruct (read_analysis v) as [analysis|err]; [|done].
  unfold handle_verdict.
  destruct (isEvent analysis && (MIN_CONFIDENCE_THRESHOLD <=? confidenceScore analysis));
    [|done].
  destruct (postDate post (clock w)) as [date|err]; [|done].
  by destruct (storeEventInSupabase env _ w) as [[|] w1].
Qed.

(** One iteration over a post: the id joins the ids seen; at most three
    calls are made for any id, and none for an id other than the post's or
    for an id already seen. *)
Lemma process_post_classifications (env : Env) (username : string)
    (post : InstagramPost) (rs : RunState) (pid : string) (w : World) :
  let r := process_post env username post rs w in
  analyzedPostIds (fst r) = {[id post]} ∪ analyzedPostIds rs
  /\ (classifications pid (snd r) <= classifications pid w + 3)%nat
  /\ (id post <> pid \/ pid ∈ analyzedPostIds rs ->
      classifications pid (snd r) = classifications pid w).
Proof.
  intros r.
  assert (Hother : id post <> pid ->
                   classifications pid (snd r) = classifications pid w).
  { intros Hne.
    apply (Steps_classifications (post_event (id post)) (fun _ => True));
      [simpl; congruence|].
    by apply Steps_process_post. }
  unfold r, process_post in *.
  destruct (bool_decide (id post ∈ analyzedPostIds rs)) eqn:Hseen.
  { apply bool_decide_eq_true in Hseen. simpl.
    assert (Hc : classifications pid (log (EvSessionCheck (id post) true) w)
                 = classifications pid w)
      by by apply classifications_log_other.
    split; [|split; [lia | done]].
    symmetry. apply subseteq_union_1_L. by apply singleton_subseteq_l. }
  apply bool_decide_eq_false in Hseen.
  set (w0 := log (EvSessionCheck (id post) false) w) in *.
  assert (H0 : classifications pid w0 = classifications pid w)
    by by apply classifications_log_other.
  destruct (select_existing_spec env (id post) w0) as (Ht1 & _).
  destruct (select_existing env (id post) w0) as [found w1]. simpl in Ht1.
  assert (H1 : classifications pid w1 = classifications pid w0)
    by by apply (classifications_step pid (EvSelect (id post) found) w0 w1 Ht1).
  destruct found.
  { simpl in *. split; [done|]. split; [lia|]. intros [Hne|Hin]; [auto|].
    congruence. }
  pose proof (classifications_getCached pid (analysis_key (id post)) w1) as H2.
  destruct (getCached (analysis_key (id post)) w1) as [cachedAnalysis w2].
  simpl in H2.
  pose proof (analyzePostWithOpenAI_bound env post pid w2) as H3.
  destruct (analyzePostWithOpenAI env post w2) as [[v|err] w3]; simpl in H3.
  - rewrite finish_post_analyzed, finish_post_classifications in *.
    simpl. split; [done|]. split; [lia|].
    intros [Hne|Hin]; [auto|].
    destruct (decide (id post = pid)) as [<-|Hne]; [done | auto].
  - simpl in *. rewrite classifications_delay in *. split; [done|].
    split; [lia|]. intros [Hne|Hin]; [auto|].
    destruct (decide (id post = pid)) as [<-|Hne]; [done | auto].
Qed.

Lemma process_post_budget (env : Env) (username : string)
    (post : InstagramPost) (rs : RunState) (pid : string) (w : World) :
  let r := process_post env username post rs w in
  let left (s : RunState) : nat :=
    if bool_decide (pid ∈ analyzedPostIds s) then 0%nat else 3%nat in
  analyzedPostIds rs ⊆ analyzedPostIds (fst r)
  /\ (classifications pid (snd r) + left (fst r)
      <= classifications pid w + left rs)%nat.
Proof.
  intros r left.
  destruct (process_post_classifications env username post rs pid w)
    as (Hids & Hle & Heq).
  fold r in Hids, Hle, Heq. unfold left. rewrite Hids.
  split; [apply union_subseteq_r|].
  destruct (decide (pid ∈ analyzedPostIds rs)) as [Hin|Hout].
  - rewrite !bool_decide_eq_true_2;
      [|done|by apply elem_of_union; right].
    rewrite Heq; [lia | by right].
  - rewrite (bool_decide_eq_false_2 (pid ∈ analyzedPostIds rs)); [|done].
    destruct (decide (id post = pid)) as [<-|Hne].
    + rewrite bool_decide_eq_true_2;
        [lia | by apply elem_of_union; left; apply elem_of_singleton].
    + rewrite Heq; [|by left]. case_bool_decide; lia.
Qed.

Lemma process_posts_budget (env : Env) (username : string)
    (ps : list InstagramPost) (rs : RunState) (pid : string) (w : World) :
  let r := process_posts env username ps rs w in
  let left (s : RunState) : nat :=
    if bool_decide (pid ∈ analyzedPostIds s) then 0%nat else 3%nat in
  analyzedPostIds rs ⊆ analyzedPostIds (fst r)
  /\ (classifications pid (snd r) + left (fst r)
      <= classifications pid w + left rs)%nat.
Proof.
  cbv zeta. revert rs w.
  induction ps as [|post rest IH]; intros rs w; simpl; [split; [done | lia]|].
  destruct (process_post_budget env username post rs pid w) as (Hs & Hb).
  destruct (process_post env username post rs w) as [rs1 w1]. simpl in Hs, Hb.
  destruct (IH rs1 w1) as (Hs' & Hb').
  split; [by transitivity (analyzedPostIds rs1) | lia].
Qed.

Lemma getPosts_classifications (env : Env) (username : string)
    (postsPerAccount : Z) (pid : string) (w : World) :
  classifications pid
    (snd (withRetry
            (request env (EvGetPosts username)
               (scraper_getPosts env username postsPerAccount))
            MAX_RETRIES RETRY_DELAY w))
  = classifications pid w.
Proof.
  apply (withRetry_preserves
           (fun w w' => classifications pid w' = classifications pid w)).
  - done.
  - intros w1 w2 w3 H12 H23. by rewrite H23.
  - intros ms w1. apply classifications_delay.
  - intros w1. by apply (classifications_step pid (EvGetPosts username)).
Qed.

Lemma process_account_budget (env : Env) (postsPerAccount : Z)
    (username : string) (rs : RunState) (pid : string) (w : World) :
  let r := process_account env postsPerAccount username rs w in
  let left (s : RunState) : nat :=
    if bool_decide (pid ∈ analyzedPostIds s) then 0%nat else 3%nat in
  analyzedPostIds rs ⊆ analyzedPostIds (fst r)
  /\ (classifications pid (snd r) + left (fst r)
      <= classifications pid w + left rs)%nat.
Proof.
  cbv zeta. unfold process_account.
  set (w1 := delay _ w).
  assert (H1 : classifications pid w1 = classifications pid w)
    by apply classifications_delay.
  pose proof (getPosts_classifications env username postsPerAccount pid w1) as H2.
  destruct (withRetry _ MAX_RETRIES RETRY_DELAY w1) as [[results|err] w2];
    simpl in H2; [|split; [done | simpl; lia]].
  destruct (if success results then posts results else None) as [[|p ps]|];
    [split; [done | simpl; lia]| |split; [done | simpl; lia]].
  pose proof (process_posts_budget env username (p :: ps)
                (count_processed (Z.of_nat (length (p :: ps))) rs) pid w2)
    as Hposts.
  cbv zeta in Hposts.
  change (analyzedPostIds (count_processed _ rs)) with (analyzedPostIds rs)
    in Hposts.
  destruct Hposts as (Hs & Hb).
  split; [exact Hs|].
  eapply Nat.le_trans; [exact Hb|]. rewrite H2, H1. exact (Nat.le_refl _).
Qed.

Lemma process_accounts_budget (env : Env) (postsPerAccount : Z)
    (accts : list string) (rs : RunState) (pid : string) (w : World) :
  let r := process_accounts env postsPerAccount accts rs w in
  let left (s : RunState) : nat :=
    if bool_decide (pid ∈ analyzedPostIds s) then 0%nat else 3%nat in
  analyzedPostIds rs ⊆ analyzedPostIds (fst r)
  /\ (classifications pid (snd r) + left (fst r)
      <= classifications pid w + left rs)%nat.
Proof.
  cbv zeta. revert rs w.
  induction accts as [|u rest IH]; intros rs w; simpl; [split; [done | lia]|].
  destruct (process_account_budget env postsPerAccount u rs pid w) as (Hs & Hb).
  destruct (process_account env postsPerAccount u rs w) as [rs1 w1].
  simpl in Hs, Hb.
  destruct (IH rs1 w1) as (Hs' & Hb').
  split; [by transitivity (analyzedPostIds rs1) | lia].
Qed.

(** X9.  One run of the pipeline calls the classification service at most
    [MAX_RETRIES] = 3 times for any post id, whatever the accounts return:
    the same post listed twice in a feed, or by two accounts, is classified
    by its first occurrence only, and the only repetition is the retrying of
    a failed call. *)
Theorem scrapeAndDetectEvents_classifies_once (env : Env) (accts : list string)
    (postsPerAccount : Z) (pid : string) (w : World) :
  (classifications pid (snd (scrapeAndDetectEvents env accts postsPerAccount w))
   <= classifications pid w + Z.to_nat MAX_RETRIES)%nat.
Proof.
  unfold scrapeAndDetectEvents.
  destruct (process_accounts_budget env postsPerAccount accts initial_run pid w)
    as (_ & Hb).
  destruct (process_accounts env postsPerAccount accts initial_run w)
    as [rs w1].
  simpl in *. change (Z.to_nat MAX_RETRIES) with 3%nat.
  rewrite (bool_decide_eq_false_2 (pid ∈ ∅)) in Hb
    by apply not_elem_of_empty.
  lia.
Qed.

(** ** The events a run returns *)

Lemma process_post_seen (env : Env) (username : string) (post : InstagramPost)
    (rs : RunState) (w : World) :
  id post ∈ analyzedPostIds rs ->
  process_post env username post rs w
  = (rs, log (EvSessionCheck (id post) true) w).
Proof.
  intros Hin. unfold process_post. by rewrite bool_decide_eq_true_2.
Qed.

Lemma process_post_analyzed (env : Env) (username : string)
    (post : InstagramPost) (rs : RunState) (w : World) :
  analyzedPostIds rs ⊆ analyzedPostIds (fst (process_post env username post rs w)).
Proof.
  destruct (process_post_classifications env username post rs (id post) w)
    as (-> & _). apply union_subseteq_r.
Qed.

(** An iteration adds at most one event to those returned: the post's own,
    accepted, and stored by this iteration. *)
Lemma process_post_events (env : Env) (username : string)
    (post : InstagramPost) (rs : RunState) (w : World) :
  let r := process_post env username post rs w in
  events (fst r) = events rs
  \/ exists ev,
       events (fst r) = events rs ++ [ev]
       /\ post_id ev = id post
       /\ account ev = username
       /\ is_event ev = true
       /\ MIN_CONFIDENCE_THRESHOLD <= confidence_score ev
       /\ (id post ∉ analyzedPostIds rs)
       /\ instagram_events (snd r) !! id post = Some ev.
Proof.
  cbv zeta. unfold process_post.
  destruct (bool_decide (id post ∈ analyzedPostIds rs)) eqn:Hseen; [by left|].
  apply bool_decide_eq_false in Hseen.
  destruct (select_existing env (id post) _) as [[|] w1]; [by left|].
  destruct (getCached (analysis_key (id post)) w1) as [cachedAnalysis w2].
  destruct (analyzePostWithOpenAI env post w2) as [[v|err] w3]; [|by left].
  unfold finish_post.
  destruct (read_analysis v) as [analysis|err]; [|by left].
  unfold handle_verdict.
  destruct (isEvent analysis
            && (MIN_CONFIDENCE_THRESHOLD <=? confidenceScore analysis))
    eqn:Haccepted; [|by left].
  apply andb_true_iff in Haccepted as [Hev Hscore].
  apply Z.leb_le in Hscore.
  destruct (postDate post (clock w3)) as [date|err]; [|by left].
  unfold storeEventInSupabase.
  destruct (supabase_fails env w3); [by left|].
  right. exists (eventPost_of username post analysis date).
  simpl. repeat split; try done.
  apply lookup_insert_eq.
Qed.

Section ReturnedEvents.
Variables (env : Env) (accts : list string).

(** The events collected so far have pairwise distinct post ids; each is an
    accepted verdict on a post seen in this run, of one of the accounts, and
    is the row stored under its post id. *)
Local Abbreviation Collected rs w :=
  (NoDup (post_id <$> events rs)
   /\ forall ev, ev ∈ events rs ->
        post_id ev ∈ analyzedPostIds rs
        /\ account ev ∈ accts
        /\ is_event ev = true
        /\ MIN_CONFIDENCE_THRESHOLD <= confidence_score ev
        /\ instagram_events w !! post_id ev = Some ev).

Lemma Collected_process_post (username : string) (post : InstagramPost)
    (rs : RunState) (w : World) :
  username ∈ accts ->
  Collected rs w ->
  Collected (fst (process_post env username post rs w))
            (snd (process_post env username post rs w)).
Proof.
  intros Hu (Hnd & Hall).
  pose proof (process_post_analyzed env username post rs w) as Hsub.
  assert (Hold : forall ev, ev ∈ events rs ->
            instagram_events (snd (process_post env username post rs w))
              !! post_id ev = Some ev).
  { intros ev Hev. destruct (Hall ev Hev) as (Hin & _ & _ & _ & Hrow).
    destruct (decide (post_id ev = id post)) as [Heq|Hne].
    - rewrite Heq in Hin. by rewrite (process_post_seen _ _ _ _ _ Hin), <- Heq.
    - destruct (Steps_sound _ _ _ _
                  (Steps_process_post env post (fun k => k = id post)
                     username rs w eq_refl))
        as (_ & _ & _ & _ & _ & Hr).
      by rewrite (Hr (post_id ev) Hne). }
  destruct (process_post_events env username post rs w)
    as [Heq|(ev & Heq & Hid & Hacc & Hev & Hscore & Hnew & Hrow)];
    rewrite Heq.
  - split; [done|]. intros ev Hev.
    destruct (Hall ev Hev) as (Hin & Ha & He & Hc & _).
    repeat split; auto.
  - split.
    + rewrite fmap_app. apply NoDup_app. split; [done|]. split.
      * intros k Hk Hk'. apply list_elem_of_singleton in Hk'. subst k.
        apply list_elem_of_fmap in Hk as (ev' & Heq' & Hev').
        destruct (Hall ev' Hev') as (Hin & _).
        apply Hnew. by rewrite <- Hid, Heq'.
      * apply NoDup_singleton.
    + intros ev' [Hev'| ->%list_elem_of_singleton]%elem_of_app.
      * destruct (Hall ev' Hev') as (Hin & Ha & He & Hc & _).
        repeat split; auto.
      * repeat split; try done; [|by rewrite Hacc|by rewrite Hid].
        rewrite Hid.
        destruct (process_post_classifications env username post rs (id post) w)
          as (Hids & _).
        rewrite Hids. apply elem_of_union. left. by apply elem_of_singleton.
Qed.

Lemma Collected_process_posts (username : string) (ps : list InstagramPost)
    (rs : RunState) (w : World) :
  username ∈ accts ->
  Collected rs w ->
  Collected (fst (process_posts env username ps rs w))
            (snd (process_posts env username ps rs w)).
Proof.
  intros Hu. revert rs w.
  induction ps as [|post rest IH]; intros rs w Hc; simpl; [done|].
  pose proof (Collected_process_post username post rs w Hu Hc) as H1.
  destruct (process_post env username post rs w) as [rs1 w1].
  by apply IH.
Qed.
Lemma getPosts_keeps_rows (username : string) (postsPerAccount : Z) (w : World) :
  instagram_events
    (snd (withRetry
            (request env (EvGetPosts username)
               (scraper_getPosts env username postsPerAccount))
            MAX_RETRIES RETRY_DELAY w))
  = instagram_events w.
Proof.
  apply (withRetry_preserves
           (fun w w' => instagram_events w' = instagram_events w)); try done.
  intros w1 w2 w3 H12 H23. by rewrite H23.
Qed.

Lemma Collected_process_account (postsPerAccount : Z) (username : string)
    (rs : RunState) (w : World) :
  username ∈ accts ->
  Collected rs w ->
  Collected (fst (process_account env postsPerAccount username rs w))
            (snd (process_account env postsPerAccount username rs w)).
Proof.
  intros Hu Hc. unfold process_account.
  set (w1 := delay _ w).
  pose proof (getPosts_keeps_rows username postsPerAccount w1) as Hrows.
  destruct (withRetry _ MAX_RETRIES RETRY_DELAY w1) as [[results|err] w2];
    simpl in Hrows.
  - assert (Hc2 : Collected rs w2) by by rewrite Hrows.
    destruct (if success results then posts results else None) as [[|p ps]|];
      [done | | done].
    by apply Collected_process_posts.
  - simpl. by rewrite Hrows.
Qed.

Lemma Collected_process_accounts (postsPerAccount : Z) (usernames : list string)
    (rs : RunState) (w : World) :
  usernames ⊆ accts ->
  Collected rs w ->
  Collected (fst (process_accounts env postsPerAccount usernames rs w))
            (snd (process_accounts env postsPerAccount usernames rs w)).
Proof.
  revert rs w.
  induction usernames as [|u us IH]; intros rs w Hsub Hc; simpl; [done|].
  assert (Hu : u ∈ accts) by (apply Hsub; apply elem_of_cons; by left).
  pose proof (Collected_process_account postsPerAccount u rs w Hu Hc) as H1.
  destruct (process_account env postsPerAccount u rs w) as [rs1 w1].
  apply IH; [|done].
  intros x Hx. apply Hsub. apply elem_of_cons. by right.
Qed.
End ReturnedEvents.

(** X10.  The events a run returns are exactly what it stored: each is, when
    the run ends, the row of [instagram_events] under its post id; each is an
    accepted verdict ([is_event], confidence at least
    [MIN_CONFIDENCE_THRESHOLD]) on a post of one of the accounts given; and
    no two of them have the same post id. *)
Theorem scrapeAndDetectEvents_returns_stored_events (env : Env)
    (accts : list string) (postsPerAccount : Z) (w : World) :
  let r := scrapeAndDetectEvents env accts postsPerAccount w in
  NoDup (post_id <$> fst r)
  /\ forall ev, ev ∈ fst r ->
       instagram_events (snd r) !! post_id ev = Some ev
       /\ account ev ∈ accts
       /\ is_event ev = true
       /\ MIN_CONFIDENCE_THRESHOLD <= confidence_score ev.
Proof.
  cbv zeta. unfold scrapeAndDetectEvents.
  destruct (Collected_process_accounts env accts postsPerAccount accts
              initial_run w) as (Hnd & Hall).
  { done. }
  { split; [constructor|]. intros ev Hev. by apply elem_of_nil in Hev. }
  destruct (process_accounts env postsPerAccount accts initial_run w)
    as [rs w1].
  simpl in *. split; [done|]. intros ev Hev.
  destruct (Hall ev Hev) as (_ & Ha & He & Hc & Hrow). done.
Qed.

(** ** The events table guards a post across runs *)

Section StoredPost.
Variables (env : Env) (pid : string).
Hypothesis store_answers : forall w, supabase_fails env w = false.

(** The row of [pid] is there and the calls made for [pid] are those of [w]. *)
Local Abbreviation Guarded w w' :=
  (is_Some (instagram_events w' !! pid)
   /\ classifications pid w' = classifications pid w).

Lemma Guarded_process_post (username : string) (post : InstagramPost)
    (rs : RunState) (w : World) :
  is_Some (instagram_events w !! pid) ->
  Guarded w (snd (process_post env username post rs w)).
Proof.
  intros Hrow. split.
  { destruct (Steps_sound _ _ _ _
                (Steps_process_post env post (fun _ => True) username rs w I))
      as (_ & _ & _ & _ & Hkept & _).
    by apply Hkept. }
  destruct (decide (id post = pid)) as [Heq|Hne].
  - unfold process_post.
    destruct (bool_decide (id post ∈ analyzedPostIds rs)).
    { by apply classifications_log_other. }
    unfold select_existing. simpl. rewrite store_answers, Heq.
    destruct Hrow as [row Hrow]. rewrite Hrow. simpl.
    unfold classifications. simpl. rewrite !occurrences_app. simpl.
    repeat destruct (decide _); try done. lia.
  - destruct (process_post_classifications env username post rs pid w)
      as (_ & _ & Hsame).
    apply Hsame. by left.
Qed.

Lemma Guarded_process_posts (username : string) (ps : list InstagramPost)
    (rs : RunState) (w : World) :
  is_Some (instagram_events w !! pid) ->
  Guarded w (snd (process_posts env username ps rs w)).
Proof.
  revert rs w.
  induction ps as [|post rest IH]; intros rs w Hrow; simpl; [done|].
  destruct (Guarded_process_post username post rs w Hrow) as (Hrow1 & Hc1).
  destruct (process_post env username post rs w) as [rs1 w1]. simpl in *.
  destruct (IH rs1 w1 Hrow1) as (Hrow2 & Hc2).
  split; [done | by rewrite Hc2].
Qed.

Lemma Guarded_process_account (postsPerAccount : Z) (username : string)
    (rs : RunState) (w : World) :
  is_Some (instagram_events w !! pid) ->
  Guarded w (snd (process_account env postsPerAccount username rs w)).
Proof.
  intros Hrow. unfold process_account.
  set (w1 := delay _ w).
  pose proof (getPosts_keeps_rows env username postsPerAccount w1) as Hrows.
  pose proof (getPosts_classifications env username postsPerAccount pid w1) as Hc.
  rewrite (classifications_delay pid _ w : classifications pid w1 = _) in Hc.
  destruct (withRetry _ MAX_RETRIES RETRY_DELAY w1) as [[results|err] w2];
    simpl in Hrows, Hc.
  - assert (Hrow2 : is_Some (instagram_events w2 !! pid)) by by rewrite Hrows.
    destruct (if success results then posts results else None) as [[|p ps]|];
      [done | | done].
    destruct (Guarded_process_posts username (p :: ps)
                (count_processed (Z.of_nat (length (p :: ps))) rs) w2 Hrow2)
      as (Hrow3 & Hc3).
    split; [done | by rewrite Hc3].
  - simpl. by rewrite Hrows.
Qed.

Lemma Guarded_process_accounts (postsPerAccount : Z) (usernames : list string)
    (rs : RunState) (w : World) :
  is_Some (instagram_events w !! pid) ->
  Guarded w (snd (process_accounts env postsPerAccount usernames rs w)).
Proof.
  revert rs w.
  induction usernames as [|u us IH]; intros rs w Hrow; simpl; [done|].
  destruct (Guarded_process_account postsPerAccount u rs w Hrow) as (Hrow1 & Hc1).
  destruct (process_account env postsPerAccount u rs w) as [rs1 w1]. simpl in *.
  destruct (IH rs1 w1 Hrow1) as (Hrow2 & Hc2).
  split; [done | by rewrite Hc2].
Qed.

Lemma Guarded_pipeline_runs (runs : list Run) (w : World) :
  is_Some (instagram_events w !! pid) ->
  Guarded w (pipeline_runs env runs w).
Proof.
  revert w. induction runs as [|r rest IH]; intros w Hrow; simpl; [done|].
  unfold scrapeAndDetectEvents.
  destruct (Guarded_process_accounts (postsPerAccount r) (accounts r)
              initial_run (elapse (gap r) w) Hrow) as (Hrow1 & Hc1).
  destruct (process_accounts env (postsPerAccount r) (accounts r) initial_run
              (elapse (gap r) w)) as [rs w1].
  simpl in *. destruct (IH w1 Hrow1) as (Hrow2 & Hc2).
  split; [done | by rewrite Hc2].
Qed.
End StoredPost.

(** X11.  A post whose row is in [instagram_events] is never sent to the
    classification service again, by any number of later runs and however
    much time passes between them, as long as the lookup in the table is
    answered; and its row stays. *)
Theorem stored_post_never_classified (env : Env) (runs : list Run)
    (pid : string) (w : World) :
  (forall w0, supabase_fails env w0 = false) ->
  is_Some (instagram_events w !! pid) ->
  classifications pid (pipeline_runs env runs w) = classifications pid w
  /\ is_Some (instagram_events (pipeline_runs env runs w) !! pid).
Proof.
  intros Hstore Hrow.
  destruct (Guarded_pipeline_runs env pid Hstore runs w Hrow) as (Hrow' & Hc).
  done.
Qed.

Lemma stored_post_never_classified_witness :
  classifications "p1"
    (pipeline_runs env_steady [run_now; run_next_week] world_stored) = 0%nat
  /\ is_Some (instagram_events
                (pipeline_runs env_steady [run_now; run_next_week] world_stored)
              !! "p1").
Proof.
  apply (stored_post_never_classified env_steady [run_now; run_next_week]
           "p1" world_stored).
  - reflexivity.
  - vm_compute. eexists. reflexivity.
Defined.

(** ** When a collaborator keeps failing *)

Lemma toError_is_Error (e : Thrown) : is_Error (toError e) = true.
Proof. by destruct e. Qed.

Lemma message_toError (e : Thrown) : message (toError e) = message e.
Proof. by destruct e. Qed.

(** A request that fails every time is made three times, five and then ten
    seconds apart; the error of the third attempt is thrown, as an [Error]. *)
Lemma request_fails_thrice {A} (env : Env) (ev : Event)
    (answer : World -> Outcome A) (w : World) :
  (forall w0, is_throw (answer w0) = true) ->
  exists (e3 : Thrown) (w3 w' : World),
    withRetry (request env ev answer) MAX_RETRIES RETRY_DELAY w
    = (Throw (toError e3), w')
    /\ answer w3 = Throw e3
    /\ trace w' = trace w ++ [ev; EvDelay 5000; ev; EvDelay 10000; ev]
    /\ cache w' = cache w
    /\ instagram_events w' = instagram_events w.
Proof.
  intros Hfail. unfold withRetry.
  change (Z.to_nat MAX_RETRIES) with 3%nat. unfold request. simpl.
  pose proof (Hfail w) as H1.
  destruct (answer w) as [v|e1]; [done|]. clear H1.
  match goal with
  | |- context [answer ?w1] =>
      pose proof (Hfail w1) as H2; destruct (answer w1) as [v|e2]; [done|]
  end.
  clear H2.
  match goal with
  | |- context [answer ?w2] =>
      pose proof (Hfail w2) as H3; destruct (answer w2) as [v|e3] eqn:Hthird;
        [done|]; exists e3, w2
  end.
  eexists. split; [reflexivity|]. split; [exact Hthird|].
  simpl. rewrite <- !app_assoc. done.
Qed.

(** X12.  An account whose posts cannot be fetched is given up after three
    requests, made five and then ten seconds apart after the initial random
    wait, and skipped: the counters and the events collected are as before,
    nothing is read from or written to the cache or the events table, and
    the run goes on with the accounts that follow. *)
Theorem process_account_fetch_fails (env : Env) (postsPerAccount : Z)
    (username : string) (others : list string) (rs : RunState) (w : World) :
  (forall w0,
     is_throw (scraper_getPosts env username postsPerAccount w0) = true) ->
  exists w',
    process_account env postsPerAccount username rs w = (rs, w')
    /\ steps_between w w'
       = [EvDelay (2000 + Math_random env w mod 3000);
          EvGetPosts username; EvDelay 5000;
          EvGetPosts username; EvDelay 10000;
          EvGetPosts username]
    /\ cache w' = cache w
    /\ instagram_events w' = instagram_events w
    /\ process_accounts env postsPerAccount (username :: others) rs w
       = process_accounts env postsPerAccount others rs w'.
Proof.
  intros Hfail. unfold process_accounts at 1. fold process_accounts.
  unfold process_account.
  set (w1 := delay _ w).
  destruct (request_fails_thrice env (EvGetPosts username)
              (scraper_getPosts env username postsPerAccount) w1 Hfail)
    as (e3 & w3 & w' & -> & _ & Ht & Hc & Hs).
  exists w'. repeat split; try done.
  apply steps_between_app. rewrite Ht. simpl. by rewrite <- app_assoc.
Qed.

Lemma process_account_fetch_fails_witness :
  exists w',
    process_account env_unreachable 5 "alice" initial_run world0
    = (initial_run, w')
    /\ steps_between world0 w'
       = [EvDelay (2000 + Math_random env_unreachable world0 mod 3000);
          EvGetPosts "alice"; EvDelay 5000;
          EvGetPosts "alice"; EvDelay 10000;
          EvGetPosts "alice"]
    /\ cache w' = cache world0
    /\ instagram_events w' = instagram_events world0
    /\ process_accounts env_unreachable 5 ("alice" :: ["bob"]) initial_run world0
       = process_accounts env_unreachable 5 ["bob"] initial_run w'.
Proof.
  apply (process_account_fetch_fails env_unreachable 5 "alice" ["bob"]
           initial_run world0).
  reflexivity.
Defined.

(** X13.  When the classification service fails at every call, the analysis
    of a post that is not cached costs three calls, five and then ten
    seconds apart, and, when the error says that the rate limit was hit, a
    further wait of fifteen seconds after the last call (not between the
    calls); it does not throw but returns the fallback verdict, and stores
    it in the cache. *)
Theorem analyzePostWithOpenAI_service_down (env : Env) (post : InstagramPost)
    (rate_limited : bool) (w : World) :
  fst (getCached (analysis_key (id post)) w) = CUndefined ->
  (forall w0, exists e,
     openai_createChatCompletion env post w0 = Throw e
     /\ includes "rate limit" (message e) = rate_limited) ->
  let r := analyzePostWithOpenAI env post w in
  fst r = Return (CAnalysis fallback)
  /\ steps_between w (snd r)
     = [EvCacheGet (analysis_key (id post)) false;
        EvOpenAI (id post); EvDelay 5000;
        EvOpenAI (id post); EvDelay 10000;
        EvOpenAI (id post)]
       ++ (if rate_limited then [EvDelay 15000] else [])
       ++ [EvCacheSet (analysis_key (id post))].
Proof.
  intros Hmiss Hdown. cbv zeta. unfold analyzePostWithOpenAI.
  rewrite getCachedOrCompute_miss by done.
  pose proof (getCached_trace (analysis_key (id post)) w) as Hget.
  rewrite Hmiss in Hget. simpl defined in Hget.
  set (w1 := snd (getCached (analysis_key (id post)) w)) in *.
  assert (Hfail : forall w0,
            is_throw (openai_createChatCompletion env post w0) = true).
  { intros w0. by destruct (Hdown w0) as (e & -> & _). }
  destruct (request_fails_thrice env (EvOpenAI (id post))
              (openai_createChatCompletion env post) w1 Hfail)
    as (e3 & w3 & w' & Hretry & Hthird & Ht & _).
  destruct (Hdown w3) as (e & He & Hlimit). rewrite He in Hthird.
  injection Hthird as <-.
  unfold analysis_producer, classify, createChatCompletion. rewrite Hretry.
  rewrite toError_is_Error, message_toError, Hlimit. simpl.
  split; [done|]. apply steps_between_app.
  destruct rate_limited; simpl; rewrite Ht, Hget, <- !app_assoc; done.
Qed.

Lemma analyzePostWithOpenAI_service_down_witness :
  let r := analyzePostWithOpenAI env_down post_p1 world0 in
  fst r = Return (CAnalysis fallback)
  /\ steps_between world0 (snd r)
     = [EvCacheGet (analysis_key (id post_p1)) false;
        EvOpenAI (id post_p1); EvDelay 5000;
        EvOpenAI (id post_p1); EvDelay 10000;
        EvOpenAI (id post_p1)]
       ++ [EvDelay 15000]
       ++ [EvCacheSet (analysis_key (id post_p1))].
Proof.
  apply (analyzePostWithOpenAI_service_down env_down post_p1 true world0).
  - reflexivity.
  - intros w0. eexists. split; reflexivity.
Defined.

(** ** The accounts to monitor *)

Lemma getCached_watchlist (key : string) (w : World) :
  watchlist (snd (getCached key w)) = watchlist w.
Proof.
  unfold getCached, NodeCache_get.
  destruct (cache w !! key) as [e|]; [|done].
  by destruct (expiresAt e <? clock w).
Qed.

(** X14.  When the followings of the account cannot be read on a cache miss
    (the database fails, the account has no row in [watchlist], or its
    [followings] column is not an array), [getFollowingsFromSupabase] does
    not throw: it returns the empty list and caches it for
    [FOLLOWINGS_CACHE_TTL] seconds.  Until then every call answers with the
    empty list, whatever the database holds by that time. *)
Theorem getFollowingsFromSupabase_caches_failure (env : Env) (acct : string)
    (w : World) :
  fst (getCached (followings_key acct) w) = CUndefined ->
  supabase_fails env (snd (getCached (followings_key acct) w)) = true
  \/ (forall l, watchlist w !! acct <> Some (FollowingsArray l)) ->
  let r := getFollowingsFromSupabase env acct w in
  let e := {| value := CStrings [];
              expiresAt := clock (snd r) + FOLLOWINGS_CACHE_TTL * 1000 |} in
  fst r = Return (CStrings [])
  /\ cache (snd r) !! followings_key acct = Some e
  /\ forall (env' : Env) (w' : World),
       cache w' !! followings_key acct = Some e ->
       clock w' <= expiresAt e ->
       fst (getFollowingsFromSupabase env' acct w') = Return (CStrings []).
Proof.
  intros Hmiss Hunread. cbv zeta.
  assert (Hlater : forall (env' : Env) (w' : World) (e : CacheEntry),
            value e = CStrings [] ->
            cache w' !! followings_key acct = Some e ->
            clock w' <= expiresAt e ->
            fst (getFollowingsFromSupabase env' acct w') = Return (CStrings [])).
  { intros env' w' e Hv He Hlive. unfold getFollowingsFromSupabase.
    rewrite getCachedOrCompute_hit;
      rewrite (getCached_live _ e w' He Hlive); simpl; by rewrite Hv. }
  unfold getFollowingsFromSupabase. rewrite getCachedOrCompute_miss by done.
  pose proof (getCached_watchlist (followings_key acct) w) as Hw.
  set (w1 := snd (getCached (followings_key acct) w)) in *.
  assert (Hp : followings_producer env acct w1
               = (Return (CStrings []), elapse (latency env w1) w1)).
  { unfold followings_producer. rewrite Hw.
    destruct (supabase_fails env w1) eqn:Hf; [done|].
    destruct Hunread as [Hfails|Hrow]; [congruence|].
    destruct (watchlist w !! acct) as [[l|]|] eqn:Hr; try done.
    by destruct (Hrow l). }
  rewrite Hp. simpl. rewrite lookup_insert_eq.
  repeat split; try done.
  intros env' w' He Hlive. eapply Hlater; [|exact He|exact Hlive]. done.
Qed.

Lemma getFollowingsFromSupabase_caches_failure_witness :
  let r := getFollowingsFromSupabase env_steady "alice" world0 in
  let e := {| value := CStrings [];
              expiresAt := clock (snd r) + FOLLOWINGS_CACHE_TTL * 1000 |} in
  fst r = Return (CStrings [])
  /\ cache (snd r) !! followings_key "alice" = Some e
  /\ forall (env' : Env) (w' : World),
       cache w' !! followings_key "alice" = Some e ->
       clock w' <= expiresAt e ->
       fst (getFollowingsFromSupabase env' "alice" w') = Return (CStrings []).
Proof.
  apply (getFollowingsFromSupabase_caches_failure env_steady "alice" world0).
  - reflexivity.
  - right. intros l. vm_compute. discriminate.
Defined.

(** ** main: how many accounts are fetched *)

Lemma scraper_requests_app (a b : list Event) :
  scraper_requests (a ++ b) = (scraper_requests a + scraper_requests b)%nat.
Proof. unfold scraper_requests. by rewrite List.filter_app, length_app. Qed.

Lemma Steps_scraper_requests (allowed : Event -> Prop) (rows : string -> Prop)
    (w w' : World) :
  (forall u, ~ allowed (EvGetPosts u)) ->
  Steps allowed rows w w' ->
  scraper_requests (trace w') = scraper_requests (trace w).
Proof.
  intros Hno HS. destruct (Steps_sound _ _ _ _ HS) as ((l & Hl & Hall) & _).
  rewrite Hl, scraper_requests_app. clear Hl.
  assert (scraper_requests l = 0%nat) as ->; [|lia].
  induction Hall as [|x l Hx _ IH]; [done|].
  destruct x; try exact IH. by destruct (Hno username).
Qed.

Lemma retry_loop_getPosts_bound (env : Env) (username : string)
    (postsPerAccount retries delayMs : Z) (remaining : nat) (attempt : Z)
    (lastError : option Thrown) (w : World) :
  (scraper_requests
     (trace (snd (retry_loop
                    (request env (EvGetPosts username)
                       (scraper_getPosts env username postsPerAccount))
                    retries delayMs remaining attempt lastError w)))
   <= scraper_requests (trace w) + remaining)%nat.
Proof.
  revert attempt lastError w.
  induction remaining as [|r IH]; intros attempt lastError w; simpl; [lia|].
  assert (Hstep : scraper_requests
                     (trace (elapse (latency env w) (log (EvGetPosts username) w)))
                   = S (scraper_requests (trace w))).
  { simpl trace. rewrite scraper_requests_app.
    change (scraper_requests [EvGetPosts username]) with 1%nat. lia. }
  destruct (scraper_getPosts env username postsPerAccount w) as [v|e];
    [simpl snd; lia|].
  match goal with
  | |- context [retry_loop _ _ _ r ?a ?l ?w2] =>
      pose proof (IH a l w2) as Hb;
      assert (Hc : scraper_requests (trace w2)
                   = scraper_requests
                       (trace (elapse (latency env w)
                                 (log (EvGetPosts username) w))))
  end.
  { destruct (attempt <? retries); [|done].
    simpl trace. rewrite !scraper_requests_app.
    change (scraper_requests [EvDelay _]) with 0%nat. lia. }
  lia.
Qed.

Lemma process_account_requests (env : Env) (postsPerAccount : Z)
    (username : string) (rs : RunState) (w : World) :
  (scraper_requests
     (trace (snd (process_account env postsPerAccount username rs w)))
   <= scraper_requests (trace w) + 3)%nat.
Proof.
  unfold process_account. set (w1 := delay _ w).
  assert (H1 : scraper_requests (trace w1) = scraper_requests (trace w)).
  { unfold w1. simpl trace. rewrite scraper_requests_app.
    change (scraper_requests [EvDelay _]) with 0%nat. lia. }
  assert (H2 : (scraper_requests
                  (trace (snd (withRetry
                                 (request env (EvGetPosts username)
                                    (scraper_getPosts env username postsPerAccount))
                                 MAX_RETRIES RETRY_DELAY w1)))
                <= scraper_requests (trace w1) + 3)%nat)
    by apply (retry_loop_getPosts_bound env username postsPerAccount
                MAX_RETRIES RETRY_DELAY 3 1 None w1).
  destruct (withRetry _ MAX_RETRIES RETRY_DELAY w1) as [[results|err] w2];
    simpl snd in H2; [|simpl snd; lia].
  destruct (if success results then posts results else None) as [[|p ps]|];
    [simpl snd; lia| |simpl snd; lia].
  rewrite (Steps_scraper_requests (run_event []) (fun _ => True) w2).
  - lia.
  - intros u Hu. by apply elem_of_nil in Hu.
  - apply Steps_process_posts.
Qed.

Lemma process_accounts_requests (env : Env) (postsPerAccount : Z)
    (accts : list string) (rs : RunState) (w : World) :
  (scraper_requests
     (trace (snd (process_accounts env postsPerAccount accts rs w)))
   <= scraper_requests (trace w) + 3 * length accts)%nat.
Proof.
  revert rs w. induction accts as [|u rest IH]; intros rs w; simpl; [lia|].
  pose proof (process_account_requests env postsPerAccount u rs w) as H1.
  destruct (process_account env postsPerAccount u rs w) as [rs1 w1].
  simpl snd in H1. pose proof (IH rs1 w1). lia.
Qed.

Lemma Steps_getFollowingsFromSupabase (env : Env) (acct : string) (w : World) :
  Steps (run_event []) (fun _ => True) w
    (snd (getFollowingsFromSupabase env acct w)).
Proof.
  apply Steps_getCachedOrCompute; try done.
  intros w0. unfold followings_producer.
  destruct (supabase_fails env w0); [apply Steps_elapse|].
  destruct (watchlist w0 !! acct) as [[l|]|]; apply Steps_elapse.
Qed.

(** What [slice] and the comparison before it make of [--max]. *)
Lemma apply_limit_cases (maxFollowings : MaxFollowings) (l : list string) :
  apply_limit maxFollowings l
  = match maxFollowings with
    | MaxInt m =>
        if 0 <=? m then take (Z.to_nat m) l
        else take (length l - Z.to_nat (- m)) l
    | MaxInfinity | MaxNaN => l
    end.
Proof.
  destruct maxFollowings as [| |m]; try done.
  unfold apply_limit, slice_to.
  destruct (m <? Z.of_nat (length l)) eqn:Hlt.
  - destruct (m <? 0) eqn:Hneg.
    + apply Z.ltb_lt in Hneg.
      assert ((0 <=? m) = false) as -> by (apply Z.leb_gt; lia).
      f_equal. lia.
    + apply Z.ltb_ge in Hneg.
      by assert ((0 <=? m) = true) as -> by (apply Z.leb_le; lia).
  - apply Z.ltb_ge in Hlt.
    assert ((0 <=? m) = true) as -> by (apply Z.leb_le; lia).
    rewrite take_ge; [done | lia].
Qed.

(** X15.  [main] fetches posts only for the followings it was given, cut to
    [--max]: the first [m] of them for [--max=m] with [m >= 0], all but the
    last [-m] for a negative [m], and all of them without the argument or
    when it is not a number.  Each of these accounts is requested at most
    three times, so [--max=m] bounds the requests to the scraper by [3 m];
    with no followings, or [--max=0], none is made. *)
Theorem main_fetches_limited_accounts (env : Env) (mainAccount : string)
    (maxFollowings : MaxFollowings) (followings : list string) (w : World) :
  fst (getFollowingsFromSupabase env mainAccount w)
  = Return (CStrings followings) ->
  let steps := steps_between w (snd (main env mainAccount maxFollowings w)) in
  let monitored :=
    match maxFollowings with
    | MaxInt m =>
        if 0 <=? m then take (Z.to_nat m) followings
        else take (length followings - Z.to_nat (- m)) followings
    | MaxInfinity | MaxNaN => followings
    end in
  (forall u, EvGetPosts u ∈ steps -> u ∈ monitored)
  /\ (scraper_requests steps <= 3 * length monitored)%nat.
Proof.
  intros Hf. cbv zeta. rewrite <- apply_limit_cases.
  set (monitored := apply_limit maxFollowings followings).
  assert (Hmain : exists l,
            trace (snd (main env mainAccount maxFollowings w)) = trace w ++ l
            /\ Forall (run_event monitored) l
            /\ (scraper_requests l <= 3 * length monitored)%nat).
  { unfold main. destruct (String.eqb mainAccount "").
    { exists []. simpl snd. rewrite app_nil_r. split; [done|].
      split; [constructor|]. change (scraper_requests []) with 0%nat. lia. }
    pose proof (Steps_getFollowingsFromSupabase env mainAccount w) as H1.
    destruct (getFollowingsFromSupabase env mainAccount w) as [o w1].
    simpl in Hf, H1. subst o.
    destruct (Steps_sound _ _ _ _ H1) as ((l1 & Hl1 & Hall1) & _).
    assert (Hq1 : scraper_requests l1 = 0%nat).
    { pose proof (Steps_scraper_requests _ _ _ _
                    (fun u (H : run_event [] (EvGetPosts u)) =>
                       proj1 (elem_of_nil u) H) H1) as Hq.
      rewrite Hl1, scraper_requests_app in Hq. lia. }
    assert (Hall1' : Forall (run_event monitored) l1).
    { eapply Forall_impl; [exact Hall1|]. intros e He. destruct e; try done.
      by apply elem_of_nil in He. }
    assert (Hstop : exists l,
              trace w1 = trace w ++ l /\ Forall (run_event monitored) l
              /\ (scraper_requests l <= 3 * length monitored)%nat).
    { exists l1. split; [done|]. split; [done | lia]. }
    destruct followings as [|f fs]; [exact Hstop|].
    fold monitored.
    destruct monitored as [|a rest] eqn:Hm; [exact Hstop|].
    rewrite <- Hm in *.
    pose proof (Steps_scrapeAndDetectEvents env monitored 5 w1) as H2.
    pose proof (process_accounts_requests env 5 monitored initial_run w1) as Hq2.
    unfold scrapeAndDetectEvents in *.
    destruct (process_accounts env 5 monitored initial_run w1) as [rs w2].
    simpl in *.
    destruct (Steps_sound _ _ _ _ H2) as ((l2 & Hl2 & Hall2) & _).
    exists (l1 ++ l2). rewrite Hl2, Hl1, <- app_assoc. split; [done|].
    split; [by apply Forall_app|].
    rewrite Hl2, Hl1, !scraper_requests_app in Hq2.
    rewrite scraper_requests_app. lia. }
  destruct Hmain as (l & Hl & Hall & Hq).
  rewrite (steps_between_app _ _ _ Hl). split; [|exact Hq].
  intros u Hu. rewrite Forall_forall in Hall. by apply (Hall (EvGetPosts u)).
Qed.

Lemma main_fetches_limited_accounts_witness :
  let steps :=
    steps_between world_following
      (snd (main env_steady "me" (MaxInt 2) world_following)) in
  (forall u, EvGetPosts u ∈ steps -> u ∈ ["alice"; "bob"])
  /\ (scraper_requests steps <= 6)%nat.
Proof.
  apply (main_fetches_limited_accounts env_steady "me" (MaxInt 2)
           ["alice"; "bob"; "carol"] world_following).
  reflexivity.
Defined.

(** ** followings/stats.ts: the sample a change is measured against *)

Lemma latest_None (rows : list HistoryRow) : latest rows = None -> rows = [].
Proof.
  destruct rows as [|x rest]; [done|]. simpl.
  destruct (latest rest) as [best|]; [|done].
  by destruct (created_at x <? created_at best).
Qed.

Lemma latest_Some (rows : list HistoryRow) (r : HistoryRow) :
  latest rows = Some r ->
  r ∈ rows /\ forall r', r' ∈ rows -> created_at r' <= created_at r.
Proof.
  revert r. induction rows as [|x rest IH]; intros r; simpl; [done|].
  destruct (latest rest) as [best|] eqn:Hbest.
  - destruct (IH best eq_refl) as (Hin & Hmax).
    destruct (created_at x <? created_at best) eqn:Hlt; intros [= <-].
    + apply Z.ltb_lt in Hlt. split; [by apply elem_of_cons; right|].
      intros r' [->|Hr']%elem_of_cons; [lia | by apply Hmax].
    + apply Z.ltb_ge in Hlt. split; [by apply elem_of_cons; left|].
      intros r' [->|Hr']%elem_of_cons; [lia|].
      specialize (Hmax r' Hr'). lia.
  - intros [= <-]. split; [by apply elem_of_cons; left|].
    intros r' [->|Hr']%elem_of_cons; [lia|].
    rewrite (latest_None _ Hbest) in Hr'. by apply elem_of_nil in Hr'.
Qed.

Lemma at_or_before_filter (rows : list HistoryRow) (acct : string) (date : Z)
    (r : HistoryRow) :
  r ∈ List.filter (at_or_before acct date) rows
  <-> r ∈ rows /\ h_account r = acct /\ created_at r <= date.
Proof.
  rewrite !list_elem_of_In, List.filter_In. unfold at_or_before.
  rewrite andb_true_iff, String.eqb_eq, Z.leb_le. tauto.
Qed.

(** X16.  When the cache does not answer and the database does,
    [getDifferenceFromDate] returns the count of the latest sample of the
    account taken at or before the date, and [null] exactly when the
    account has no sample that old; it does not throw. *)
Theorem getDifferenceFromDate_reads_latest_sample (env : Env) (acct : string)
    (date : Z) (w : World) :
  fst (getCached (history_key acct date) w) = CUndefined ->
  supabase_fails env (snd (getCached (history_key acct date) w)) = false ->
  (exists r,
     fst (getDifferenceFromDate env acct date w)
     = Return (CNum (followings_count r))
     /\ r ∈ watchlist_history w
     /\ h_account r = acct
     /\ created_at r <= date
     /\ forall r', r' ∈ watchlist_history w -> h_account r' = acct ->
                   created_at r' <= date -> created_at r' <= created_at r)
  \/ (fst (getDifferenceFromDate env acct date w) = Return CNull
      /\ forall r, r ∈ watchlist_history w -> h_account r = acct ->
                   date < created_at r).
Proof.
  intros Hmiss Hdb. rewrite getDifferenceFromDate_miss by done. rewrite Hdb.
  unfold nearest_sample.
  destruct (latest (List.filter (at_or_before acct date) (watchlist_history w)))
    as [r|] eqn:Hlatest.
  - left. exists r. destruct (latest_Some _ _ Hlatest) as (Hin & Hmax).
    apply at_or_before_filter in Hin as (Hin & Hacct & Hdate).
    repeat split; try done.
    intros r' Hr' Ha' Hd'. apply Hmax. by apply at_or_before_filter.
  - right. split; [done|]. intros r Hr Ha.
    destruct (Z_lt_le_dec date (created_at r)) as [|Hle]; [done|].
    assert (Hin : r ∈ List.filter (at_or_before acct date) (watchlist_history w))
      by by apply at_or_before_filter.
    rewrite (latest_None _ Hlatest) in Hin. by apply elem_of_nil in Hin.
Qed.

Lemma getDifferenceFromDate_reads_latest_sample_witness :
  (exists r,
     fst (getDifferenceFromDate env_steady "alice" 1704103200000 world_morning)
     = Return (CNum (followings_count r))
     /\ r ∈ watchlist_history world_morning
     /\ h_account r = "alice"
     /\ created_at r <= 1704103200000
     /\ forall r', r' ∈ watchlist_history world_morning ->
                   h_account r' = "alice" ->
                   created_at r' <= 1704103200000 ->
                   created_at r' <= created_at r)
  \/ (fst (getDifferenceFromDate env_steady "alice" 1704103200000 world_morning)
      = Return CNull
      /\ forall r, r ∈ watchlist_history world_morning ->
                   h_account r = "alice" -> 1704103200000 < created_at r).
Proof.
  apply (getDifferenceFromDate_reads_latest_sample env_steady "alice"
           1704103200000 world_morning); reflexivity.
Defined.

Lemma getDifferenceFromDate_returns (env : Env) (acct : string) (date : Z)
    (w : World) :
  exists v w', getDifferenceFromDate env acct date w = (Return v, w').
Proof.
  unfold getDifferenceFromDate, getCachedOrCompute.
  destruct (getCached (history_key acct date) w) as [v w1].
  destruct (defined v); [by eauto|].
  rewrite history_producer_returns.
  destruct (setCached _ _ HISTORY_CACHE_TTL _). eauto.
Qed.

(** X17.  [computeFollowingsStats] on an account whose row can be read
    does not throw: the total is the length of the [followings] array (0
    when the column is not an array), and the daily change is the total
    minus the count of the nearest sample a day back, when that lookup is
    not answered from the cache, the database answers it and the count is
    not 0. *)
Theorem computeFollowingsStats_daily_change (env : Env) (acct : string)
    (followings : Followings) (sample : HistoryRow) (w : World) :
  let w1 := elapse (latency env w) w in
  let date := oneDayAgo (clock w1) in
  supabase_fails env w = false ->
  watchlist w !! acct = Some followings ->
  fst (getCached (history_key acct date) w1) = CUndefined ->
  supabase_fails env (snd (getCached (history_key acct date) w1)) = false ->
  nearest_sample (watchlist_history w) acct date = Some sample ->
  followings_count sample <> 0 ->
  exists stats,
    fst (computeFollowingsStats env acct w) = Return stats
    /\ totalFollowings stats = currentFollowingsCount followings
    /\ dailyChange stats
       = currentFollowingsCount followings - followings_count sample.
Proof.
  intros w1 date Hdb Hrow Hmiss Hdb' Hsample Hcount.
  destruct (computeFollowingsStats_returns env acct followings w Hdb Hrow)
    as (stats & w' & Hrun & Htotal).
  destruct (computeFollowingsStats_changes env acct w w' stats Hrun)
    as (Hday & _).
  fold w1 in Hday. fold date in Hday.
  rewrite Hmiss in Hday. cbn [defined] in Hday.
  unfold history_answer in Hday. rewrite Hdb' in Hday.
  rewrite getCached_history in Hday.
  change (watchlist_history w1) with (watchlist_history w) in Hday.
  rewrite Hsample in Hday. simpl in Hday.
  apply Z.eqb_neq in Hcount. rewrite Hcount in Hday.
  exists stats. rewrite Hrun. split; [done|]. split; [done|].
  by rewrite Hday, Htotal.
Qed.

Lemma computeFollowingsStats_daily_change_witness :
  exists stats,
    fst (computeFollowingsStats env_steady "alice" world_morning) = Return stats
    /\ totalFollowings stats = 3
    /\ dailyChange stats = 3 - 2.
Proof.
  apply (computeFollowingsStats_daily_change env_steady "alice"
           (FollowingsArray ["bob"; "carol"; "dave"]) sample_0900 world_morning).
  - reflexivity.
  - reflexivity.
  - reflexivity.
  - reflexivity.
  - vm_compute. reflexivity.
  - vm_compute. discriminate.
Defined.

(** ** The cache entries a run leaves alone *)

Section CacheFrame.
Variable k : string.

(** The entry under [k] is as it was. *)
Local Abbreviation Kept w w' := (cache w' !! k = cache w !! k).

Lemma Kept_getCached (key : string) (w : World) :
  key <> k -> Kept w (snd (getCached key w)).
Proof.
  intros Hne. destruct (getCached_frame key w) as (_ & _ & _ & [->|(_ & _ & ->)]);
    [done|]. by apply lookup_delete_ne.
Qed.

Lemma Kept_setCached (key : string) (v : CacheVal) (ttl : Z) (w : World) :
  key <> k -> Kept w (snd (setCached key v ttl w)).
Proof. intros Hne. simpl. by apply lookup_insert_ne. Qed.

Lemma Kept_getCachedOrCompute (key : string) (fn : M CacheVal) (ttl : Z) :
  key <> k ->
  (forall w, Kept w (snd (fn w))) ->
  forall w, Kept w (snd (getCachedOrCompute key fn ttl w)).
Proof.
  intros Hne Hfn w. unfold getCachedOrCompute.
  pose proof (Kept_getCached key w Hne) as H1.
  destruct (getCached key w) as [v w1]. simpl in H1.
  destruct (defined v); [done|].
  pose proof (Hfn w1) as H2. destruct (fn w1) as [[r|err] w2]; simpl in H2.
  - pose proof (Kept_setCached key r ttl w2 Hne) as H3.
    destruct (setCached key r ttl w2) as [ok w3]. simpl in *.
    by rewrite H3, H2.
  - simpl. by rewrite H2.
Qed.

Lemma Kept_withRetry_request {A} (env : Env) (ev : Event)
    (answer : World -> Outcome A) (retries delayMs : Z) (w : World) :
  Kept w (snd (withRetry (request env ev answer) retries delayMs w)).
Proof.
  apply (withRetry_preserves (fun w w' => Kept w w')); try done.
  intros w1 w2 w3 H12 H23. by rewrite H23.
Qed.

Lemma Kept_analyzePostWithOpenAI (env : Env) (post : InstagramPost) (w : World) :
  analysis_key (id post) <> k ->
  Kept w (snd (analyzePostWithOpenAI env post w)).
Proof.
  intros Hne. apply Kept_getCachedOrCompute; [done|].
  intros w0. unfold analysis_producer, classify, createChatCompletion.
  pose proof (Kept_withRetry_request env (EvOpenAI (id post))
                (openai_createChatCompletion env post) MAX_RETRIES RETRY_DELAY w0)
    as H1.
  destruct (withRetry _ MAX_RETRIES RETRY_DELAY w0) as [[c|err] w1];
    simpl in H1; [done|].
  by destruct (is_Error err && includes "rate limit" (message err)).
Qed.

Lemma Kept_process_post (env : Env) (username : string) (post : InstagramPost)
    (rs : RunState) (w : World) :
  analysis_key (id post) <> k ->
  Kept w (snd (process_post env username post rs w)).
Proof.
  intros Hne. unfold process_post.
  destruct (bool_decide (id post ∈ analyzedPostIds rs)); [done|].
  unfold select_existing. simpl.
  match goal with
  | |- context [if ?b then _ else _] => destruct b; [done|]
  end.
  match goal with
  | |- context [getCached ?key ?w0] =>
      pose proof (Kept_getCached key w0 Hne) as H1;
      destruct (getCached key w0) as [cachedAnalysis w2]
  end.
  simpl in H1.
  pose proof (Kept_analyzePostWithOpenAI env post w2 Hne) as H2.
  destruct (analyzePostWithOpenAI env post w2) as [[v|err] w3]; simpl in H2.
  - unfold finish_post.
    destruct (read_analysis v) as [analysis|err]; [|simpl; by rewrite H2].
    unfold handle_verdict.
    destruct (isEvent analysis
              && (MIN_CONFIDENCE_THRESHOLD <=? confidenceScore analysis));
      [|simpl; by rewrite H2].
    destruct (postDate post (clock w3)) as [date|err'];
      [|simpl; by rewrite H2].
    unfold storeEventInSupabase.
    destruct (supabase_fails env w3); simpl; by rewrite H2.
  - simpl. by rewrite H2.
Qed.

Hypothesis not_an_analysis : forall pid, analysis_key pid <> k.

Lemma Kept_process_posts (env : Env) (username : string)
    (ps : list InstagramPost) (rs : RunState) (w : World) :
  Kept w (snd (process_posts env username ps rs w)).
Proof.
  revert rs w. induction ps as [|post rest IH]; intros rs w; simpl; [done|].
  pose proof (Kept_process_post env username post rs w (not_an_analysis _)) as H1.
  destruct (process_post env username post rs w) as [rs1 w1]. simpl in H1.
  by rewrite IH.
Qed.

Lemma Kept_process_account (env : Env) (postsPerAccount : Z)
    (username : string) (rs : RunState) (w : World) :
  Kept w (snd (process_account env postsPerAccount username rs w)).
Proof.
  unfold process_account. set (w1 := delay _ w).
  pose proof (Kept_withRetry_request env (EvGetPosts username)
                (scraper_getPosts env username postsPerAccount)
                MAX_RETRIES RETRY_DELAY w1) as H1.
  destruct (withRetry _ MAX_RETRIES RETRY_DELAY w1) as [[results|err] w2];
    simpl in H1; [|done].
  destruct (if success results then posts results else None) as [[|p ps]|];
    [done | | done].
  by rewrite Kept_process_posts.
Qed.

Lemma Kept_process_accounts (env : Env) (postsPerAccount : Z)
    (accts : list string) (rs : RunState) (w : World) :
  Kept w (snd (process_accounts env postsPerAccount accts rs w)).
Proof.
  revert rs w. induction accts as [|u rest IH]; intros rs w; simpl; [done|].
  pose proof (Kept_process_account env postsPerAccount u rs w) as H1.
  destruct (process_account env postsPerAccount u rs w) as [rs1 w1].
  simpl in H1. by rewrite IH.
Qed.
End CacheFrame.

Lemma followings_key_not_analysis (acct pid : string) :
  analysis_key pid <> followings_key acct.
Proof. done. Qed.

Lemma history_key_not_analysis (acct : string) (date : Z) (pid : string) :
  analysis_key pid <> history_key acct date.
Proof. done. Qed.

(** X18.  A run writes the cache under the keys [post_analysis:{id}] only:
    every entry under another key is left as it was, in particular the
    followings list that [main] has just read and the history counts of the
    statistics, whose keys are never those of an analysis. *)
Theorem scrapeAndDetectEvents_keeps_other_entries (env : Env)
    (accts : list string) (postsPerAccount : Z) (w : World) :
  let w' := snd (scrapeAndDetectEvents env accts postsPerAccount w) in
  (forall key, (forall pid, key <> analysis_key pid) ->
               cache w' !! key = cache w !! key)
  /\ (forall acct, cache w' !! followings_key acct
                   = cache w !! followings_key acct)
  /\ (forall acct date, cache w' !! history_key acct date
                        = cache w !! history_key acct date).
Proof.
  cbv zeta.
  assert (Hkept : forall key, (forall pid, analysis_key pid <> key) ->
            cache (snd (scrapeAndDetectEvents env accts postsPerAccount w)) !! key
            = cache w !! key).
  { intros key Hkey. unfold scrapeAndDetectEvents.
    pose proof (Kept_process_accounts key Hkey env postsPerAccount accts
                  initial_run w) as H1.
    by destruct (process_accounts env postsPerAccount accts initial_run w). }
  repeat split.
  - intros key Hkey. apply Hkept. intros pid Heq. by apply (Hkey pid).
  - intros acct. apply Hkept. intros pid. apply followings_key_not_analysis.
  - intros acct date. apply Hkept. intros pid. apply history_key_not_analysis.
Qed.

(** ** The analysis always answers *)

(** X19.  [analyzePostWithOpenAI] never throws, whatever the classification
    service and the parser do: it resolves to a value other than
    [undefined], and that value is what the cache holds for the post when it
    returns, so that an immediate second analysis is answered from the
    cache. *)
Theorem analyzePostWithOpenAI_never_throws (env : Env) (post : InstagramPost)
    (w : World) :
  let r := analyzePostWithOpenAI env post w in
  exists v,
    fst r = Return v
    /\ defined v = true
    /\ fst (getCached (analysis_key (id post)) (snd r)) = v
    /\ fst (analyzePostWithOpenAI env post (snd r)) = Return v.
Proof.
  cbv zeta.
  destruct (analyzePostWithOpenAI_caches env post w)
    as (e & Hv & He & Hdef & Hlive & _).
  exists (value e). split; [done|]. split; [done|].
  pose proof (getCached_live _ e _ He Hlive) as Hget.
  split; [by rewrite Hget|].
  unfold analyzePostWithOpenAI at 1.
  rewrite getCachedOrCompute_hit; by rewrite Hget.
Qed.

(** ** The counters of a run *)

Lemma size_mark_analyzed (pid : string) (rs : RunState) :
  pid ∉ analyzedPostIds rs ->
  size (analyzedPostIds (mark_analyzed pid rs)) = S (size (analyzedPostIds rs)).
Proof.
  intros Hnew. simpl. rewrite size_union.
  - by rewrite size_singleton.
  - by apply disjoint_singleton_l.
Qed.

(** One iteration over a post: when the post is new to the run it is
    counted as a hit or as a miss, and an event is counted if it is stored;
    otherwise no counter moves. *)
Lemma process_post_counters (env : Env) (username : string)
    (post : InstagramPost) (rs : RunState) (w : World) :
  let rs' := fst (process_post env username post rs w) in
  let seen : Z := Z.of_nat (size (analyzedPostIds rs')) 
                  - Z.of_nat (size (analyzedPostIds rs)) in
  0 <= seen <= 1
  /\ cacheHits rs' + cacheMisses rs' = cacheHits rs + cacheMisses rs + seen
  /\ cacheHits rs <= cacheHits rs' /\ cacheMisses rs <= cacheMisses rs'
  /\ 0 <= Z.of_nat (length (events rs')) - Z.of_nat (length (events rs))
       <= totalEvents rs' - totalEvents rs
  /\ totalEvents rs' - totalEvents rs <= seen
  /\ totalProcessed rs' = totalProcessed rs.
Proof.
  cbv zeta. unfold process_post.
  destruct (bool_decide (id post ∈ analyzedPostIds rs)) eqn:Hseen;
    [simpl; lia|].
  apply bool_decide_eq_false in Hseen.
  pose proof (size_mark_analyzed (id post) rs Hseen) as Hsize.
  destruct (select_existing env (id post) _) as [[|] w1]; simpl fst.
  { simpl in *. lia. }
  destruct (getCached (analysis_key (id post)) w1) as [cachedAnalysis w2].
  destruct (analyzePostWithOpenAI_caches env post w2) as (e & Hv & _).
  destruct (analyzePostWithOpenAI env post w2) as [o w3]. simpl in Hv. subst o.
  unfold finish_post.
  destruct (read_analysis (value e)) as [analysis|err].
  2: { simpl in *. destruct (truthy cachedAnalysis); lia. }
  unfold handle_verdict.
  destruct (isEvent analysis
            && (MIN_CONFIDENCE_THRESHOLD <=? confidenceScore analysis)).
  2: { simpl in *. destruct (truthy cachedAnalysis); lia. }
  destruct (postDate post (clock w3)) as [date|err].
  2: { simpl in *. destruct (truthy cachedAnalysis); lia. }
  destruct (storeEventInSupabase env _ w3) as [[|] w4]; simpl in *;
    rewrite ?length_app; simpl; destruct (truthy cachedAnalysis); lia.
Qed.

Lemma process_posts_counters (env : Env) (username : string)
    (ps : list InstagramPost) (rs : RunState) (w : World) :
  let rs' := fst (process_posts env username ps rs w) in
  let seen : Z := Z.of_nat (size (analyzedPostIds rs')) 
                  - Z.of_nat (size (analyzedPostIds rs)) in
  0 <= seen <= Z.of_nat (length ps)
  /\ cacheHits rs' + cacheMisses rs' = cacheHits rs + cacheMisses rs + seen
  /\ cacheHits rs <= cacheHits rs' /\ cacheMisses rs <= cacheMisses rs'
  /\ 0 <= Z.of_nat (length (events rs')) - Z.of_nat (length (events rs))
       <= totalEvents rs' - totalEvents rs
  /\ totalEvents rs' - totalEvents rs <= seen
  /\ totalProcessed rs' = totalProcessed rs.
Proof.
  cbv zeta. revert rs w.
  induction ps as [|post rest IH]; intros rs w; simpl; [lia|].
  pose proof (process_post_counters env username post rs w) as H1.
  destruct (process_post env username post rs w) as [rs1 w1].
  cbv zeta in H1. simpl fst in H1.
  pose proof (IH rs1 w1) as H2. lia.
Qed.

Lemma process_account_counters (env : Env) (postsPerAccount : Z)
    (username : string) (rs : RunState) (w : World) :
  let rs' := fst (process_account env postsPerAccount username rs w) in
  let seen : Z := Z.of_nat (size (analyzedPostIds rs')) 
                  - Z.of_nat (size (analyzedPostIds rs)) in
  0 <= seen <= totalProcessed rs' - totalProcessed rs
  /\ cacheHits rs' + cacheMisses rs' = cacheHits rs + cacheMisses rs + seen
  /\ cacheHits rs <= cacheHits rs' /\ cacheMisses rs <= cacheMisses rs'
  /\ 0 <= Z.of_nat (length (events rs')) - Z.of_nat (length (events rs))
       <= totalEvents rs' - totalEvents rs
  /\ totalEvents rs' - totalEvents rs <= seen.
Proof.
  cbv zeta. unfold process_account.
  destruct (withRetry _ MAX_RETRIES RETRY_DELAY _) as [[results|err] w2];
    [|simpl; lia].
  destruct (if success results then posts results else None) as [[|p ps]|];
    [simpl; lia| |simpl; lia].
  pose proof (process_posts_counters env username (p :: ps)
                (count_processed (Z.of_nat (length (p :: ps))) rs) w2) as H1.
  cbv zeta in H1.
  destruct (process_posts env username (p :: ps) _ w2) as [rs1 w3].
  simpl fst in *. simpl in H1. simpl. lia.
Qed.

(** X20.  The numbers of the processing summary are consistent: of the
    posts collected ([totalProcessed]), each distinct one is counted once as
    a cache hit or as a cache miss; the events detected are among these, and
    the events returned, which are the ones saved, are among the events
    detected. *)
Theorem process_accounts_counters (env : Env) (postsPerAccount : Z)
    (accts : list string) (w : World) :
  let rs := fst (process_accounts env postsPerAccount accts initial_run w) in
  Z.of_nat (length (events rs)) <= totalEvents rs
  /\ totalEvents rs <= cacheHits rs + cacheMisses rs
  /\ cacheHits rs + cacheMisses rs = Z.of_nat (size (analyzedPostIds rs))
  /\ Z.of_nat (size (analyzedPostIds rs)) <= totalProcessed rs
  /\ 0 <= cacheHits rs /\ 0 <= cacheMisses rs.
Proof.
  cbv zeta.
  assert (Hinv : forall rs0 w0,
    let rs := fst (process_accounts env postsPerAccount accts rs0 w0) in
    let seen : Z := Z.of_nat (size (analyzedPostIds rs)) 
                    - Z.of_nat (size (analyzedPostIds rs0)) in
    0 <= seen <= totalProcessed rs - totalProcessed rs0
    /\ cacheHits rs + cacheMisses rs = cacheHits rs0 + cacheMisses rs0 + seen
    /\ cacheHits rs0 <= cacheHits rs /\ cacheMisses rs0 <= cacheMisses rs
    /\ 0 <= Z.of_nat (length (events rs)) - Z.of_nat (length (events rs0))
         <= totalEvents rs - totalEvents rs0
    /\ totalEvents rs - totalEvents rs0 <= seen).
  { cbv zeta. induction accts as [|u rest IH]; intros rs0 w0; simpl; [lia|].
    pose proof (process_account_counters env postsPerAccount u rs0 w0) as H1.
    destruct (process_account env postsPerAccount u rs0 w0) as [rs1 w1].
    cbv zeta in H1. simpl fst in H1.
    pose proof (IH rs1 w1) as H2. lia. }
  specialize (Hinv initial_run w). cbv zeta in Hinv.
  change (analyzedPostIds initial_run) with (∅ : gset string) in Hinv.
  rewrite size_empty in Hinv.
  change (cacheHits initial_run) with 0 in Hinv.
  change (cacheMisses initial_run) with 0 in Hinv.
  change (totalEvents initial_run) with 0 in Hinv.
  change (totalProcessed initial_run) with 0 in Hinv.
  change (events initial_run) with (@nil EventPost) in Hinv.
  change (length (@nil EventPost)) with 0%nat in Hinv.
  lia.
Qed.

(** ** What is read of the service's answer *)

Lemma upto_last_close_absent (s : string) :
  occurs "}" s = false -> upto_last_close s = None.
Proof.
  induction s as [|c r IH]; simpl; [done|].
  intros [Hc Hr]%orb_false_iff. by rewrite IH, Hc.
Qed.

Lemma upto_last_close_app (body post : string) :
  occurs "}" post = false ->
  upto_last_close (body +:+ "}" +:+ post) = Some (body +:+ "}").
Proof.
  intros Hpost. induction body as [|c r IH]; simpl.
  - by rewrite upto_last_close_absent.
  - by rewrite IH.
Qed.

Lemma match_json_skip (pre s : string) :
  occurs "{" pre = false -> match_json (pre +:+ s) = match_json s.
Proof.
  induction pre as [|c r IH]; simpl; [done|].
  intros [Hc Hr]%orb_false_iff. by rewrite Hc, IH.
Qed.

(** X21.  Of the text of the first choice only the stretch from the first
    opening brace to the last closing brace is read: what precedes and what
    follows is ignored, and the verdict is what [JSON.parse] makes of that
    stretch, the fallback when it does not parse. *)
Theorem interpret_reads_outermost_braces (env : Env)
    (pre body post : string) (others : list (option string)) :
  occurs "{" pre = false ->
  occurs "}" post = false ->
  interpret env
    {| choices := Some (Some (pre +:+ "{" +:+ body +:+ "}" +:+ post) :: others) |}
  = default fallback (JSON_parse env ("{" +:+ body +:+ "}")).
Proof.
  intros Hpre Hpost.
  assert (Hm : match_json (pre +:+ "{" +:+ body +:+ "}" +:+ post)
               = Some ("{" +:+ body +:+ "}")).
  { rewrite match_json_skip by done.
    change (match_json ("{" +:+ body +:+ "}" +:+ post))
      with (match upto_last_close (body +:+ "}" +:+ post) with
            | Some p => Some (String "{"%char p)
            | None => None
            end).
    by rewrite upto_last_close_app. }
  change (interpret env _)
    with (match match_json (pre +:+ "{" +:+ body +:+ "}" +:+ post) with
          | Some json =>
              match JSON_parse env json with
              | Some parsedResponse => parsedResponse
              | None => fallback
              end
          | None => fallback
          end).
  rewrite Hm. by destruct (JSON_parse env _).
Qed.

Lemma interpret_reads_outermost_braces_witness :
  interpret env_steady
    {| choices :=
         Some [Some ("Here you go: " +:+ "{" +:+ " isEvent: false "
                       +:+ "}" +:+ " Hope it helps.")] |}
  = default fallback (JSON_parse env_steady ("{" +:+ " isEvent: false " +:+ "}")).
Proof.
  apply (interpret_reads_outermost_braces env_steady "Here you go: "
           " isEvent: false " " Hope it helps." []); reflexivity.
Defined.
